(** * SolarScape: sun position, shadow / PV estimation and face colouring

    A shallow embedding of the numerical core of the SolarScape viewer:

    - [src/app/utils/shadowCalculate.ts]: [isPointInShadow],
      [calculateRooftopArea], [updateInfoCard];
    - [src/app/utils/buildingUtils.ts]: [highlightBuilding],
      [revertHighlight], [getColorForValue], [onBuildingClick];
    - [src/app/utils/sunPosition.ts]: [getTotalDaytime],
      [updateSunPosition].

    JavaScript numbers are IEEE 754 binary64 values, so they are modelled by
    Rocq's primitive floats, whose [+ - * /] and [sqrt] round exactly as the
    JavaScript operators do ([0 / 0] is [nan]).  The browser document, the
    console, the random source and the mutable module-level variables are an
    explicit [State] that every function threads.  Functions of the host
    environment that have no arithmetic definition ([Math.random],
    [Math.acos], [Math.cos], [Math.sin], [parseFloat], the SunCalc ephemeris,
    the colour-space transfer of three.js) are variables of the development. *)

From Stdlib Require Import Floats ZArith List String Reals Lra Lia.
From Stdlib Require Uint63.
From stdpp Require Import base gmap list strings pretty.

(** ** JavaScript numbers *)

Module JS.
Local Open Scope float_scope.

(** [ToBoolean] on a number: [0], [-0] and [NaN] are falsy. *)
Definition truthy (v : float) : bool := negb (v =? 0) && negb (is_nan v).

(** [v || d] on numbers. *)
Definition or_else (v d : float) : float := if truthy v then v else d.

(** [Math.PI], the binary64 value nearest to pi. *)
Definition Math_PI : float := 0x1.921fb54442d18p+1.

Definition Math_abs (v : float) : float := PrimFloat.abs v.

Definition Math_sqrt (v : float) : float := PrimFloat.sqrt v.

(** [Math.min] and [Math.max] of two numbers: [NaN] is contagious and
    [-0] is below [+0]. *)
Definition Math_min (u v : float) : float :=
  if is_nan u || is_nan v then nan
  else if u <? v then u
  else if v <? u then v
  else if get_sign u then u else v.

Definition Math_max (u v : float) : float :=
  if is_nan u || is_nan v then nan
  else if u <? v then v
  else if v <? u then u
  else if get_sign u then v else u.

(** [Math.min] and [Math.max] applied to a list of arguments: without any
    argument they answer [Infinity] and [-Infinity]. *)
Definition Math_min_list (l : list float) : float :=
  fold_left Math_min l infinity.

Definition Math_max_list (l : list float) : float :=
  fold_left Math_max l neg_infinity.

(** [Math.fround], which is also what a [Float32Array] does to a number
    stored into it: the number is rounded to the nearest binary32 value, ties
    to even; beyond the binary32 range it becomes an infinity. *)
Definition fround (v : float) : float :=
  match Prim2SF v with
  | S754_finite s m e =>
      match binary_round 24 128 s m e with
      | S754_finite s' m' e' => SF2Prim (binary_round prec emax s' m' e')
      | single => SF2Prim single
      end
  | _ => v
  end.

(** A small non-negative integer as a number. *)
Definition of_nat (n : nat) : float := of_uint63 (Uint63.of_Z (Z.of_nat n)).

Definition of_Z (n : Z) : float := of_uint63 (Uint63.of_Z n).

End JS.

(** ** The browser: document, console, alerts and the random source *)

Module Browser.
Local Open Scope float_scope.

(** The text of an element: a literal, or a template with one number
    printed by [toFixed(2)]. *)
Inductive Text :=
| Plain (s : string)
| Fixed2 (before : string) (v : float) (after : string).

Record Element := mkElement {
  value : string;
  innerText : Text;
  style_display : string
}.

Definition set_innerText (t : Text) (e : Element) : Element :=
  mkElement (value e) t (style_display e).

Definition set_display (d : string) (e : Element) : Element :=
  mkElement (value e) (innerText e) d.

(** [randoms] is the sequence [Math.random] will answer and [drawn] the
    number of values already taken from it. *)
Record State := mkState {
  document : gmap string Element;
  console : list string;
  alerts : list string;
  randoms : nat -> float;
  drawn : nat
}.

Definition set_document (d : gmap string Element) (st : State) : State :=
  mkState d (console st) (alerts st) (randoms st) (drawn st).

(** [document.getElementById(id)]. *)
Definition getElementById (id : string) (st : State) : option Element :=
  document st !! id.

(** [if (el) el.innerText = t]: an absent element is skipped. *)
Definition write_innerText (id : string) (t : Text) (st : State) : State :=
  set_document (alter (set_innerText t) id (document st)) st.

Definition write_display (id : string) (d : string) (st : State) : State :=
  set_document (alter (set_display d) id (document st)) st.

Definition console_error (msg : string) (st : State) : State :=
  mkState (document st) (console st ++ [msg]) (alerts st) (randoms st) (drawn st).


Definition alert (msg : string) (st : State) : State :=
  mkState (document st) (console st) (alerts st ++ [msg]) (randoms st) (drawn st).

Definition Math_random (st : State) : float * State :=
  (randoms st (drawn st),
   mkState (document st) (console st) (alerts st) (randoms st) (S (drawn st))).

(** How a call ends: with a value, or with an exception thrown. *)
Inductive Outcome (A : Type) :=
| Returned (v : A)
| Threw (error : string).
Arguments Returned {A} _.
Arguments Threw {A} _.

(** [f(...args)]: a call that spreads an array into its arguments throws a
    [RangeError] when the array holds more elements than the engine takes as
    arguments; [limit] is that bound at the place of the call. *)
Definition spread {A B} (limit : nat) (f : list A -> B) (args : list A)
  : Outcome B :=
  if (List.length args <=? limit)%nat then Returned (f args)
  else Threw "RangeError".

(** [n.toString().padStart(2, '0')] for an integer, and for [NaN]. *)
Definition pad2 (n : option Z) : string :=
  let s := match n with Some n => pretty n | None => "NaN" end in
  match String.length s with
  | 0%nat => "00" +:+ s
  | 1%nat => "0" +:+ s
  | _ => s
  end.

End Browser.

(** ** The parts of three.js the code calls *)

Module THREE.
Local Open Scope float_scope.

Record Vector3 := mkVector3 { x : float; y : float; z : float }.

Definition subVectors (u v : Vector3) : Vector3 :=
  mkVector3 (x u - x v) (y u - y v) (z u - z v).

Definition add (u v : Vector3) : Vector3 :=
  mkVector3 (x u + x v) (y u + y v) (z u + z v).

Definition multiplyScalar (v : Vector3) (s : float) : Vector3 :=
  mkVector3 (x v * s) (y v * s) (z v * s).

Definition divideScalar (v : Vector3) (s : float) : Vector3 :=
  multiplyScalar v (1 / s).

Definition lengthSq (v : Vector3) : float :=
  x v * x v + y v * y v + z v * z v.

Definition length (v : Vector3) : float := JS.Math_sqrt (lengthSq v).

(** [normalize] divides by [length() || 1]: the zero vector stays zero. *)
Definition normalize (v : Vector3) : Vector3 :=
  divideScalar v (JS.or_else (length v) 1).

Definition crossVectors (u v : Vector3) : Vector3 :=
  mkVector3 (y u * z v - z u * y v)
            (z u * x v - x u * z v)
            (x u * y v - y u * x v).

Definition dot (u v : Vector3) : float :=
  x u * x v + y u * y v + z u * z v.

(** [MathUtils.clamp]. *)
Definition clamp (value lo hi : float) : float :=
  JS.Math_max lo (JS.Math_min hi value).

(** [Vector3.angleTo]: a zero denominator answers [Math.PI / 2] without
    calling [Math.acos]. *)
Definition angleTo (Math_acos : float -> float) (u v : Vector3) : float :=
  let denominator := JS.Math_sqrt (lengthSq u * lengthSq v) in
  if denominator =? 0 then JS.Math_PI / 2
  else
    let theta := dot u v / denominator in
    Math_acos (clamp theta (-1) 1).

(** [new Triangle(a, b, c).getArea()]. *)
Definition Triangle_getArea (a b c : Vector3) : float :=
  length (crossVectors (subVectors c b) (subVectors a b)) * 0.5.

Record Color := mkColor { r : float; g : float; b : float }.

(** [new Color(hex)]: the three bytes of [hex] scaled to [0, 1], then
    taken to the working colour space by [toWorking] (the identity when
    colour management is off). *)
Definition Color_ofHex (toWorking : float -> float) (hex : Z) : Color :=
  mkColor (toWorking (JS.of_Z (Z.land (Z.shiftr hex 16) 255) / 255))
          (toWorking (JS.of_Z (Z.land (Z.shiftr hex 8) 255) / 255))
          (toWorking (JS.of_Z (Z.land hex 255) / 255)).

(** [c1.clone().lerp(c2, alpha)]; [alpha] is used as it comes. *)
Definition lerp (c1 c2 : Color) (alpha : float) : Color :=
  mkColor (r c1 + (r c2 - r c1) * alpha)
          (g c1 + (g c2 - g c1) * alpha)
          (b c1 + (b c2 - b c1) * alpha).

Record Ray := mkRay { origin : Vector3; direction : Vector3 }.

(** An object of the scene graph: its [name] (possibly missing) and its
    [raycast] method, which answers the distances at which a ray meets it. *)
Record Object3D := mkObject3D {
  name : option string;
  raycast : Ray -> list float
}.

Record Intersection (A : Type) := mkIntersection {
  distance : float;
  object : A
}.
Arguments mkIntersection {A} _ _.
Arguments distance {A} _.
Arguments object {A} _.

(** [intersects.sort(ascSort)] with [ascSort(a, b) = a.distance - b.distance];
    the sort is stable. *)
Fixpoint ascInsert {A} (i : Intersection A) (l : list (Intersection A))
  : list (Intersection A) :=
  match l with
  | [] => [i]
  | j :: l' =>
      if (distance j - distance i) <? 0 then j :: ascInsert i l'
      else i :: j :: l'
  end.

Definition ascSort {A} (l : list (Intersection A)) : list (Intersection A) :=
  foldr ascInsert [] l.

(** [raycaster.intersectObjects(items, true)]: every object reached by the
    traversal is asked for its hits, and the hits are sorted by distance.
    [items] lists the objects in traversal order. *)
Definition intersectObjects {A} (as_object : A -> Object3D) (items : list A)
    (ray : Ray) : list (Intersection A) :=
  ascSort
    (flat_map (fun o => map (fun d => mkIntersection d o)
                            (raycast (as_object o) ray)) items).

(** A scene, given by the objects of its graph in traversal order. *)
Definition Scene := list Object3D.

(** [raycaster.intersectObject(scene, true)]. *)
Definition intersectObject (scene : Scene) (ray : Ray)
  : list (Intersection Object3D) :=
  intersectObjects (fun o => o) scene ray.

Record Material := mkMaterial {
  color : Z;
  vertexColors : bool;
  needsUpdate : bool
}.

(** [mesh.material] is one material or an array of materials. *)
Inductive MaterialSlot :=
| Single (m : Material)
| Multi (ms : list Material).

(** [MathUtils.generateUUID], which the constructors of materials and of
    geometries call: it takes four numbers from [Math.random].  The
    identifier made of them is read nowhere in this code and is not kept. *)
Definition generateUUID (st : Browser.State) : Browser.State :=
  let '(_, st) := Browser.Math_random st in
  let '(_, st) := Browser.Math_random st in
  let '(_, st) := Browser.Math_random st in
  let '(_, st) := Browser.Math_random st in
  st.

(** The material [new MeshStandardMaterial({ color })] makes. *)
Definition MeshStandardMaterial (c : Z) : MaterialSlot :=
  Single (mkMaterial c false false).

(** [new MeshStandardMaterial({ color })]: the constructor gives the
    material an identifier. *)
Definition new_MeshStandardMaterial (c : Z) (st : Browser.State)
  : MaterialSlot * Browser.State :=
  (MeshStandardMaterial c, generateUUID st).

Record BufferGeometry := mkBufferGeometry {
  position_array : list float;
  index : option (list nat);
  color_attribute : option (list float)
}.

(** [geometry.attributes.position.count]: the number of vertices of a
    position buffer, which holds three numbers for each of them. *)
Definition position_count (geo : BufferGeometry) : nat :=
  (List.length (position_array geo) / 3)%nat.

Record Mesh := mkMesh {
  mesh_object : Object3D;
  geometry : BufferGeometry;
  material : MaterialSlot
}.

Record DirectionalLight := mkDirectionalLight {
  position : Vector3;
  target_position : option Vector3;
  intensity : float
}.

End THREE.

(** ** sunPosition.ts *)

Module sunPosition.
Import Browser.
Local Open Scope float_scope.

Definition LATITUDE : float := 0x1.31374bc6a7efap+4.   (* 19.0760 *)
Definition LONGITUDE : float := 0x1.2382c3c9eeccp+6.   (* 72.8777 *)

Record SunPosition := mkSunPosition { azimuth : float; altitude : float }.

(** The module-level [sunPosition] object starts at zero. *)
Definition sunPosition_initial : SunPosition := mkSunPosition 0 0.

(** The position of the light for an azimuth and an altitude, lines
    305-308 of [updateSunPosition]; written over any number type so that the
    same formula is read in binary64 by the code and in the real numbers by
    the geometry. *)
Definition lightVector {T : Type} (mul : T -> T -> T) (cos sin : T -> T)
    (radius az alt : T) : T * T * T :=
  (mul (mul radius (cos az)) (cos alt),
   mul radius (sin alt),
   mul (mul radius (sin az)) (cos alt)).

(** The value [updateSunPosition] returns. *)
Record Position := mkPosition { x : float; y : float; z : float }.

Section Env.

(** [Math.cos], [Math.sin], [parseInt] (with [None] for [NaN]) and the
    SunCalc library, whose argument is the string handed to [new Date]. *)
Variable Math_cos Math_sin : float -> float.
Variable parseInt : string -> option Z.
Variable SunCalc_getTimes : string -> float -> float -> float * float.
Variable SunCalc_getPosition : string -> float -> float -> SunPosition.

(** [getTotalDaytime]: [SunCalc_getTimes] answers the [getTime()] of sunrise
    and of sunset. *)
Definition getTotalDaytime (date : string) : float :=
  let times := SunCalc_getTimes date LATITUDE LONGITUDE in
  let sunrise := fst times in
  let sunset := snd times in
  (sunset - sunrise) / (1000 * 60 * 60).

(** Lines 298-302: the slider's minutes as [HH:MM], appended to the date;
    the result is the string handed to [new Date]. *)
Definition dateTime (dateValue sliderValue : string) : string :=
  let hours := option_map (fun n => (n / 60)%Z) (parseInt sliderValue) in
  let minutes := option_map (fun n => Z.rem n 60) (parseInt sliderValue) in
  let timeInput := pad2 hours +:+ ":" +:+ pad2 minutes in
  dateValue +:+ "T" +:+ timeInput.

Definition updateSunPosition (light : THREE.DirectionalLight)
    (global : SunPosition) (st : State)
  : Outcome (option Position) * THREE.DirectionalLight * SunPosition * State :=
  let dateInput := getElementById "dateInput" st in
  let timeSlider := getElementById "timeSlider" st in
  match dateInput with
  | None => (Returned None, light, global, alert "Please enter a date." st)
  | Some dateInput =>
      if String.eqb (value dateInput) "" then
        (Returned None, light, global, alert "Please enter a date." st)
      else
        match timeSlider with
        | None => (Threw "TypeError", light, global, st)
        | Some timeSlider =>
            let sunPos :=
              SunCalc_getPosition (dateTime (value dateInput) (value timeSlider))
                                  LATITUDE LONGITUDE in
            let radius := 1500 in
            let '(x, y, z) :=
              lightVector PrimFloat.mul Math_cos Math_sin radius
                          (azimuth sunPos) (altitude sunPos) in
            let target :=
              match THREE.target_position light with
              | Some _ => Some (THREE.mkVector3 0 0 0)
              | None => None
              end in
            let intensity := if altitude sunPos <? 0 then 0 else 5 in
            (Returned (Some (mkPosition x y z)),
             THREE.mkDirectionalLight (THREE.mkVector3 x y z) target intensity,
             mkSunPosition (azimuth sunPos) (altitude sunPos),
             st)
        end
  end.

End Env.

End sunPosition.

(** ** shadowCalculate.ts *)

Module shadowCalculate.
Import Browser.
Local Open Scope float_scope.

Inductive FaceType := Rooftop | Vertical.

(** A vertex index read from the index buffer; [None] is the [undefined]
    read past its end. *)
Record BipvValue := mkBipvValue {
  a : option nat;
  b : option nat;
  c : option nat;
  bipvValue : float;
  type : FaceType
}.

Definition efficiencyFactor : float := 0x1.3333333333333p-3.   (* 0.15 *)
Definition jitter : float := 0x1.47ae147ae147bp-7.             (* 0.01 *)
Definition rooftopScale : float := 0x1.6703afb7e91p-3.         (* 0.1753 *)

(** The filter of [isPointInShadow]: a hit is kept when its object has no
    name, or a name other than ['Sky']. *)
Definition validIntersect (intersect : THREE.Intersection THREE.Object3D) : bool :=
  match THREE.name (THREE.object intersect) with
  | None => true
  | Some n => if String.eqb n "" then true else negb (String.eqb n "Sky")
  end.

(** One sample of the loop of [isPointInShadow]: whether the jittered ray
    has a valid intersection. *)
Definition rayIsShadowed (scene : THREE.Scene) (point rayDirection : THREE.Vector3)
  : bool :=
  let intersects := THREE.intersectObject scene (THREE.mkRay point rayDirection) in
  let validIntersects := List.filter validIntersect intersects in
  (0 <? List.length validIntersects)%nat.

(** The [for] loop of [isPointInShadow], [i] samples left to take. *)
Fixpoint sampleRays (i : nat) (point direction : THREE.Vector3)
    (scene : THREE.Scene) (shadowedRays : float) (st : State) : float * State :=
  match i with
  | O => (shadowedRays, st)
  | S i' =>
      let '(r1, st) := Math_random st in
      let '(r2, st) := Math_random st in
      let '(r3, st) := Math_random st in
      let offset :=
        THREE.mkVector3 ((r1 - 0.5) * jitter) ((r2 - 0.5) * jitter)
                        ((r3 - 0.5) * jitter) in
      let rayDirection := THREE.normalize (THREE.add direction offset) in
      let shadowedRays :=
        if rayIsShadowed scene point rayDirection then shadowedRays + 1
        else shadowedRays in
      sampleRays i' point direction scene shadowedRays st
  end.

Definition isPointInShadow (point : THREE.Vector3)
    (light : THREE.DirectionalLight) (scene : THREE.Scene) (numRays : nat)
    (st : State) : float * State :=
  let direction :=
    THREE.normalize (THREE.subVectors (THREE.position light) point) in
  let '(shadowedRays, st) := sampleRays numRays point direction scene 0 st in
  let shadowFraction := shadowedRays / JS.of_nat numRays in
  (shadowFraction, st).

(** The default of the [numRays] parameter. *)
Definition numRays_default : nat := 50.

(** The running totals of the face loop of [calculateRooftopArea]. *)
Record Totals := mkTotals {
  totalRooftopArea : float;
  totalVerticalArea : float;
  totalShadowFractionRooftop : float;
  totalShadowFractionVertical : float;
  bipvValues : list BipvValue
}.

Definition Totals_initial : Totals := mkTotals 0 0 0 0 [].

(** [new Vector3(vertices[i * 3], vertices[i * 3 + 1], vertices[i * 3 + 2])]:
    a read outside the buffer is [undefined], which the constructor's default
    arguments turn into [0]. *)
Definition vertexAt (vertices : list float) (i : option nat) : THREE.Vector3 :=
  match i with
  | Some i =>
      THREE.mkVector3 (nth (i * 3) vertices 0) (nth (i * 3 + 1) vertices 0)
                      (nth (i * 3 + 2) vertices 0)
  | None => THREE.mkVector3 0 0 0
  end.

(** [updateInfoCard]. *)
Definition updateInfoCard (buildingName : string)
    (totalDaytime totalArea totalRooftopArea totalShadowFraction
     averageShadowFractionRooftop totalPVValue pvValueRooftop : float)
    (st : State) : State :=
  let st := write_innerText "buildingName" (Plain buildingName) st in
  let st := write_innerText "totalDaytime"
              (Fixed2 "Total Daytime: " totalDaytime " hours") st in
  let st := write_innerText "totalArea"
              (Fixed2 "Total Area (Rooftop + Vertical): " totalArea " sq.m") st in
  let st := write_innerText "rooftopArea"
              (Fixed2 "Rooftop Area: " totalRooftopArea " sq.m") st in
  let st := write_innerText "shadowFraction"
              (Fixed2 "Average Shadow Fraction Over Total Area: "
                      totalShadowFraction "") st in
  let st := write_innerText "shadowFractionRooftop"
              (Fixed2 "Rooftop Shadow Fraction: " averageShadowFractionRooftop "") st in
  let st := write_innerText "pvValue"
              (Fixed2 "Total PV Value: " totalPVValue " kWhr") st in
  let st := write_innerText "pvValueRooftop"
              (Fixed2 "PV Value (Rooftop): " pvValueRooftop " kWhr") st in
  write_display "infoCard" "block" st.

Section Env.

Variable Math_acos : float -> float.
Variable parseFloat : string -> float.
Variable SunCalc_getTimes : string -> float -> float -> float * float.

(** The inner function [isVertical] of [calculateRooftopArea]. *)
Definition isVertical (normal : THREE.Vector3) : bool :=
  let vertical := THREE.normalize (THREE.mkVector3 0 1 0) in
  let normal := THREE.normalize normal in
  let angle := THREE.angleTo Math_acos normal vertical in
  let tolerance := JS.Math_PI / 180 in
  JS.Math_abs (angle - JS.Math_PI / 2) <? tolerance.

(** The body of the face loop for the triangle [(a, b, c)]. *)
Definition faceStep (GHI : float) (vertices : list float)
    (light : THREE.DirectionalLight) (scene : THREE.Scene)
    (a b c : option nat) (t : Totals) (st : State) : Totals * State :=
  let v1 := vertexAt vertices a in
  let v2 := vertexAt vertices b in
  let v3 := vertexAt vertices c in
  let triangleArea := THREE.Triangle_getArea v1 v2 v3 in
  let centroid :=
    THREE.divideScalar
      (THREE.add (THREE.add (THREE.add (THREE.mkVector3 0 0 0) v1) v2) v3) 3 in
  let normal :=
    THREE.normalize
      (THREE.crossVectors (THREE.subVectors v2 v1) (THREE.subVectors v3 v1)) in
  let '(shadowFraction, st) :=
    isPointInShadow centroid light scene numRays_default st in
  if isVertical normal then
    let bipvValue := GHI * triangleArea * (1 - shadowFraction) * efficiencyFactor in
    (mkTotals (totalRooftopArea t)
              (totalVerticalArea t + triangleArea)
              (totalShadowFractionRooftop t)
              (totalShadowFractionVertical t + shadowFraction * triangleArea)
              (bipvValues t ++ [mkBipvValue a b c bipvValue Vertical]),
     st)
  else
    let bipvValue := GHI * triangleArea * (1 - shadowFraction) * efficiencyFactor in
    (mkTotals (totalRooftopArea t + triangleArea)
              (totalVerticalArea t)
              (totalShadowFractionRooftop t + shadowFraction * triangleArea)
              (totalShadowFractionVertical t)
              (bipvValues t ++ [mkBipvValue a b c bipvValue Rooftop]),
     st).

(** [for (let i = 0; i < indices.length; i += 3)]: the indices are taken
    three at a time; a last group of one or two reads [undefined] for the
    missing ones. *)
Fixpoint faceLoop (GHI : float) (vertices : list float)
    (light : THREE.DirectionalLight) (scene : THREE.Scene)
    (indices : list nat) (t : Totals) (st : State) : Totals * State :=
  match indices with
  | [] => (t, st)
  | [a] => faceStep GHI vertices light scene (Some a) None None t st
  | [a; b] => faceStep GHI vertices light scene (Some a) (Some b) None t st
  | a :: b :: c :: rest =>
      let '(t, st) :=
        faceStep GHI vertices light scene (Some a) (Some b) (Some c) t st in
      faceLoop GHI vertices light scene rest t st
  end.

(** The aggregates computed after the loop, in the order in which they are
    handed to [updateInfoCard]: total area, rooftop area, total shadow
    fraction, rooftop shadow fraction, total PV value, rooftop PV value. *)
Record Aggregates := mkAggregates {
  totalArea : float;
  rooftopArea : float;
  totalShadowFraction : float;
  averageShadowFractionRooftop : float;
  totalPVValue : float;
  pvValueRooftop : float
}.

Definition aggregate (GHI : float) (t : Totals) : Aggregates :=
  let totalArea := totalRooftopArea t + totalVerticalArea t in
  let totalShadowFraction :=
    (totalShadowFractionRooftop t + totalShadowFractionVertical t) / totalArea in
  let totalPVValue := GHI * totalArea * (1 - totalShadowFraction) * efficiencyFactor in
  let averageShadowFractionRooftop := totalShadowFraction * rooftopScale in
  let pvValueRooftop :=
    GHI * totalRooftopArea t * (1 - averageShadowFractionRooftop) * efficiencyFactor in
  mkAggregates totalArea (totalRooftopArea t) totalShadowFraction
               averageShadowFractionRooftop totalPVValue pvValueRooftop.

(** [building.name || 'Unknown Building']. *)
Definition displayName (building : THREE.Mesh) : string :=
  match THREE.name (THREE.mesh_object building) with
  | None => "Unknown Building"
  | Some n => if String.eqb n "" then "Unknown Building" else n
  end.

(** [calculateRooftopArea]: the value returned and the state left behind. *)
Definition calculateRooftopArea (building : THREE.Mesh)
    (light : THREE.DirectionalLight) (scene : THREE.Scene) (st : State)
  : Outcome (list BipvValue) * State :=
  match getElementById "ghi" st, getElementById "dateInput" st with
  | Some ghiElement, Some dateInputElement =>
      let GHI :=
        parseFloat (if String.eqb (value ghiElement) "" then "5.5"
                    else value ghiElement) in
      let dateInput := value dateInputElement in
      let totalDaytime := sunPosition.getTotalDaytime SunCalc_getTimes dateInput in
      let geometry := THREE.geometry building in
      let vertices := THREE.position_array geometry in
      match THREE.index geometry with
      | None => (Returned [], console_error "Geometry must have an index" st)
      | Some indices =>
          let '(t, st) :=
            faceLoop GHI vertices light scene indices Totals_initial st in
          let ag := aggregate GHI t in
          let st :=
            updateInfoCard (displayName building) totalDaytime (totalArea ag)
                           (rooftopArea ag) (totalShadowFraction ag)
                           (averageShadowFractionRooftop ag) (totalPVValue ag)
                           (pvValueRooftop ag) st in
          (Returned (bipvValues t), st)
      end
  | _, _ => (Threw "TypeError", st)
  end.

End Env.

End shadowCalculate.

(** ** buildingUtils.ts *)

Module buildingUtils.
Import Browser.
Local Open Scope float_scope.

(** The module-level variables: the [originalMaterials] map and the
    [highlightedBuilding] slot.  A mesh is named by its place in the
    [buildings] array. *)
Record Globals := mkGlobals {
  originalMaterials : gmap nat THREE.MaterialSlot;
  highlightedBuilding : option nat
}.

Definition Globals_initial : Globals := mkGlobals ∅ None.

Definition set_material (m : THREE.MaterialSlot) (building : THREE.Mesh)
  : THREE.Mesh :=
  THREE.mkMesh (THREE.mesh_object building) (THREE.geometry building) m.

Definition set_color_attribute (colors : list float) (building : THREE.Mesh)
  : THREE.Mesh :=
  let geo := THREE.geometry building in
  THREE.mkMesh (THREE.mesh_object building)
    (THREE.mkBufferGeometry (THREE.position_array geo) (THREE.index geo)
                            (Some colors))
    (THREE.material building).

(** [highlightBuilding]: the material of the mesh is saved unless one is
    saved already, and a new highlight material is made for it. *)
Definition highlightBuilding (i : nat) (buildings : list THREE.Mesh)
    (gl : Globals) (st : State) : list THREE.Mesh * Globals * State :=
  match buildings !! i with
  | None => (buildings, gl, st)
  | Some building =>
      let originals :=
        match originalMaterials gl !! i with
        | Some _ => originalMaterials gl
        | None => <[i := THREE.material building]> (originalMaterials gl)
        end in
      let '(highlight, st) := THREE.new_MeshStandardMaterial 0xffff00 st in
      (<[i := set_material highlight building]> buildings,
       mkGlobals originals (highlightedBuilding gl), st)
  end.

(** [revertHighlight]. *)
Definition revertHighlight (i : nat) (buildings : list THREE.Mesh)
    (gl : Globals) : list THREE.Mesh * Globals :=
  match buildings !! i, originalMaterials gl !! i with
  | Some building, Some m =>
      (<[i := set_material m building]> buildings,
       mkGlobals (delete i (originalMaterials gl)) (highlightedBuilding gl))
  | _, _ => (buildings, gl)
  end.

(** [colors[i * 3] = r; colors[i * 3 + 1] = g; colors[i * 3 + 2] = b] on
    the [Float32Array]: every channel is rounded to single precision as it is
    stored, and a write outside the typed array, or at an [undefined] index,
    is lost. *)
Definition paintVertex (i : option nat) (col : THREE.Color) (colors : list float)
  : list float :=
  match i with
  | Some i =>
      <[(i * 3 + 2)%nat := JS.fround (THREE.b col)]>
        (<[(i * 3 + 1)%nat := JS.fround (THREE.g col)]>
           (<[(i * 3)%nat := JS.fround (THREE.r col)]> colors))
  | None => colors
  end.

Section Env.

Variable Math_acos : float -> float.
Variable parseFloat : string -> float.
Variable SunCalc_getTimes : string -> float -> float -> float * float.
Variable toWorking : float -> float.

(** The number of arguments the engine takes in the calls of
    [onBuildingClick] that spread an array. *)
Variable argumentLimit : nat.

(** [getColorForValue]. *)
Definition getColorForValue (value min max : float) : THREE.Color :=
  let ratio := (value - min) / (max - min) in
  let startColor := THREE.Color_ofHex toWorking 0xffa500 in
  let endColor := THREE.Color_ofHex toWorking 0xff4500 in
  THREE.lerp startColor endColor ratio.

(** The [forEach] of [onBuildingClick] over the per-face values. *)
Definition paintFaces (bipvValues : list shadowCalculate.BipvValue)
    (minBipv maxBipv : float) (colors : list float) : list float :=
  fold_left
    (fun colors v =>
       let color := getColorForValue (shadowCalculate.bipvValue v) minBipv maxBipv in
       paintVertex (shadowCalculate.c v) color
         (paintVertex (shadowCalculate.b v) color
            (paintVertex (shadowCalculate.a v) color colors)))
    bipvValues colors.

(** What [onBuildingClick] does once [bipvValues] is known: the smallest
    and the largest value are taken by spreading the values into [Math.min]
    and [Math.max], which throws when there are too many of them; then the
    colour buffer is filled and attached, and vertex colours are switched
    on. *)
Definition colorBuilding (bipvValues : list shadowCalculate.BipvValue)
    (building : THREE.Mesh) : Outcome THREE.Mesh :=
  let geometry := THREE.geometry building in
  let colors := replicate (THREE.position_count geometry * 3) 0 in
  match spread argumentLimit JS.Math_min_list
               (map shadowCalculate.bipvValue bipvValues) with
  | Threw e => Threw e
  | Returned minBipv =>
      match spread argumentLimit JS.Math_max_list
                   (map shadowCalculate.bipvValue bipvValues) with
      | Threw e => Threw e
      | Returned maxBipv =>
          let colors := paintFaces bipvValues minBipv maxBipv colors in
          let building := set_color_attribute colors building in
          Returned
            match THREE.material building with
            | THREE.Single m =>
                set_material
                  (THREE.Single (THREE.mkMaterial (THREE.color m) true true))
                  building
            | THREE.Multi _ => building
            end
      end
  end.

(** [onBuildingClick]; [pick] is the ray [raycaster.setFromCamera] derives
    from the mouse event and the camera. *)
Definition onBuildingClick (pick : THREE.Ray) (buildings : list THREE.Mesh)
    (light : THREE.DirectionalLight) (scene : THREE.Scene)
    (gl : Globals) (st : State)
  : Outcome unit * list THREE.Mesh * Globals * State :=
  let intersects :=
    THREE.intersectObjects (fun im => THREE.mesh_object (snd im))
                           (imap (fun i m => (i, m)) buildings) pick in
  match intersects with
  | [] => (Returned tt, buildings, gl, st)
  | first :: _ =>
      let i := fst (THREE.object first) in
      let '(buildings, gl) :=
        match highlightedBuilding gl with
        | Some h => revertHighlight h buildings gl
        | None => (buildings, gl)
        end in
      let '(buildings, gl, st) := highlightBuilding i buildings gl st in
      let gl := mkGlobals (originalMaterials gl) (Some i) in
      match buildings !! i with
      | None =>
          (* not reached: the picked mesh is one of [buildings] *)
          (Threw "TypeError", buildings, gl, st)
      | Some building =>
          match shadowCalculate.calculateRooftopArea Math_acos parseFloat
                  SunCalc_getTimes building light scene st with
          | (Threw e, st) => (Threw e, buildings, gl, st)
          | (Returned bipvValues, st) =>
              match colorBuilding bipvValues building with
              | Threw e => (Threw e, buildings, gl, st)
              | Returned coloured =>
                  (Returned tt, <[i := coloured]> buildings, gl, st)
              end
          end
      end
  end.

End Env.









End buildingUtils.

(** ** The estimator as the specification words it

    The specification describes one pass over the triangles of the mesh:
    area, centroid and class of every face, its shadow fraction sampled from
    the centroid, and sums weighted by area.  These definitions follow that
    wording; the theorems below compare them with the loop of the code. *)

Module Reference.
Import Browser.
Local Open Scope float_scope.

Abbreviation Face := (option nat * option nat * option nat)%type.

(** The triangles of an index buffer. *)
Fixpoint triangles (indices : list nat) : list Face :=
  match indices with
  | [] => []
  | [a] => [(Some a, None, None)]
  | [a; b] => [(Some a, Some b, None)]
  | a :: b :: c :: rest => (Some a, Some b, Some c) :: triangles rest
  end.

Definition corners (vertices : list float) (f : Face)
  : THREE.Vector3 * THREE.Vector3 * THREE.Vector3 :=
  let '(a, b, c) := f in
  (shadowCalculate.vertexAt vertices a, shadowCalculate.vertexAt vertices b,
   shadowCalculate.vertexAt vertices c).

Definition faceArea (vertices : list float) (f : Face) : float :=
  let '(v1, v2, v3) := corners vertices f in
  THREE.Triangle_getArea v1 v2 v3.

Definition faceCentroid (vertices : list float) (f : Face) : THREE.Vector3 :=
  let '(v1, v2, v3) := corners vertices f in
  THREE.divideScalar
    (THREE.add (THREE.add (THREE.add (THREE.mkVector3 0 0 0) v1) v2) v3) 3.

Definition faceNormal (vertices : list float) (f : Face) : THREE.Vector3 :=
  let '(v1, v2, v3) := corners vertices f in
  THREE.normalize
    (THREE.crossVectors (THREE.subVectors v2 v1) (THREE.subVectors v3 v1)).

(** What one pass knows of a face. *)
Record FaceDatum := mkFaceDatum {
  face : Face;
  class : shadowCalculate.FaceType;
  area : float;
  shadow : float
}.

Definition classifyFace (Math_acos : float -> float) (normal : THREE.Vector3)
  : shadowCalculate.FaceType :=
  if shadowCalculate.isVertical Math_acos normal then shadowCalculate.Vertical
  else shadowCalculate.Rooftop.

(** One classification and estimation pass: the faces in buffer order, each
    with its shadow fraction sampled from its centroid. *)
Definition faceDatum (Math_acos : float -> float) (vertices : list float)
    (light : THREE.DirectionalLight) (scene : THREE.Scene)
    (f : Face) (st : State) : FaceDatum * State :=
  let '(shadowFraction, st) :=
    shadowCalculate.isPointInShadow (faceCentroid vertices f) light scene
      shadowCalculate.numRays_default st in
  (mkFaceDatum f (classifyFace Math_acos (faceNormal vertices f))
               (faceArea vertices f) shadowFraction, st).

Fixpoint facePass (Math_acos : float -> float) (vertices : list float)
    (light : THREE.DirectionalLight) (scene : THREE.Scene)
    (faces : list Face) (st : State) : list FaceDatum * State :=
  match faces with
  | [] => ([], st)
  | f :: faces' =>
      let '(d, st) := faceDatum Math_acos vertices light scene f st in
      let '(ds, st) := facePass Math_acos vertices light scene faces' st in
      (d :: ds, st)
  end.

(** The per-face PV value of the specification. *)
Definition pvValue (ghi : float) (d : FaceDatum) : float :=
  ghi * area d * (1 - shadow d) * shadowCalculate.efficiencyFactor.

Definition is_class (ty : shadowCalculate.FaceType) (d : FaceDatum) : bool :=
  match ty, class d with
  | shadowCalculate.Rooftop, shadowCalculate.Rooftop => true
  | shadowCalculate.Vertical, shadowCalculate.Vertical => true
  | _, _ => false
  end.

(** The sum of [w] over the faces of class [ty], added up in buffer order. *)
Definition sumOver (ty : shadowCalculate.FaceType) (w : FaceDatum -> float)
    (ds : list FaceDatum) : float :=
  fold_left (fun acc d => if is_class ty d then acc + w d else acc) ds 0.

Definition weightedShadow (d : FaceDatum) : float := shadow d * area d.

(** The area-weighted shadow fraction of one class. *)
Definition classShadowFraction (ty : shadowCalculate.FaceType)
    (ds : list FaceDatum) : float :=
  sumOver ty weightedShadow ds / sumOver ty area ds.

(** The area-weighted shadow fraction of the whole mesh. *)
Definition meshShadowFraction (ds : list FaceDatum) : float :=
  (sumOver shadowCalculate.Rooftop weightedShadow ds
   + sumOver shadowCalculate.Vertical weightedShadow ds)
  / (sumOver shadowCalculate.Rooftop area ds
     + sumOver shadowCalculate.Vertical area ds).

Definition meshArea (ds : list FaceDatum) : float :=
  sumOver shadowCalculate.Rooftop area ds
  + sumOver shadowCalculate.Vertical area ds.


(** The text of a document element, if the element exists. *)
Definition reported (id : string) (st : State) : option Text :=
  innerText <$> getElementById id st.

(** The entry the code keeps for a face: its indices, its PV value and
    its class. *)
Definition entry (ghi : float) (d : FaceDatum) : shadowCalculate.BipvValue :=
  let '(a, b, c) := face d in
  shadowCalculate.mkBipvValue a b c (pvValue ghi d) (class d).

(** The running totals of the code once the face [d] is taken in. *)
Definition addFace (ghi : float) (t : shadowCalculate.Totals) (d : FaceDatum)
  : shadowCalculate.Totals :=
  match class d with
  | shadowCalculate.Vertical =>
      shadowCalculate.mkTotals
        (shadowCalculate.totalRooftopArea t)
        (shadowCalculate.totalVerticalArea t + area d)
        (shadowCalculate.totalShadowFractionRooftop t)
        (shadowCalculate.totalShadowFractionVertical t + weightedShadow d)
        (shadowCalculate.bipvValues t ++ [entry ghi d])
  | shadowCalculate.Rooftop =>
      shadowCalculate.mkTotals
        (shadowCalculate.totalRooftopArea t + area d)
        (shadowCalculate.totalVerticalArea t)
        (shadowCalculate.totalShadowFractionRooftop t + weightedShadow d)
        (shadowCalculate.totalShadowFractionVertical t)
        (shadowCalculate.bipvValues t ++ [entry ghi d])
  end.

(** The state once [n] more random numbers have been drawn. *)
Definition afterDraws (n : nat) (st : State) : State :=
  mkState (document st) (console st) (alerts st) (randoms st) (drawn st + n).

(** The random numbers one face consumes: three for each of fifty rays. *)
Definition drawsPerFace : nat := 3 * shadowCalculate.numRays_default.

(** The shadow fraction sampled for the face [f], the [k]-th of the pass:
    the faces before it have drawn their random numbers. *)
Definition shadowAt (vertices : list float) (light : THREE.DirectionalLight)
    (scene : THREE.Scene) (st : State) (k : nat) (f : Face) : float :=
  fst (shadowCalculate.isPointInShadow (faceCentroid vertices f) light
         scene shadowCalculate.numRays_default
         (afterDraws (drawsPerFace * k) st)).

(** [ghiElement.value || "5.5"], parsed. *)
Definition ghiOf (parseFloat : string -> float) (ghiElement : Element) : float :=
  parseFloat (if String.eqb (value ghiElement) "" then "5.5" else value ghiElement).

End Reference.

(** ** Sample environments, scenes and meshes

    Concrete inputs on which the definitions are evaluated. *)

Module Samples.
Import Browser.
Local Open Scope float_scope.

(** [Math.acos] on the cosines that axis-aligned unit normals produce. *)
Definition acos_axis (v : float) : float :=
  if v =? 1 then 0
  else if v =? 0 then JS.Math_PI / 2
  else if v =? -1 then JS.Math_PI
  else nan.

(** Truncated series for [Math.cos] and [Math.sin]. *)
Definition cos_series (v : float) : float :=
  1 - v * v / 2 + v * v * v * v / 24 - v * v * v * v * v * v / 720.

Definition sin_series (v : float) : float :=
  v - v * v * v / 6 + v * v * v * v * v / 120 - v * v * v * v * v * v * v / 5040.

(** [parseFloat] and [parseInt] on the input values used below; any other
    string is read as [NaN]. *)
Definition parseFloat (s : string) : float :=
  if String.eqb s "5.5" then 0x1.6p+2
  else if String.eqb s "1" then 1
  else nan.

Definition parseInt (s : string) : option Z :=
  if String.eqb s "0" then Some 0%Z
  else if String.eqb s "720" then Some 720%Z
  else None.

(** An ephemeris that knows one day: sunrise at 06:00 and sunset at 18:00
    (in milliseconds), the sun high at noon and below the horizon at
    midnight; any other date string is an invalid date, for which SunCalc
    answers [NaN]. *)
Definition SunCalc_getTimes (date : string) (lat lng : float) : float * float :=
  (21600000, 64800000).

Definition SunCalc_getPosition (date : string) (lat lng : float)
  : sunPosition.SunPosition :=
  if String.eqb date "2024-06-21T12:00" then sunPosition.mkSunPosition 0 1
  else if String.eqb date "2024-06-21T00:00" then sunPosition.mkSunPosition 0 (-1)
  else sunPosition.mkSunPosition nan nan.

(** Colour management switched off. *)
Definition toWorking (v : float) : float := v.

(** An engine that takes 65536 arguments. *)
Definition argumentLimit : nat := (2 ^ 16)%nat.

Definition input (v : string) : Element := mkElement v (Plain "") "".

Definition page (date time : string) : gmap string Element :=
  list_to_map
    [("dateInput", input date); ("timeSlider", input time); ("ghi", input "5.5");
     ("infoCard", input ""); ("buildingName", input "");
     ("totalDaytime", input ""); ("totalArea", input "");
     ("rooftopArea", input ""); ("shadowFraction", input "");
     ("shadowFractionRooftop", input ""); ("pvValue", input "");
     ("pvValueRooftop", input "")].

(** [Math.random] always answers [0.5]: the rays are not jittered. *)
Definition state (date time : string) : State :=
  mkState (page date time) [] [] (fun _ => 0x1p-1) 0.

Definition noon : State := state "2024-06-21" "720".
Definition midnight : State := state "2024-06-21" "0".
Definition no_date : State := state "" "720".
Definition bad_date : State := state "yesterday" "720".

(** The sky dome, met by every ray, and a canopy at height 10 met by every
    ray that rises from below it; the canopy has no name. *)
Definition sky : THREE.Object3D :=
  THREE.mkObject3D (Some "Sky") (fun _ => [225000]).

Definition canopy : THREE.Object3D :=
  THREE.mkObject3D None
    (fun ray =>
       if (THREE.y (THREE.origin ray) <? 10) && (0 <? THREE.y (THREE.direction ray))
       then [(10 - THREE.y (THREE.origin ray)) / THREE.y (THREE.direction ray)]
       else []).

Definition open_scene : THREE.Scene := [sky].
Definition covered_scene : THREE.Scene := [sky; canopy].

(** A mesh that no sample ray meets, with a white material. *)
Definition mesh (nm : string) (vertices : list float) (index : option (list nat))
  : THREE.Mesh :=
  THREE.mkMesh (THREE.mkObject3D (Some nm) (fun _ => []))
               (THREE.mkBufferGeometry vertices index None)
               (THREE.MeshStandardMaterial 0xffffff).

(** A mesh met by every ray, at distance 100. *)
Definition target (nm : string) (vertices : list float) (index : option (list nat))
  : THREE.Mesh :=
  THREE.mkMesh (THREE.mkObject3D (Some nm) (fun _ => [100]))
               (THREE.mkBufferGeometry vertices index None)
               (THREE.MeshStandardMaterial 0xffffff).

Definition square : list float := [0; 0; 0;  0; 0; 2;  2; 0; 2;  2; 0; 0].

(** A flat horizontal square of area 4 facing up, as two triangles. *)
Definition flat_roof : THREE.Mesh := mesh "Roof" square (Some [0; 1; 2; 0; 2; 3]%nat).

(** The same square facing down. *)
Definition soffit : THREE.Mesh := mesh "Soffit" square (Some [0; 2; 1; 0; 3; 2]%nat).


(** A mesh without an index buffer. *)
Definition soup : THREE.Mesh := target "Soup" square None.

Definition sun_high : THREE.DirectionalLight :=
  THREE.mkDirectionalLight (THREE.mkVector3 0 1500 0)
                           (Some (THREE.mkVector3 0 0 0)) 5.

Definition sun_start : THREE.DirectionalLight :=
  THREE.mkDirectionalLight (THREE.mkVector3 (-1500) 200 100)
                           (Some (THREE.mkVector3 0 0 0)) 5.

Definition estimate (building : THREE.Mesh) (light : THREE.DirectionalLight)
    (scene : THREE.Scene) (st : State) :=
  shadowCalculate.calculateRooftopArea acos_axis parseFloat SunCalc_getTimes
    building light scene st.

Definition update (light : THREE.DirectionalLight) (st : State) :=
  sunPosition.updateSunPosition cos_series sin_series parseInt
    SunCalc_getPosition light sunPosition.sunPosition_initial st.

Definition click (buildings : list THREE.Mesh) (scene : THREE.Scene) (st : State) :=
  buildingUtils.onBuildingClick acos_axis parseFloat SunCalc_getTimes toWorking
    argumentLimit (THREE.mkRay (THREE.mkVector3 0 100 500) (THREE.mkVector3 0 0 (-1)))
    buildings sun_high scene buildingUtils.Globals_initial st.

(** The light once [updateSunPosition] has run at midnight, and after a
    date that is not a date. *)
Definition night_light : THREE.DirectionalLight :=
  snd (fst (fst (update sun_start midnight))).

Definition stray_light : THREE.DirectionalLight :=
  snd (fst (fst (update sun_start bad_date))).

(** The meshes after a click that picks [soup]. *)
Definition clicked : list THREE.Mesh :=
  snd (fst (fst (click [flat_roof; soup] open_scene noon))).

End Samples.

(** ** Notions used to state further properties *)

Module Notions.
Import Browser.
Local Open Scope float_scope.

(** No object of the scene other than the sky is ever met by a ray. *)
Definition open_sky (scene : list THREE.Object3D) : Prop :=
  forall o, In o scene ->
    THREE.name o = Some "Sky" \/ forall ray, THREE.raycast o ray = [].

(** Some object of the scene other than the sky is met by every ray. *)
Definition enclosed (scene : list THREE.Object3D) : Prop :=
  exists o, In o scene /\ THREE.name o <> Some "Sky"
            /\ forall ray, THREE.raycast o ray <> [].

(** The selection state is coherent: a mesh has a saved original material
    only while it is the highlighted one, and the highlighted mesh is a mesh
    of the array. *)
Definition selection_ok (buildings : list THREE.Mesh)
    (gl : buildingUtils.Globals) : Prop :=
  (forall j, is_Some (buildingUtils.originalMaterials gl !! j) ->
             buildingUtils.highlightedBuilding gl = Some j)
  /\ (forall h, buildingUtils.highlightedBuilding gl = Some h ->
                (h < List.length buildings)%nat).

(** The first half of [onBuildingClick] once the mesh [i] is picked: the
    previous highlight is reverted, the mesh is highlighted and recorded as
    the highlighted one. *)
Definition revertPrevious (buildings : list THREE.Mesh)
    (gl : buildingUtils.Globals) : list THREE.Mesh * buildingUtils.Globals :=
  match buildingUtils.highlightedBuilding gl with
  | Some h => buildingUtils.revertHighlight h buildings gl
  | None => (buildings, gl)
  end.

Definition selectBuilding (i : nat) (buildings : list THREE.Mesh)
    (gl : buildingUtils.Globals) (st : State)
  : list THREE.Mesh * buildingUtils.Globals * State :=
  let '(buildings, gl) := revertPrevious buildings gl in
  let '(buildings, gl, st) := buildingUtils.highlightBuilding i buildings gl st in
  (buildings, buildingUtils.mkGlobals (buildingUtils.originalMaterials gl) (Some i),
   st).

(** Whether the entry [v] names the vertex [vtx]. *)
Definition uses_vertex (vtx : nat) (v : shadowCalculate.BipvValue) : Prop :=
  shadowCalculate.a v = Some vtx \/ shadowCalculate.b v = Some vtx
  \/ shadowCalculate.c v = Some vtx.

(** Painting one face: the three writes of the [forEach] body. *)
Definition paintFace (col : THREE.Color) (v : shadowCalculate.BipvValue)
    (colors : list float) : list float :=
  buildingUtils.paintVertex (shadowCalculate.c v) col
    (buildingUtils.paintVertex (shadowCalculate.b v) col
       (buildingUtils.paintVertex (shadowCalculate.a v) col colors)).

(** The channel [k] (0, 1 or 2) of a colour. *)
Definition channel (k : nat) (col : THREE.Color) : float :=
  match k with
  | 0%nat => THREE.r col
  | 1%nat => THREE.g col
  | _ => THREE.b col
  end.

(** A number below 100 as two decimal digits. *)
Definition digit (n : Z) : Ascii.ascii := Ascii.ascii_of_nat (48 + Z.to_nat n).

Definition twoDigits (n : Z) : string :=
  String (digit (n / 10)) (String (digit (n mod 10)) EmptyString).


(** Two numbers that are the same number: they are equal, or both are a
    zero, of either sign. *)
Definition same_number (u v : float) : Prop :=
  u = v \/ ((u =? 0) = true /\ (v =? 0) = true).

End Notions.

(** ** More samples *)

Module MoreSamples.
Import Browser.
Local Open Scope float_scope.

(** A dome without a name, met by every ray. *)
Definition dome : THREE.Object3D := THREE.mkObject3D None (fun _ => [1000]).

Definition domed_scene : THREE.Scene := [Samples.sky; dome].


(** A pick ray, and a click with it on a state of the selection. *)
Definition pick : THREE.Ray :=
  THREE.mkRay (THREE.mkVector3 0 100 500) (THREE.mkVector3 0 0 (-1)).

Definition click (buildings : list THREE.Mesh) (gl : buildingUtils.Globals)
    (st : State) :=
  buildingUtils.onBuildingClick Samples.acos_axis Samples.parseFloat
    Samples.SunCalc_getTimes Samples.toWorking Samples.argumentLimit pick
    buildings Samples.sun_high
    Samples.open_scene gl st.

(** An indexed mesh met by every ray, at distance [d]. *)
Definition solid (nm : string) (d : float) (vertices : list float)
    (index : list nat) : THREE.Mesh :=
  THREE.mkMesh (THREE.mkObject3D (Some nm) (fun _ => [d]))
               (THREE.mkBufferGeometry vertices (Some index) None)
               (THREE.MeshStandardMaterial 0xffffff).

Definition near_block : THREE.Mesh :=
  solid "Near" 50 Samples.square [0; 1; 2; 0; 2; 3]%nat.

Definition far_block : THREE.Mesh :=
  solid "Far" 80 Samples.square [0; 1; 2]%nat.

(** An indexed mesh without any triangle, and one whose first index names
    no vertex. *)
Definition hollow : THREE.Mesh := Samples.mesh "Hollow" Samples.square (Some []).


(** Two entries with the same PV value. *)
Definition twins : list shadowCalculate.BipvValue :=
  [shadowCalculate.mkBipvValue (Some 0%nat) (Some 1%nat) (Some 2%nat) 2
     shadowCalculate.Rooftop;
   shadowCalculate.mkBipvValue (Some 0%nat) (Some 2%nat) (Some 3%nat) 2
     shadowCalculate.Rooftop].

(** The far block with the highlight material on, and the two blocks
    while the far one is highlighted. *)
Definition far_highlighted : THREE.Mesh :=
  buildingUtils.set_material (THREE.MeshStandardMaterial 0xffff00) far_block.

Definition blocks : list THREE.Mesh := [near_block; far_highlighted].

(** The selection after a click that picked the second of two meshes. *)
Definition far_selected : buildingUtils.Globals :=
  buildingUtils.mkGlobals
    {[ 1%nat := THREE.MeshStandardMaterial 0xffffff ]} (Some 1%nat).

End MoreSamples.

(** ** Binary64 numbers as real numbers

    The real number a finite binary64 value stands for, and the relation
    between a real and its rounding to nearest, ties to even, both read off
    [SpecFloat], the specification of the primitive floats.  They state the
    properties of the code that are about magnitudes: bounds, tolerances,
    order. *)

Module Exact.
Local Open Scope R_scope.

(** The power of two of exponent [e]. *)
Definition bpow (e : Z) : R := powerRZ 2 e.

(** The number a finite binary64 value stands for, as a real; zero for the
    values that stand for no number. *)
Definition SF2R (f : spec_float) : R :=
  match f with
  | S754_finite s m e => IZR (cond_Zopp s (Zpos m)) * bpow e
  | _ => 0
  end.

Definition B2R (v : float) : R := SF2R (Prim2SF v).

(** Where a real lies between an integer and its successor. *)
Definition inbetween (m : Z) (l : location) (X : R) : Prop :=
  match l with
  | loc_Exact => X = IZR m
  | loc_Inexact Lt => IZR m < X < IZR m + / 2
  | loc_Inexact Eq => X = IZR m + / 2
  | loc_Inexact Gt => IZR m + / 2 < X < IZR m + 1
  end.

(** [f] is the binary64 rounding of the non-negative real [V]: the nearest
    multiple of the quantum of [V], ties to the even multiple. *)
Definition Rnd (V f : R) : Prop :=
  exists (e1 m2 : Z),
    f = IZR m2 * bpow e1
    /\ (-1074 <= e1)%Z
    /\ (0 <= m2)%Z
    /\ Rabs (IZR m2 - V * bpow (- e1)) <= / 2
    /\ (Rabs (IZR m2 - V * bpow (- e1)) = / 2 -> Z.even m2 = true)
    /\ V < bpow (e1 + 53)
    /\ ((-1074 < e1)%Z -> bpow (e1 + 52) <= V).

(** [r] is the value of sign [s] and magnitude [f]; it is a signed zero
    when [f] is zero. *)
Definition SFmag (r : spec_float) (s : bool) (f : R) : Prop :=
  (r = S754_zero s /\ f = 0)
  \/ exists m e, r = S754_finite s m e /\ f = IZR (Zpos m) * bpow e.

(** The binary64 rounding of a real of either sign. *)
Definition RND (V f : R) : Prop :=
  (0 <= V /\ Rnd V f) \/ (V <= 0 /\ Rnd (- V) (- f)).

(** The values that stand for a number. *)
Definition SFfinite (r : spec_float) : bool :=
  match r with
  | S754_zero _ | S754_finite _ _ _ => true
  | _ => false
  end.

(** The Euclidean norm of a vector of finite coordinates, as a real. *)
Definition norm (v : THREE.Vector3) : R :=
  sqrt (B2R (THREE.x v) * B2R (THREE.x v) + B2R (THREE.y v) * B2R (THREE.y v)
        + B2R (THREE.z v) * B2R (THREE.z v)).

End Exact.

(** * Properties *)

(** ** Rounding to binary64

    The operations of [SpecFloat] round the exact result: these lemmas
    relate [binary_round_aux] and the four operations to [Exact.RND], and
    the comparisons to the order of the reals. *)

Module Rounding.
Import Exact.
Local Open Scope R_scope.

Lemma bpow_pos (e : Z) : 0 < bpow e.
Proof. apply powerRZ_lt. lra. Qed.

Lemma bpow_add (a b : Z) : bpow (a + b) = bpow a * bpow b.
Proof. apply powerRZ_add. lra. Qed.

Lemma bpow_0 : bpow 0 = 1.
Proof. reflexivity. Qed.

Lemma bpow_1 : bpow 1 = 2.
Proof. unfold bpow. simpl. lra. Qed.

Lemma bpow_opp (a : Z) : bpow (- a) = / bpow a.
Proof. apply powerRZ_neg'. Qed.

Lemma bpow_cancel (a : Z) : bpow a * bpow (- a) = 1.
Proof. rewrite <- bpow_add, Z.add_opp_diag_r. reflexivity. Qed.

Lemma bpow_IZR (k : Z) : (0 <= k)%Z -> bpow k = IZR (2 ^ k).
Proof.
  intros Hk. unfold bpow. rewrite <- (Z2Nat.id k Hk), <- pow_powerRZ, pow_IZR.
  reflexivity.
Qed.

Lemma bpow_ge_1 (k : Z) : (0 <= k)%Z -> 1 <= bpow k.
Proof.
  intros Hk. rewrite (bpow_IZR k Hk). apply IZR_le.
  pose proof (Z.pow_pos_nonneg 2 k ltac:(lia) Hk). lia.
Qed.

Lemma bpow_le (a b : Z) : (a <= b)%Z -> bpow a <= bpow b.
Proof.
  intros H. replace b with (a + (b - a))%Z by lia. rewrite bpow_add.
  pose proof (bpow_pos a). pose proof (bpow_ge_1 (b - a) ltac:(lia)). nra.
Qed.

Lemma bpow_lt (a b : Z) : (a < b)%Z -> bpow a < bpow b.
Proof.
  intros H. replace b with (a + 1 + (b - a - 1))%Z by lia.
  rewrite !bpow_add, bpow_1.
  pose proof (bpow_pos a). pose proof (bpow_ge_1 (b - a - 1) ltac:(lia)). nra.
Qed.

Lemma bpow_lt_inv (a b : Z) : bpow a < bpow b -> (a < b)%Z.
Proof.
  intros H. destruct (Z_lt_le_dec a b) as [Hlt|Hle]; [exact Hlt|].
  pose proof (bpow_le b a Hle). lra.
Qed.

Lemma bpow_le_inv (a b : Z) : bpow a <= bpow b -> (a <= b)%Z.
Proof.
  intros H. destruct (Z_le_gt_dec a b) as [Hle|Hgt]; [exact Hle|].
  pose proof (bpow_lt b a ltac:(lia)). lra.
Qed.

(** The number of binary digits. *)
Lemma digits2_pos_spec (p : positive) :
  (2 ^ (Zpos (digits2_pos p) - 1) <= Zpos p < 2 ^ Zpos (digits2_pos p))%Z.
Proof.
  induction p as [p IH|p IH|]; cbn [digits2_pos].
  - rewrite Pos2Z.inj_succ. replace (Z.succ (Zpos (digits2_pos p)) - 1)%Z
      with (Z.succ (Zpos (digits2_pos p) - 1)) by lia.
    rewrite !Z.pow_succ_r by lia. lia.
  - rewrite Pos2Z.inj_succ. replace (Z.succ (Zpos (digits2_pos p)) - 1)%Z
      with (Z.succ (Zpos (digits2_pos p) - 1)) by lia.
    rewrite !Z.pow_succ_r by lia. lia.
  - simpl. lia.
Qed.

Lemma Zdigits2_nonneg (m : Z) : (0 <= Zdigits2 m)%Z.
Proof. destruct m; simpl; lia. Qed.

Lemma Zdigits2_upper (m : Z) : (0 <= m)%Z -> IZR m + 1 <= bpow (Zdigits2 m).
Proof.
  intros Hm. destruct m as [|p|p]; [cbn [Zdigits2]; rewrite bpow_0; lra| |lia].
  cbn [Zdigits2]. rewrite bpow_IZR by lia. rewrite <- plus_IZR. apply IZR_le.
  pose proof (digits2_pos_spec p). lia.
Qed.

Lemma Zdigits2_lower (p : positive) : bpow (Zdigits2 (Zpos p) - 1) <= IZR (Zpos p).
Proof.
  cbn [Zdigits2]. rewrite bpow_IZR by lia. apply IZR_le.
  apply (digits2_pos_spec p).
Qed.

Lemma Zdigits2_le (m k : Z) : (0 <= m < 2 ^ k)%Z -> (0 <= k)%Z -> (Zdigits2 m <= k)%Z.
Proof.
  intros Hm Hk. destruct m as [|p|p]; [simpl; lia| |lia].
  cbn [Zdigits2]. pose proof (digits2_pos_spec p) as [Hl _].
  destruct (Z_le_gt_dec (Zpos (digits2_pos p)) k) as [H|H]; [exact H|].
  assert (2 ^ k <= 2 ^ (Zpos (digits2_pos p) - 1))%Z by (apply Z.pow_le_mono_r; lia).
  lia.
Qed.


Lemma fexp_eq (x : Z) : fexp prec emax x = Z.max (x - 53) (-1074).
Proof. reflexivity. Qed.

Lemma inbetween_bounds (m : Z) (l : location) (X : R) :
  inbetween m l X -> IZR m <= X < IZR m + 1.
Proof. destruct l as [|[]]; unfold inbetween; lra. Qed.

Lemma record_of_loc (m : Z) (l : location) :
  loc_of_shr_record (shr_record_of_loc m l) = l
  /\ shr_m (shr_record_of_loc m l) = m.
Proof. destruct l as [|[]]; split; reflexivity. Qed.

(** One shift to the right halves the real that the record locates. *)
Lemma shr_1_inbetween (mrs : shr_record) (X : R) :
  (0 <= shr_m mrs)%Z ->
  inbetween (shr_m mrs) (loc_of_shr_record mrs) X ->
  (0 <= shr_m (shr_1 mrs))%Z
  /\ inbetween (shr_m (shr_1 mrs)) (loc_of_shr_record (shr_1 mrs)) (X * / 2).
Proof.
  destruct mrs as [m r s]. cbn [shr_m]. intros Hm H.
  destruct m as [|[p|p|]|p]; try lia.
  - destruct r, s; unfold inbetween, loc_of_shr_record, shr_1 in *;
      cbn [shr_m orb] in *; (split; [lia|lra]).
  - pose proof (IZR_POS_xI p) as Hp.
    destruct r, s; unfold inbetween, loc_of_shr_record, shr_1 in *;
      cbn [shr_m orb] in *; (split; [lia|lra]).
  - pose proof (IZR_POS_xO p) as Hp.
    destruct r, s; unfold inbetween, loc_of_shr_record, shr_1 in *;
      cbn [shr_m orb] in *; (split; [lia|lra]).
  - destruct r, s; unfold inbetween, loc_of_shr_record, shr_1 in *;
      cbn [shr_m orb] in *; (split; [lia|lra]).
Qed.

Lemma iter_pos_shr (X : R) (p : positive) :
  forall (k : Z) (mrs : shr_record),
    (0 <= shr_m mrs)%Z ->
    inbetween (shr_m mrs) (loc_of_shr_record mrs) (X * bpow (- k)) ->
    (0 <= shr_m (@SpecFloat.iter_pos shr_record shr_1 p mrs))%Z
    /\ inbetween (shr_m (@SpecFloat.iter_pos shr_record shr_1 p mrs))
         (loc_of_shr_record (@SpecFloat.iter_pos shr_record shr_1 p mrs)) (X * bpow (- (k + Zpos p))).
Proof.
  assert (Hstep : forall k mrs,
    (0 <= shr_m mrs)%Z ->
    inbetween (shr_m mrs) (loc_of_shr_record mrs) (X * bpow (- k)) ->
    (0 <= shr_m (shr_1 mrs))%Z
    /\ inbetween (shr_m (shr_1 mrs)) (loc_of_shr_record (shr_1 mrs))
         (X * bpow (- (k + 1)))).
  { intros k mrs Hm H. destruct (shr_1_inbetween mrs _ Hm H) as [H1 H2].
    split; [exact H1|].
    replace (X * bpow (- (k + 1))) with (X * bpow (- k) * / 2); [exact H2|].
    replace (- (k + 1))%Z with (- k + - (1))%Z by lia.
    rewrite bpow_add, (bpow_opp 1), bpow_1. ring. }
  induction p as [p IH|p IH|]; intros k mrs Hm H; cbn [SpecFloat.iter_pos].
  - destruct (Hstep k mrs Hm H) as [H1 H2].
    destruct (IH _ _ H1 H2) as [H3 H4]. destruct (IH _ _ H3 H4) as [H5 H6].
    split; [exact H5|].
    replace (k + Zpos p~1)%Z with (k + 1 + Zpos p + Zpos p)%Z by lia. exact H6.
  - destruct (IH _ _ Hm H) as [H3 H4]. destruct (IH _ _ H3 H4) as [H5 H6].
    split; [exact H5|].
    replace (k + Zpos p~0)%Z with (k + Zpos p + Zpos p)%Z by lia. exact H6.
  - apply Hstep; assumption.
Qed.

Lemma shr_fexp_spec (m e : Z) (l : location) (X : R) :
  (0 <= m)%Z -> inbetween m l X ->
  let result := shr_fexp prec emax m e l in
  snd result = Z.max e (fexp prec emax (Zdigits2 m + e))
  /\ (0 <= shr_m (fst result))%Z
  /\ inbetween (shr_m (fst result)) (loc_of_shr_record (fst result))
       (X * bpow (e - snd result))
  /\ ((fexp prec emax (Zdigits2 m + e) <= e)%Z ->
      fst result = shr_record_of_loc m l).
Proof.
  intros Hm H. cbv zeta. unfold shr_fexp, shr.
  destruct (record_of_loc m l) as [Hl Hr].
  destruct (fexp prec emax (Zdigits2 m + e) - e)%Z as [|p|p] eqn:E; cbn [fst snd].
  - split; [lia|]. rewrite Hl, Hr, Z.sub_diag, bpow_0, Rmult_1_r. auto.
  - destruct (iter_pos_shr X p 0 (shr_record_of_loc m l)) as [H1 H2].
    + rewrite Hr. exact Hm.
    + rewrite Hl, Hr. change (- 0)%Z with 0%Z. rewrite bpow_0, Rmult_1_r. exact H.
    + split; [lia|]. split; [exact H1|]. split; [|lia].
      replace (e - (e + Zpos p))%Z with (- (0 + Zpos p))%Z by lia. exact H2.
  - split; [lia|]. rewrite Hl, Hr, Z.sub_diag, bpow_0, Rmult_1_r. auto.
Qed.

Lemma round_nearest_even_spec (m : Z) (l : location) (Y : R) :
  inbetween m l Y ->
  let m2 := round_nearest_even m l in
  Rabs (IZR m2 - Y) <= / 2
  /\ (Rabs (IZR m2 - Y) = / 2 -> Z.even m2 = true)
  /\ (m <= m2 <= m + 1)%Z.
Proof.
  intros H. cbv zeta. destruct l as [|[]]; unfold inbetween in H;
    cbn [round_nearest_even].
  - subst Y. rewrite Rminus_diag, Rabs_R0. split; [lra|]. split; [lra|lia].
  - destruct (Z.even m) eqn:Ev.
    + subst Y. replace (IZR m - (IZR m + / 2)) with (- / 2) by ring.
      rewrite Rabs_Ropp, Rabs_right by lra. split; [lra|]. split; [auto|lia].
    + subst Y. rewrite plus_IZR.
      replace (IZR m + 1 - (IZR m + / 2)) with (/ 2) by field.
      rewrite Rabs_right by lra. split; [lra|]. split; [|lia].
      intros _. replace (m + 1)%Z with (Z.succ m) by lia.
      rewrite Z.even_succ, <- Z.negb_even, Ev. reflexivity.
  - rewrite Rabs_left by lra. split; [lra|]. split; [lra|lia].
  - rewrite plus_IZR, Rabs_right by lra. split; [lra|]. split; [lra|lia].
Qed.


Lemma IZR_lt_bpow (m k : Z) : (0 <= k)%Z -> IZR m < bpow k -> (m < 2 ^ k)%Z.
Proof. intros Hk H. rewrite bpow_IZR in H by exact Hk. apply lt_IZR, H. Qed.

Lemma bpow_le_IZR (m k : Z) : (0 <= k)%Z -> bpow k < IZR m + 1 -> (2 ^ k <= m)%Z.
Proof.
  intros Hk H. rewrite bpow_IZR in H by exact Hk. rewrite <- plus_IZR in H.
  apply lt_IZR in H. lia.
Qed.

(** What [binary_round_aux] answers for the mantissa [m] at exponent [e]
    with location [l], when they locate the real [X] and the exponent is not
    above the one of the format. *)
Lemma binary_round_aux_spec (s : bool) (m e : Z) (l : location) (X : R) :
  (0 <= m)%Z -> inbetween m l X ->
  (e <= fexp prec emax (Zdigits2 m + e))%Z ->
  exists f, Rnd (X * bpow e) f
    /\ (f < bpow 1024 /\ SFmag (binary_round_aux prec emax s m e l) s f
        \/ bpow 1024 <= f /\ binary_round_aux prec emax s m e l = S754_infinity s).
Proof.
  intros Hm Hin Hal.
  pose proof (inbetween_bounds m l X Hin) as [HXl HXu].
  pose proof (Zdigits2_upper m Hm) as Hdu.
  pose proof (Zdigits2_nonneg m) as Hd0.
  unfold binary_round_aux.
  pose proof (shr_fexp_spec m e l X Hm Hin) as H1. cbv zeta in H1.
  destruct (shr_fexp prec emax m e l) as [mrs1 e1]. cbn [fst snd] in H1.
  destruct H1 as (He1 & Hm1 & Hin1 & _).
  rewrite fexp_eq in Hal, He1.
  assert (He1' : e1 = Z.max (Zdigits2 m + e - 53) (-1074)) by lia.
  set (m1 := shr_m mrs1) in *. set (l1 := loc_of_shr_record mrs1) in *.
  set (Y := X * bpow (e - e1)) in *.
  pose proof (inbetween_bounds m1 l1 Y Hin1) as [HYl HYu].
  pose proof (round_nearest_even_spec m1 l1 Y Hin1) as H2. cbv zeta in H2.
  set (m2 := round_nearest_even m1 l1) in *. destruct H2 as (Hn & Ht & Hm2).
  assert (HYV : X * bpow e * bpow (- e1) = Y).
  { unfold Y. rewrite Rmult_assoc, <- bpow_add. reflexivity. }
  assert (HV53 : X * bpow e < bpow (e1 + 53)).
  { apply Rlt_le_trans with (bpow (Zdigits2 m) * bpow e).
    - apply Rmult_lt_compat_r; [apply bpow_pos | lra].
    - rewrite <- bpow_add. apply bpow_le. lia. }
  assert (HY53 : Y < bpow 53).
  { rewrite <- HYV. replace 53%Z with (e1 + 53 + - e1)%Z by lia.
    rewrite (bpow_add (e1 + 53)). apply Rmult_lt_compat_r; [apply bpow_pos|exact HV53]. }
  assert (HV52 : (-1074 < e1)%Z -> bpow (e1 + 52) <= X * bpow e).
  { intros Hgt. destruct m as [|p|p]; [cbn [Zdigits2] in *; lia| |lia].
    apply Rle_trans with (IZR (Zpos p) * bpow e).
    - apply Rle_trans with (bpow (Zdigits2 (Zpos p) - 1) * bpow e).
      + rewrite <- bpow_add. apply bpow_le. lia.
      + apply Rmult_le_compat_r; [apply Rlt_le, bpow_pos|apply Zdigits2_lower].
    - apply Rmult_le_compat_r; [apply Rlt_le, bpow_pos|exact HXl]. }
  assert (HY52 : (-1074 < e1)%Z -> bpow 52 <= Y).
  { intros Hgt. rewrite <- HYV. replace 52%Z with (e1 + 52 + - e1)%Z by lia.
    rewrite (bpow_add (e1 + 52)).
    apply Rmult_le_compat_r; [apply Rlt_le, bpow_pos|apply HV52, Hgt]. }
  assert (Hm1u : (m1 < 2 ^ 53)%Z) by (apply IZR_lt_bpow; [lia|lra]).
  assert (Hm1l : (-1074 < e1)%Z -> (2 ^ 52 <= m1)%Z).
  { intros Hgt. apply bpow_le_IZR; [lia|]. specialize (HY52 Hgt). lra. }
  exists (IZR m2 * bpow e1). split.
  { exists e1, m2. rewrite HYV. repeat split; try assumption; lia. }
  pose proof (shr_fexp_spec m2 e1 loc_Exact (IZR m2) ltac:(lia) eq_refl) as H3.
  cbv zeta in H3.
  destruct (shr_fexp prec emax m2 e1 loc_Exact) as [mrs3 e3] eqn:E3.
  cbn [fst snd] in H3. destruct H3 as (He3 & Hm3 & Hin3 & Hsame).
  rewrite fexp_eq in He3, Hsame.
  destruct (Z_lt_le_dec m2 (2 ^ 53)) as [Hlt|Hge].
  - (* no renormalisation *)
    pose proof (Zdigits2_le m2 53 ltac:(lia) ltac:(lia)) as Hd2.
    rewrite Hsame by lia. cbn [shr_record_of_loc shr_m].
    assert (He3' : e3 = e1) by lia. clear He3 E3. subst e3.
    destruct m2 as [|q|q] eqn:Eq; [| |lia].
    + left. rewrite Rmult_0_l. split; [apply bpow_pos|]. left. auto.
    + destruct (Z.leb_spec e1 (emax - prec)) as [Hle|Hgt].
      * left. split.
        -- apply Rlt_le_trans with (bpow 53 * bpow e1).
           ++ apply Rmult_lt_compat_r; [apply bpow_pos|].
              rewrite bpow_IZR by lia. apply IZR_lt. lia.
           ++ rewrite <- bpow_add. apply bpow_le. change (emax - prec)%Z with 971%Z in Hle.
              lia.
        -- right. eauto.
      * right. split; [|reflexivity]. change (emax - prec)%Z with 971%Z in Hgt.
        apply Rle_trans with (bpow 52 * bpow e1).
        -- rewrite <- bpow_add. apply bpow_le. lia.
        -- apply Rmult_le_compat_r; [apply Rlt_le, bpow_pos|].
           rewrite bpow_IZR by lia. apply IZR_le. specialize (Hm1l ltac:(lia)). lia.
  - (* the mantissa has reached 2^53 *)
    assert (Hm2e : m2 = (2 ^ 53)%Z) by lia.
    revert E3. unfold shr_fexp. rewrite Hm2e.
    change (Zdigits2 (2 ^ 53)) with 54%Z. rewrite fexp_eq.
    replace (Z.max (54 + e1 - 53) (-1074) - e1)%Z with 1%Z by lia.
    cbn [shr shr_record_of_loc SpecFloat.iter_pos shr_1 Z.pow Z.pow_pos Pos.iter Z.mul Pos.mul].
    intros [= <- <-]. cbn [shr_m].
    replace (IZR (2 ^ 53) * bpow e1) with (bpow (e1 + 53))
      by (rewrite bpow_add, (bpow_IZR 53) by lia; ring).
    destruct (Z.leb_spec (e1 + 1) (emax - prec)) as [Hle|Hgt];
      change (emax - prec)%Z with 971%Z in *.
    + left. split; [apply bpow_lt; lia|]. right. do 2 eexists. split; [reflexivity|].
      replace (e1 + 53)%Z with (52 + (e1 + 1))%Z by lia.
      rewrite bpow_add, (bpow_IZR 52) by lia. reflexivity.
    + right. split; [apply bpow_le; lia|reflexivity].
Qed.


(** ** Properties of the rounding relation *)

Lemma Rnd_nonneg (V f : R) : Rnd V f -> 0 <= f.
Proof.
  intros (e1 & m2 & -> & _ & Hm & _).
  apply Rmult_le_pos; [apply IZR_le, Hm | apply Rlt_le, bpow_pos].
Qed.

Lemma Rabs_half (x : R) : Rabs x <= / 2 -> - / 2 <= x <= / 2.
Proof. intros H. unfold Rabs in H. destruct (Rcase_abs x); lra. Qed.

(** Rounding is monotone. *)
Lemma Rnd_le (V V' f f' : R) : Rnd V f -> Rnd V' f' -> V <= V' -> f <= f'.
Proof.
  intros (e & m & -> & He & Hm & Hn & Ht & Hu & Hl)
         (e' & m' & -> & He' & Hm' & Hn' & Ht' & Hu' & Hl') HV.
  pose proof (Rabs_half _ Hn) as Hn2. pose proof (Rabs_half _ Hn') as Hn2'.
  assert (Hee : (e <= e')%Z).
  { destruct (Z_le_gt_dec e e') as [H|H]; [exact H|].
    specialize (Hl ltac:(lia)).
    assert (bpow (e + 52) < bpow (e' + 53)) by lra.
    apply bpow_lt_inv in H0. lia. }
  destruct (Z.eq_dec e e') as [<-|Hne].
  - apply Rmult_le_compat_r; [apply Rlt_le, bpow_pos|]. apply IZR_le.
    destruct (Z_le_gt_dec m m') as [H|H]; [exact H|]. exfalso.
    assert (HY : V * bpow (- e) <= V' * bpow (- e))
      by (apply Rmult_le_compat_r; [apply Rlt_le, bpow_pos|exact HV]).
    assert (Hm1 : IZR m' + 1 <= IZR m)
      by (rewrite <- plus_IZR; apply IZR_le; lia).
    assert (E1 : IZR m - V * bpow (- e) = / 2) by lra.
    assert (E2 : IZR m' - V' * bpow (- e) = - / 2) by lra.
    assert (Ev : Z.even m = true).
    { apply Ht. rewrite E1. apply Rabs_right. lra. }
    assert (Ev' : Z.even m' = true).
    { apply Ht'. rewrite E2, Rabs_Ropp. apply Rabs_right. lra. }
    assert (Hmm : m = (m' + 1)%Z).
    { assert (IZR m <= IZR m' + 1) by lra. rewrite <- plus_IZR in H0.
      apply le_IZR in H0. lia. }
    rewrite Hmm in Ev. replace (m' + 1)%Z with (Z.succ m') in Ev by lia.
    rewrite Z.even_succ, <- Z.negb_even, Ev' in Ev. discriminate.
  - specialize (Hl' ltac:(lia)).
    apply Rle_trans with (bpow (e' + 52)).
    + apply Rle_trans with (bpow 53 * bpow e).
      * apply Rmult_le_compat_r; [apply Rlt_le, bpow_pos|].
        assert (HY53 : V * bpow (- e) < bpow 53).
        { replace 53%Z with (e + 53 + - e)%Z by lia. rewrite (bpow_add (e + 53)).
          apply Rmult_lt_compat_r; [apply bpow_pos|exact Hu]. }
        assert (IZR m < bpow 53 + 1) by lra.
        rewrite bpow_IZR in * by lia. rewrite <- plus_IZR in H.
        apply lt_IZR in H. apply IZR_le. lia.
      * rewrite <- bpow_add. apply bpow_le. lia.
    + replace (e' + 52)%Z with (52 + e')%Z by lia. rewrite bpow_add.
      apply Rmult_le_compat_r; [apply Rlt_le, bpow_pos|].
      assert (HY52 : bpow 52 <= V' * bpow (- e')).
      { replace 52%Z with (e' + 52 + - e')%Z by lia. rewrite (bpow_add (e' + 52)).
        apply Rmult_le_compat_r; [apply Rlt_le, bpow_pos|exact Hl']. }
      assert (bpow 52 - 1 < IZR m') by lra.
      rewrite bpow_IZR in * by lia. rewrite <- minus_IZR in H.
      apply lt_IZR in H. apply IZR_le. lia.
Qed.

(** A real has one rounding. *)
Lemma Rnd_unique (V f f' : R) : Rnd V f -> Rnd V f' -> f = f'.
Proof.
  intros H H'. apply Rle_antisym; eapply Rnd_le; eauto; lra.
Qed.

(** A number of the format is its own rounding. *)
Lemma Rnd_canonical (m e : Z) :
  (-1074 <= e)%Z -> (0 <= m < 2 ^ 53)%Z -> ((-1074 < e)%Z -> (2 ^ 52 <= m)%Z) ->
  Rnd (IZR m * bpow e) (IZR m * bpow e).
Proof.
  intros He Hm Hn. exists e, m.
  assert (HY : IZR m * bpow e * bpow (- e) = IZR m).
  { rewrite Rmult_assoc, bpow_cancel. ring. }
  rewrite HY, Rminus_diag, Rabs_R0.
  split; [reflexivity|]. split; [exact He|]. split; [lia|]. split; [lra|].
  split; [lra|]. split.
  - replace (e + 53)%Z with (53 + e)%Z by lia. rewrite bpow_add.
    apply Rmult_lt_compat_r; [apply bpow_pos|].
    rewrite bpow_IZR by lia. apply IZR_lt. lia.
  - intros Hgt. replace (e + 52)%Z with (52 + e)%Z by lia. rewrite bpow_add.
    apply Rmult_le_compat_r; [apply Rlt_le, bpow_pos|].
    rewrite bpow_IZR by lia. apply IZR_le. auto.
Qed.

Lemma Rnd_0 : Rnd 0 0.
Proof.
  replace 0 with (IZR 0 * bpow (-1074)) by ring.
  apply Rnd_canonical; lia.
Qed.

(** The rounding error: at most half a quantum, which is at most [2^-53]
    of the number rounded, or [2^-1075] where the quantum is the smallest
    one. *)
Lemma Rnd_error (V f : R) :
  0 <= V -> Rnd V f -> Rabs (f - V) <= V * bpow (-53) + bpow (-1075).
Proof.
  intros HV (e & m & -> & He & Hm & Hn & _ & _ & Hl).
  assert (E : IZR m * bpow e - V = (IZR m - V * bpow (- e)) * bpow e).
  { rewrite Rmult_minus_distr_r, Rmult_assoc, (Rmult_comm (bpow (- e))), bpow_cancel.
    ring. }
  rewrite E, Rabs_mult, (Rabs_right (bpow e)) by (apply Rle_ge, Rlt_le, bpow_pos).
  apply Rle_trans with (/ 2 * bpow e).
  { apply Rmult_le_compat_r; [apply Rlt_le, bpow_pos|exact Hn]. }
  replace (/ 2 * bpow e) with (bpow (e - 1))
    by (replace (e - 1)%Z with (- (1) + e)%Z by lia;
        rewrite bpow_add, (bpow_opp 1), bpow_1; reflexivity).
  pose proof (bpow_pos (-53)). pose proof (bpow_pos (-1075)).
  destruct (Z.eq_dec e (-1074)%Z) as [->|Hne].
  - change (-1074 - 1)%Z with (-1075)%Z. nra.
  - specialize (Hl ltac:(lia)).
    apply Rle_trans with (V * bpow (-53)); [|lra].
    apply Rle_trans with (bpow (e + 52) * bpow (-53)).
    + rewrite <- bpow_add. apply bpow_le. lia.
    + apply Rmult_le_compat_r; [lra|exact Hl].
Qed.


(** ** Rounding of reals of either sign *)

Lemma Rnd_0_inv (f : R) : Rnd 0 f -> f = 0.
Proof. intros H. apply (Rnd_unique 0 f 0 H Rnd_0). Qed.

Lemma RND_0 : RND 0 0.
Proof. left. split; [lra|apply Rnd_0]. Qed.

Lemma RND_le (V V' f f' : R) : RND V f -> RND V' f' -> V <= V' -> f <= f'.
Proof.
  intros [[H0 H]|[H0 H]] [[H0' H']|[H0' H']] HV.
  - eapply Rnd_le; eauto.
  - assert (V = 0) by lra. assert (V' = 0) by lra. subst.
    rewrite Ropp_0 in H'. apply Rnd_0_inv in H, H'. lra.
  - apply Rnd_nonneg in H, H'. lra.
  - assert (- f' <= - f) by (eapply Rnd_le; eauto; lra). lra.
Qed.

Lemma RND_unique (V f f' : R) : RND V f -> RND V f' -> f = f'.
Proof. intros H H'. apply Rle_antisym; eapply RND_le; eauto; lra. Qed.

Lemma RND_nonneg (V f : R) : RND V f -> 0 <= V -> 0 <= f.
Proof. intros H HV. apply (RND_le 0 V 0 f RND_0 H HV). Qed.

Lemma RND_nonpos (V f : R) : RND V f -> V <= 0 -> f <= 0.
Proof. intros H HV. apply (RND_le V 0 f 0 H RND_0 HV). Qed.

Lemma RND_error (V f : R) :
  RND V f -> Rabs (f - V) <= Rabs V * bpow (-53) + bpow (-1075).
Proof.
  intros [[H0 H]|[H0 H]].
  - rewrite (Rabs_right V) by lra. apply Rnd_error; assumption.
  - rewrite (Rabs_left1 V) by lra.
    replace (f - V) with (- (- f - - V)) by ring. rewrite Rabs_Ropp.
    apply Rnd_error; [lra|exact H].
Qed.

(** ** Binary64 values as reals *)

Lemma valid_finite (s : bool) (m : positive) (e : Z) :
  valid_binary (S754_finite s m e) = true ->
  (-1074 <= e <= 971)%Z /\ (Zpos m < 2 ^ 53)%Z
  /\ ((-1074 < e)%Z -> (2 ^ 52 <= Zpos m)%Z)
  /\ fexp prec emax (Zdigits2 (Zpos m) + e) = e.
Proof.
  cbn [valid_binary]. unfold bounded, canonical_mantissa.
  intros H. apply andb_prop in H as [Hc Hb].
  apply Z.eqb_eq in Hc. apply Z.leb_le in Hb. change (emax - prec)%Z with 971%Z in Hb.
  pose proof (digits2_pos_spec m) as [Hl Hu].
  cbn [Zdigits2]. rewrite fexp_eq in *.
  split; [lia|]. split.
  - assert (Zpos (digits2_pos m) <= 53)%Z by lia.
    apply Z.lt_le_trans with (2 ^ Zpos (digits2_pos m))%Z; [exact Hu|].
    apply Z.pow_le_mono_r; lia.
  - split; [|exact Hc]. intros Hgt.
    assert (E : Zpos (digits2_pos m) = 53%Z) by lia. rewrite E in Hl. exact Hl.
Qed.

Lemma SF2R_finite (s : bool) (m : positive) (e : Z) :
  SF2R (S754_finite s m e) = (if s then - 1 else 1) * (IZR (Zpos m) * bpow e).
Proof. cbn [SF2R]. destruct s; cbn [cond_Zopp]; [rewrite opp_IZR|]; ring. Qed.

(** The magnitude of a valid value is a number of the format. *)
Lemma valid_Rnd (s : bool) (m : positive) (e : Z) :
  valid_binary (S754_finite s m e) = true ->
  Rnd (IZR (Zpos m) * bpow e) (IZR (Zpos m) * bpow e)
  /\ IZR (Zpos m) * bpow e < bpow 1024.
Proof.
  intros H. destruct (valid_finite s m e H) as (He & Hm & Hn & _). split.
  - apply Rnd_canonical; [lia|lia|exact Hn].
  - apply Rlt_le_trans with (bpow 53 * bpow e).
    + apply Rmult_lt_compat_r; [apply bpow_pos|].
      rewrite bpow_IZR by lia. apply IZR_lt, Hm.
    + rewrite <- bpow_add. apply bpow_le. lia.
Qed.

Lemma valid_RND (r : spec_float) :
  valid_binary r = true -> RND (SF2R r) (SF2R r) /\ Rabs (SF2R r) < bpow 1024.
Proof.
  intros H. destruct r as [s|s| |s m e]; cbn [SF2R];
    try (rewrite Rabs_R0; split; [apply RND_0|apply bpow_pos]).
  destruct (valid_Rnd s m e H) as [Hr Hb].
  fold (SF2R (S754_finite s m e)). rewrite SF2R_finite.
  assert (Hpos : 0 < IZR (Zpos m) * bpow e).
  { apply Rmult_lt_0_compat; [apply IZR_lt; lia|apply bpow_pos]. }
  destruct s.
  - split.
    + right. split; [lra|].
      replace (- (-1 * (IZR (Zpos m) * bpow e))) with (IZR (Zpos m) * bpow e) by ring.
      exact Hr.
    + rewrite Rabs_left by lra. lra.
  - split.
    + left. split; [lra|]. rewrite Rmult_1_l. exact Hr.
    + rewrite Rabs_right by lra. lra.
Qed.

Lemma is_finite_SF (v : float) : is_finite v = SFfinite (Prim2SF v).
Proof.
  unfold is_finite, is_nan, is_infinity.
  rewrite !FloatAxioms.eqb_spec, abs_spec.
  change (Prim2SF infinity) with (S754_infinity false).
  destruct (Prim2SF v) as [s|s| |s m e]; cbn [SFfinite SFabs]; try reflexivity.
  - destruct s; reflexivity.
  - unfold SFeqb, SFcompare. destruct s; rewrite Z.compare_refl, Pos.compare_cont_refl;
      reflexivity.
Qed.

Lemma B2R_RND (v : float) : RND (B2R v) (B2R v) /\ Rabs (B2R v) < bpow 1024.
Proof. apply valid_RND, Prim2SF_valid. Qed.

(** The outcome of an operation whose exact result is [V]: the value is the
    rounding of [V] when that is below [2^1024], and is not finite
    otherwise. *)
Lemma round_signed (s : bool) (r : spec_float) (A f0 : R) :
  0 <= A -> Rnd A f0 ->
  (f0 < bpow 1024 /\ SFmag r s f0 \/ bpow 1024 <= f0 /\ r = S754_infinity s) ->
  exists f, RND (if s then - A else A) f
    /\ (Rabs f < bpow 1024 -> SFfinite r = true /\ SF2R r = f)
    /\ (bpow 1024 <= Rabs f -> SFfinite r = false).
Proof.
  intros HA Hr Hres. pose proof (Rnd_nonneg A f0 Hr) as Hf0.
  exists (if s then - f0 else f0).
  assert (Habs : Rabs (if s then - f0 else f0) = f0).
  { destruct s; [rewrite Rabs_Ropp|]; apply Rabs_right; lra. }
  rewrite Habs. split; [|split].
  - destruct s.
    + right. split; [lra|]. rewrite !Ropp_involutive. exact Hr.
    + left. auto.
  - intros Hlt. destruct Hres as [[_ Hmag]|[Hge _]]; [|lra].
    destruct Hmag as [[-> ->]|(m & e & -> & ->)].
    + split; [reflexivity|]. cbn [SF2R]. destruct s; ring.
    + split; [reflexivity|]. rewrite SF2R_finite. destruct s; ring.
  - intros Hge. destruct Hres as [[Hlt _]|[_ ->]]; [lra|reflexivity].
Qed.


(** ** The operations *)

Lemma digits_mul (p q : positive) :
  (Zdigits2 (Zpos p) + Zdigits2 (Zpos q) - 1 <= Zdigits2 (Zpos (p * q)))%Z.
Proof.
  cbn [Zdigits2].
  pose proof (digits2_pos_spec p) as [Hp _].
  pose proof (digits2_pos_spec q) as [Hq _].
  pose proof (digits2_pos_spec (p * q)) as [_ Hpq].
  set (dp := Zpos (digits2_pos p)) in *. set (dq := Zpos (digits2_pos q)) in *.
  set (d := Zpos (digits2_pos (p * q))) in *.
  assert (H : (2 ^ (dp - 1 + (dq - 1)) < 2 ^ d)%Z).
  { rewrite Z.pow_add_r by lia. rewrite Pos2Z.inj_mul in Hpq.
    apply Z.le_lt_trans with (Zpos p * Zpos q)%Z; [|exact Hpq].
    apply Z.mul_le_mono_nonneg; try lia; apply Z.pow_nonneg; lia. }
  apply Z.pow_lt_mono_r_iff in H; lia.
Qed.

Lemma SFmul_spec (x y : spec_float) :
  valid_binary x = true -> valid_binary y = true ->
  SFfinite x = true -> SFfinite y = true ->
  exists f, RND (SF2R x * SF2R y) f
    /\ (Rabs f < bpow 1024 ->
        SFfinite (SF64mul x y) = true /\ SF2R (SF64mul x y) = f)
    /\ (bpow 1024 <= Rabs f -> SFfinite (SF64mul x y) = false).
Proof.
  intros Hvx Hvy Hfx Hfy.
  assert (Hzero : forall s V, V = 0 ->
    exists f, RND V f
      /\ (Rabs f < bpow 1024 ->
          SFfinite (S754_zero s) = true /\ SF2R (S754_zero s) = f)
      /\ (bpow 1024 <= Rabs f -> SFfinite (S754_zero s) = false)).
  { intros s V ->. exists 0. split; [apply RND_0|]. split; [auto|].
    rewrite Rabs_R0. pose proof (bpow_pos 1024). lra. }
  destruct x as [sx|sx| |sx mx ex]; try discriminate;
    destruct y as [sy|sy| |sy my ey]; try discriminate;
    try (apply Hzero; cbn [SF2R]; ring).
  unfold SF64mul, SFmul.
  destruct (valid_finite sx mx ex Hvx) as (Hex & Hmx & Hnx & Hcx).
  destruct (valid_finite sy my ey Hvy) as (Hey & Hmy & Hny & Hcy).
  destruct (binary_round_aux_spec (xorb sx sy) (Zpos (mx * my)) (ex + ey)
              loc_Exact (IZR (Zpos (mx * my))) ltac:(lia) eq_refl) as (f0 & Hr & Hres).
  { pose proof (digits_mul mx my). pose proof (digits2_pos_spec mx) as [_ H1].
    pose proof (digits2_pos_spec my) as [_ H2].
    rewrite fexp_eq in *. cbn [Zdigits2] in *. lia. }
  set (A := IZR (Zpos (mx * my)) * bpow (ex + ey)) in *.
  assert (HA : 0 <= A).
  { apply Rmult_le_pos; [apply IZR_le; lia|apply Rlt_le, bpow_pos]. }
  destruct (round_signed (xorb sx sy) _ A f0 HA Hr Hres) as (f & Hf & Hfin & Hinf).
  exists f. split; [|split; assumption].
  replace (SF2R (S754_finite sx mx ex) * SF2R (S754_finite sy my ey))
    with (if xorb sx sy then - A else A); [exact Hf|].
  rewrite !SF2R_finite. unfold A. rewrite Pos2Z.inj_mul, mult_IZR, bpow_add.
  destruct sx, sy; cbn [xorb]; ring.
Qed.

Lemma mul_R (x y : float) :
  is_finite x = true -> is_finite y = true ->
  exists f, RND (B2R x * B2R y) f
    /\ (Rabs f < bpow 1024 -> is_finite (x * y) = true /\ B2R (x * y) = f)
    /\ (bpow 1024 <= Rabs f -> is_finite (x * y) = false).
Proof.
  rewrite !is_finite_SF. unfold B2R. rewrite mul_spec.
  apply SFmul_spec; apply Prim2SF_valid.
Qed.


Lemma iter_xO_spec (m d : positive) :
  Zpos (Pos.iter xO m d) = (Zpos m * 2 ^ Zpos d)%Z
  /\ Zpos (digits2_pos (Pos.iter xO m d)) = (Zpos (digits2_pos m) + Zpos d)%Z.
Proof.
  apply (Pos.iter_ind positive xO m
           (fun d a => Zpos a = (Zpos m * 2 ^ Zpos d)%Z
                       /\ Zpos (digits2_pos a) = (Zpos (digits2_pos m) + Zpos d)%Z)).
  - split; [lia|]. cbn [digits2_pos]. lia.
  - intros p a [Ha Hd]. split.
    + rewrite Pos2Z.inj_succ, Z.pow_succ_r by lia. lia.
    + cbn [digits2_pos]. lia.
Qed.

Lemma shl_align_spec (m : positive) (e e' : Z) :
  let r := shl_align m e e' in
  snd r = Z.min e e'
  /\ Zpos (fst r) = (Zpos m * 2 ^ (e - snd r))%Z
  /\ (Zdigits2 (Zpos (fst r)) + snd r = Zdigits2 (Zpos m) + e)%Z
  /\ IZR (Zpos (fst r)) * bpow (snd r) = IZR (Zpos m) * bpow e.
Proof.
  cbv zeta. unfold shl_align.
  destruct (e' - e)%Z as [|d|d] eqn:E; cbn [fst snd].
  - split; [lia|]. rewrite Z.sub_diag. split; [lia|]. auto.
  - split; [lia|]. rewrite Z.sub_diag. split; [lia|]. auto.
  - destruct (iter_xO_spec m d) as [Hv Hd].
    assert (He : (e - e' = Zpos d)%Z) by lia.
    split; [lia|]. split; [rewrite He; exact Hv|]. split.
    + cbn [Zdigits2]. lia.
    + rewrite Hv, mult_IZR, <- bpow_IZR by lia.
      rewrite Rmult_assoc, <- bpow_add. do 2 f_equal. lia.
Qed.

Lemma binary_round_spec (s : bool) (p : positive) (e : Z) :
  exists f, Rnd (IZR (Zpos p) * bpow e) f
    /\ (f < bpow 1024 /\ SFmag (binary_round prec emax s p e) s f
        \/ bpow 1024 <= f /\ binary_round prec emax s p e = S754_infinity s).
Proof.
  unfold binary_round.
  pose proof (shl_align_spec p e (fexp prec emax (Zpos (digits2_pos p) + e))) as H.
  cbv zeta in H.
  destruct (shl_align p e (fexp prec emax (Zpos (digits2_pos p) + e))) as [mz ez].
  cbn [fst snd] in H. destruct H as (He & _ & Hd & Hv).
  rewrite <- Hv.
  apply (binary_round_aux_spec s (Zpos mz) ez loc_Exact (IZR (Zpos mz)));
    [lia|reflexivity|].
  rewrite Hd. cbn [Zdigits2]. lia.
Qed.

Lemma binary_normalize_spec (z e : Z) :
  let r := binary_normalize prec emax z e false in
  exists f, RND (IZR z * bpow e) f
    /\ (Rabs f < bpow 1024 -> SFfinite r = true /\ SF2R r = f)
    /\ (bpow 1024 <= Rabs f -> SFfinite r = false).
Proof.
  cbv zeta. destruct z as [|p|p]; cbn [binary_normalize].
  - exists 0. rewrite Rmult_0_l. split; [apply RND_0|]. split; [auto|].
    rewrite Rabs_R0. pose proof (bpow_pos 1024). lra.
  - destruct (binary_round_spec false p e) as (f0 & Hr & Hres).
    apply (round_signed false _ _ f0); [|exact Hr|exact Hres].
    apply Rmult_le_pos; [apply IZR_le; lia|apply Rlt_le, bpow_pos].
  - destruct (binary_round_spec true p e) as (f0 & Hr & Hres).
    replace (IZR (Zneg p) * bpow e) with (- (IZR (Zpos p) * bpow e))
      by (change (Zneg p) with (- Zpos p)%Z; rewrite opp_IZR; ring).
    apply (round_signed true _ _ f0); [|exact Hr|exact Hres].
    apply Rmult_le_pos; [apply IZR_le; lia|apply Rlt_le, bpow_pos].
Qed.

(** The value of a finite number, brought to a smaller exponent. *)
Lemma aligned_value (s : bool) (m : positive) (e ez : Z) :
  (ez <= e)%Z ->
  IZR (cond_Zopp s (Zpos (fst (shl_align m e ez)))) * bpow ez
  = SF2R (S754_finite s m e).
Proof.
  intros Hle. pose proof (shl_align_spec m e ez) as H. cbv zeta in H.
  destruct (shl_align m e ez) as [mz e']. cbn [fst snd] in *.
  destruct H as (He & _ & _ & Hv). rewrite Z.min_r in He by lia. subst e'.
  rewrite SF2R_finite, <- Hv. destruct s; cbn [cond_Zopp]; [rewrite opp_IZR|]; ring.
Qed.

Lemma valid_outcome (r : spec_float) :
  valid_binary r = true -> SFfinite r = true ->
  exists f, RND (SF2R r) f
    /\ (Rabs f < bpow 1024 -> SFfinite r = true /\ SF2R r = f)
    /\ (bpow 1024 <= Rabs f -> SFfinite r = false).
Proof.
  intros Hv Hf. destruct (valid_RND r Hv) as [Hr Hb].
  exists (SF2R r). split; [exact Hr|]. split; [auto|]. lra.
Qed.

Lemma SFadd_spec (x y : spec_float) :
  valid_binary x = true -> valid_binary y = true ->
  SFfinite x = true -> SFfinite y = true ->
  exists f, RND (SF2R x + SF2R y) f
    /\ (Rabs f < bpow 1024 ->
        SFfinite (SF64add x y) = true /\ SF2R (SF64add x y) = f)
    /\ (bpow 1024 <= Rabs f -> SFfinite (SF64add x y) = false).
Proof.
  intros Hvx Hvy Hfx Hfy.
  destruct x as [sx|sx| |sx mx ex]; try discriminate;
    destruct y as [sy|sy| |sy my ey]; try discriminate.
  - replace (SF2R (S754_zero sx) + SF2R (S754_zero sy)) with (SF2R (S754_zero false))
      by (cbn [SF2R]; ring).
    assert (E : SF2R (SF64add (S754_zero sx) (S754_zero sy)) = SF2R (S754_zero false)
                /\ SFfinite (SF64add (S754_zero sx) (S754_zero sy)) = true)
      by (destruct sx, sy; split; reflexivity).
    destruct E as [E1 E2]. rewrite E1, E2. apply valid_outcome; reflexivity.
  - replace (SF2R (S754_zero sx) + SF2R (S754_finite sy my ey))
      with (SF2R (S754_finite sy my ey)) by (cbn [SF2R]; ring).
    apply (valid_outcome (S754_finite sy my ey)); assumption.
  - replace (SF2R (S754_finite sx mx ex) + SF2R (S754_zero sy))
      with (SF2R (S754_finite sx mx ex)) by (cbn [SF2R]; ring).
    apply (valid_outcome (S754_finite sx mx ex)); assumption.
  - unfold SF64add, SFadd.
    rewrite <- (aligned_value sx mx ex (Z.min ex ey)) by lia.
    rewrite <- (aligned_value sy my ey (Z.min ex ey)) by lia.
    rewrite <- Rmult_plus_distr_r, <- plus_IZR.
    apply binary_normalize_spec.
Qed.

Lemma SFsub_spec (x y : spec_float) :
  valid_binary x = true -> valid_binary y = true ->
  SFfinite x = true -> SFfinite y = true ->
  exists f, RND (SF2R x - SF2R y) f
    /\ (Rabs f < bpow 1024 ->
        SFfinite (SF64sub x y) = true /\ SF2R (SF64sub x y) = f)
    /\ (bpow 1024 <= Rabs f -> SFfinite (SF64sub x y) = false).
Proof.
  intros Hvx Hvy Hfx Hfy.
  destruct x as [sx|sx| |sx mx ex]; try discriminate;
    destruct y as [sy|sy| |sy my ey]; try discriminate.
  - replace (SF2R (S754_zero sx) - SF2R (S754_zero sy)) with (SF2R (S754_zero false))
      by (cbn [SF2R]; ring).
    assert (E : SF2R (SF64sub (S754_zero sx) (S754_zero sy)) = SF2R (S754_zero false)
                /\ SFfinite (SF64sub (S754_zero sx) (S754_zero sy)) = true)
      by (destruct sx, sy; split; reflexivity).
    destruct E as [E1 E2]. rewrite E1, E2. apply valid_outcome; reflexivity.
  - replace (SF2R (S754_zero sx) - SF2R (S754_finite sy my ey))
      with (SF2R (S754_finite (negb sy) my ey))
      by (rewrite !SF2R_finite; cbn [SF2R]; destruct sy; cbn [negb]; ring).
    apply (valid_outcome (S754_finite (negb sy) my ey)); [exact Hvy|reflexivity].
  - replace (SF2R (S754_finite sx mx ex) - SF2R (S754_zero sy))
      with (SF2R (S754_finite sx mx ex)) by (cbn [SF2R]; ring).
    apply (valid_outcome (S754_finite sx mx ex)); assumption.
  - unfold SF64sub, SFsub.
    rewrite <- (aligned_value sx mx ex (Z.min ex ey)) by lia.
    rewrite <- (aligned_value sy my ey (Z.min ex ey)) by lia.
    rewrite <- Rmult_minus_distr_r, <- minus_IZR.
    apply binary_normalize_spec.
Qed.

Lemma add_R (x y : float) :
  is_finite x = true -> is_finite y = true ->
  exists f, RND (B2R x + B2R y) f
    /\ (Rabs f < bpow 1024 -> is_finite (x + y) = true /\ B2R (x + y) = f)
    /\ (bpow 1024 <= Rabs f -> is_finite (x + y) = false).
Proof.
  rewrite !is_finite_SF. unfold B2R. rewrite add_spec.
  apply SFadd_spec; apply Prim2SF_valid.
Qed.

Lemma sub_R (x y : float) :
  is_finite x = true -> is_finite y = true ->
  exists f, RND (B2R x - B2R y) f
    /\ (Rabs f < bpow 1024 -> is_finite (x - y) = true /\ B2R (x - y) = f)
    /\ (bpow 1024 <= Rabs f -> is_finite (x - y) = false).
Proof.
  rewrite !is_finite_SF. unfold B2R. rewrite sub_spec.
  apply SFsub_spec; apply Prim2SF_valid.
Qed.


Lemma new_location_spec (nb r q : Z) :
  (0 <= r < nb)%Z -> inbetween q (new_location nb r) (IZR q + IZR r / IZR nb).
Proof.
  intros Hr.
  assert (Hb : 0 < IZR nb) by (apply IZR_lt; lia).
  assert (Ha : 0 <= IZR r) by (apply IZR_le; lia).
  assert (Hx : IZR r / IZR nb * IZR nb = IZR r) by (field; lra).
  set (x := IZR r / IZR nb) in *.
  assert (Hx1 : x < 1).
  { assert (IZR r < IZR nb) by (apply IZR_lt; lia). nra. }
  assert (Hloc : new_location nb r
                 = if (r =? 0)%Z then loc_Exact
                   else if Z.even nb then loc_Inexact (2 * r ?= nb)%Z
                   else loc_Inexact match (2 * r + 1 ?= nb)%Z with
                                    | Gt => Gt
                                    | _ => Lt
                                    end).
  { unfold new_location, new_location_even, new_location_odd.
    change (IntDef.Z.even nb) with (Z.even nb).
    destruct (Z.even nb), (r =? 0)%Z; reflexivity. }
  rewrite Hloc. clear Hloc.
  destruct (Z.eqb_spec r 0) as [->|Hne].
  { assert (x = 0) by nra. cbn [inbetween]. lra. }
  assert (Ha' : 0 < IZR r) by (apply IZR_lt; lia).
  assert (Hx0 : 0 < x) by nra.
  destruct (Z.even nb) eqn:Ev.
  - destruct (Z.compare_spec (2 * r) nb) as [H|H|H]; cbn [inbetween].
    + apply (f_equal IZR) in H. rewrite mult_IZR in H. nra.
    + apply IZR_lt in H. rewrite mult_IZR in H. nra.
    + apply IZR_lt in H. rewrite mult_IZR in H. nra.
  - destruct (Z.compare_spec (2 * r + 1) nb) as [H|H|H]; cbn [inbetween].
    + apply (f_equal IZR) in H. rewrite plus_IZR, mult_IZR in H. nra.
    + apply IZR_lt in H. rewrite plus_IZR, mult_IZR in H. nra.
    + assert (H' : (nb < 2 * r)%Z).
      { destruct (Z.eq_dec nb (2 * r)%Z) as [E|E]; [|lia].
        rewrite E, Z.even_mul in Ev. discriminate. }
      apply IZR_lt in H'. rewrite mult_IZR in H'. nra.
Qed.

Lemma Zdigits2_ge (q k : Z) : (0 <= k)%Z -> (2 ^ k <= q)%Z -> (k + 1 <= Zdigits2 q)%Z.
Proof.
  intros Hk Hq.
  assert (0 < 2 ^ k)%Z by (apply Z.pow_pos_nonneg; lia).
  destruct q as [|p|p]; try lia.
  cbn [Zdigits2]. pose proof (digits2_pos_spec p) as [_ Hu].
  assert (H' : (2 ^ k < 2 ^ Zpos (digits2_pos p))%Z) by lia.
  apply Z.pow_lt_mono_r_iff in H'; lia.
Qed.

Lemma SFdiv_core_spec (m1 m2 : positive) (e1 e2 : Z) :
  let result := SFdiv_core_binary prec emax (Zpos m1) e1 (Zpos m2) e2 in
  let q := fst (fst result) in
  let e' := snd (fst result) in
  exists X, (0 <= q)%Z /\ inbetween q (snd result) X
    /\ X * bpow e' = (IZR (Zpos m1) * bpow e1) / (IZR (Zpos m2) * bpow e2)
    /\ (e' <= fexp prec emax (Zdigits2 q + e'))%Z.
Proof.
  cbv zeta. unfold SFdiv_core_binary.
  set (d1 := Zdigits2 (Zpos m1)). set (d2 := Zdigits2 (Zpos m2)).
  set (e' := Z.min (fexp prec emax (d1 + e1 - (d2 + e2))) (e1 - e2)).
  set (sh := (e1 - e2 - e')%Z).
  assert (Hsh : (0 <= sh)%Z) by (unfold sh, e'; lia).
  set (m' := match sh with
             | 0%Z => Zpos m1
             | Zpos _ => Z.shiftl (Zpos m1) sh
             | Zneg _ => 0%Z
             end).
  assert (Hm' : m' = (Zpos m1 * 2 ^ sh)%Z).
  { unfold m'. destruct sh as [|p|p]; [lia| |lia].
    apply Z.shiftl_mul_pow2. lia. }
  clearbody m'.
  pose proof (Z_div_mod m' (Zpos m2) ltac:(lia)) as Hdm.
  destruct (Z.div_eucl m' (Zpos m2)) as [q r]. destruct Hdm as [Heq Hr].
  cbn [fst snd].
  assert (Hpow : (0 < 2 ^ sh)%Z) by (apply Z.pow_pos_nonneg; lia).
  assert (Hq : (0 <= q)%Z) by nia.
  exists (IZR q + IZR r / IZR (Zpos m2)).
  split; [exact Hq|]. split; [apply new_location_spec; exact Hr|]. split.
  - assert (H2 : 0 < IZR (Zpos m2)) by (apply IZR_lt; lia).
    replace (IZR q + IZR r / IZR (Zpos m2)) with (IZR m' / IZR (Zpos m2))
      by (rewrite Heq, plus_IZR, mult_IZR; field; lra).
    rewrite Hm', mult_IZR, <- bpow_IZR by exact Hsh.
    assert (Hb : bpow e1 = bpow sh * bpow e' * bpow e2)
      by (rewrite <- !bpow_add; f_equal; unfold sh; lia).
    rewrite Hb. field.
    split; [apply Rgt_not_eq, bpow_pos|lra].
  - rewrite fexp_eq.
    assert (He' : (e' <= Z.max (d1 + e1 - (d2 + e2) - 53) (-1074))%Z)
      by (unfold e'; rewrite fexp_eq; lia).
    destruct (Z_le_gt_dec e' (-1074)) as [Hle|Hgt]; [lia|].
    assert (Hk : (53 <= d1 + sh - d2)%Z) by (unfold sh; lia).
    pose proof (digits2_pos_spec m1) as [Hl1 _].
    pose proof (digits2_pos_spec m2) as [_ Hu2].
    fold (Zdigits2 (Zpos m1)) in Hl1. fold (Zdigits2 (Zpos m2)) in Hu2.
    fold d1 in Hl1. fold d2 in Hu2.
    assert (Hd2 : (0 < d2)%Z) by (unfold d2; cbn [Zdigits2]; lia).
    assert (Hd1 : (0 < d1)%Z) by (unfold d1; cbn [Zdigits2]; lia).
    assert (Hq2 : (2 ^ (d1 + sh - d2 - 1) <= q)%Z).
    { assert (H1 : (2 ^ (d1 - 1 + sh) <= m')%Z).
      { rewrite Hm', Z.pow_add_r by lia. apply Z.mul_le_mono_nonneg_r; lia. }
      assert (H2 : (2 ^ (d1 - 1 + sh) = 2 ^ (d1 + sh - d2 - 1) * 2 ^ d2)%Z).
      { rewrite <- Z.pow_add_r by lia. f_equal. lia. }
      assert (H3 : (0 < 2 ^ (d1 + sh - d2 - 1))%Z) by (apply Z.pow_pos_nonneg; lia).
      assert (H4 : (2 ^ (d1 + sh - d2 - 1) * Zpos m2 < (q + 1) * Zpos m2)%Z) by nia.
      apply Z.mul_lt_mono_pos_r in H4; lia. }
    pose proof (Zdigits2_ge q (d1 + sh - d2 - 1) ltac:(lia) Hq2) as Hdq.
    unfold sh in *. lia.
Qed.

Lemma SFdiv_spec (x y : spec_float) :
  valid_binary x = true -> valid_binary y = true ->
  SFfinite x = true -> SFfinite y = true -> SF2R y <> 0 ->
  exists f, RND (SF2R x / SF2R y) f
    /\ (Rabs f < bpow 1024 ->
        SFfinite (SF64div x y) = true /\ SF2R (SF64div x y) = f)
    /\ (bpow 1024 <= Rabs f -> SFfinite (SF64div x y) = false).
Proof.
  intros Hvx Hvy Hfx Hfy Hy.
  destruct y as [sy|sy| |sy my ey]; try discriminate; [contradiction Hy; reflexivity|].
  destruct x as [sx|sx| |sx mx ex]; try discriminate.
  - exists 0. replace (SF2R (S754_zero sx) / SF2R (S754_finite sy my ey)) with 0
      by (cbn [SF2R]; unfold Rdiv; ring).
    split; [apply RND_0|]. split; [intros _; split; reflexivity|].
    rewrite Rabs_R0. pose proof (bpow_pos 1024). lra.
  - unfold SF64div, SFdiv.
    pose proof (SFdiv_core_spec mx my ex ey) as H. cbv zeta in H.
    destruct (SFdiv_core_binary prec emax (Zpos mx) ex (Zpos my) ey) as [[q e'] l].
    cbn [fst snd] in H. destruct H as (X & Hq & Hin & HX & Hal).
    destruct (binary_round_aux_spec (xorb sx sy) q e' l X Hq Hin Hal)
      as (f0 & Hr & Hres).
    assert (HA : 0 <= X * bpow e').
    { apply Rmult_le_pos; [|apply Rlt_le, bpow_pos].
      pose proof (inbetween_bounds q l X Hin) as [Hl _].
      apply Rle_trans with (IZR q); [apply IZR_le, Hq|exact Hl]. }
    destruct (round_signed (xorb sx sy) _ _ f0 HA Hr Hres) as (f & Hf & Hfin & Hinf).
    exists f. split; [|split; assumption].
    replace (SF2R (S754_finite sx mx ex) / SF2R (S754_finite sy my ey))
      with (if xorb sx sy then - (X * bpow e') else X * bpow e'); [exact Hf|].
    rewrite HX, !SF2R_finite.
    assert (0 < IZR (Zpos my)) by (apply IZR_lt; lia).
    pose proof (bpow_pos ey).
    destruct sx, sy; cbn [xorb]; field; split; lra.
Qed.

Lemma div_R (x y : float) :
  is_finite x = true -> is_finite y = true -> B2R y <> 0 ->
  exists f, RND (B2R x / B2R y) f
    /\ (Rabs f < bpow 1024 -> is_finite (x / y) = true /\ B2R (x / y) = f)
    /\ (bpow 1024 <= Rabs f -> is_finite (x / y) = false).
Proof.
  rewrite !is_finite_SF. unfold B2R. rewrite div_spec.
  apply SFdiv_spec; apply Prim2SF_valid.
Qed.


(** ** Comparisons *)

Lemma canonical_lt (s1 s2 : bool) (m1 m2 : positive) (e1 e2 : Z) :
  valid_binary (S754_finite s1 m1 e1) = true ->
  valid_binary (S754_finite s2 m2 e2) = true ->
  (e1 < e2)%Z -> IZR (Zpos m1) * bpow e1 < IZR (Zpos m2) * bpow e2.
Proof.
  intros H1 H2 He.
  destruct (valid_finite s1 m1 e1 H1) as (He1 & Hm1 & _).
  destruct (valid_finite s2 m2 e2 H2) as (He2 & _ & Hn2 & _).
  apply Rlt_le_trans with (bpow 53 * bpow e1).
  - apply Rmult_lt_compat_r; [apply bpow_pos|].
    rewrite bpow_IZR by lia. apply IZR_lt, Hm1.
  - apply Rle_trans with (bpow 52 * bpow e2).
    + rewrite <- !bpow_add. apply bpow_le. lia.
    + apply Rmult_le_compat_r; [apply Rlt_le, bpow_pos|].
      rewrite bpow_IZR by lia. apply IZR_le, Hn2. lia.
Qed.

Lemma SFcompare_spec (x y : spec_float) :
  valid_binary x = true -> valid_binary y = true ->
  SFfinite x = true -> SFfinite y = true ->
  match SFcompare x y with
  | Some Lt => SF2R x < SF2R y
  | Some Eq => SF2R x = SF2R y
  | Some Gt => SF2R y < SF2R x
  | None => False
  end.
Proof.
  intros Hvx Hvy Hfx Hfy.
  assert (Hpos : forall m e, 0 < IZR (Zpos m) * bpow e).
  { intros. apply Rmult_lt_0_compat; [apply IZR_lt; lia|apply bpow_pos]. }
  destruct x as [sx|sx| |sx mx ex]; try discriminate;
    destruct y as [sy|sy| |sy my ey]; try discriminate.
  - reflexivity.
  - cbn [SFcompare]. rewrite SF2R_finite. pose proof (Hpos my ey).
    destruct sy; cbn [SF2R]; lra.
  - cbn [SFcompare]. rewrite SF2R_finite. pose proof (Hpos mx ex).
    destruct sx; cbn [SF2R]; lra.
  - cbn [SFcompare]. rewrite !SF2R_finite.
    pose proof (Hpos mx ex). pose proof (Hpos my ey).
    pose proof (canonical_lt sx sy mx my ex ey Hvx Hvy) as Hlt.
    pose proof (canonical_lt sy sx my mx ey ex Hvy Hvx) as Hgt.
    destruct sx, sy; try lra.
    + destruct (Z.compare_spec ex ey) as [->|He|He].
      * change (PosDef.Pos.compare_cont Eq mx my) with (Pos.compare mx my).
        pose proof (bpow_pos ey).
        destruct (Pos.compare_spec mx my) as [->|Hm|Hm]; cbn [CompOpp].
        -- reflexivity.
        -- assert (IZR (Zpos mx) < IZR (Zpos my)) by (apply IZR_lt; lia). nra.
        -- assert (IZR (Zpos my) < IZR (Zpos mx)) by (apply IZR_lt; lia). nra.
      * specialize (Hlt He). lra.
      * specialize (Hgt He). lra.
    + destruct (Z.compare_spec ex ey) as [->|He|He].
      * change (PosDef.Pos.compare_cont Eq mx my) with (Pos.compare mx my).
        pose proof (bpow_pos ey).
        destruct (Pos.compare_spec mx my) as [->|Hm|Hm].
        -- reflexivity.
        -- assert (IZR (Zpos mx) < IZR (Zpos my)) by (apply IZR_lt; lia). nra.
        -- assert (IZR (Zpos my) < IZR (Zpos mx)) by (apply IZR_lt; lia). nra.
      * specialize (Hlt He). lra.
      * specialize (Hgt He). lra.
Qed.

Lemma compare_R (x y : float) :
  is_finite x = true -> is_finite y = true ->
  match SFcompare (Prim2SF x) (Prim2SF y) with
  | Some Lt => B2R x < B2R y
  | Some Eq => B2R x = B2R y
  | Some Gt => B2R y < B2R x
  | None => False
  end.
Proof.
  rewrite !is_finite_SF. apply SFcompare_spec; apply Prim2SF_valid.
Qed.

Lemma leb_R (x y : float) :
  is_finite x = true -> is_finite y = true ->
  (x <=? y)%float = true <-> B2R x <= B2R y.
Proof.
  intros Hx Hy. pose proof (compare_R x y Hx Hy) as H.
  rewrite leb_spec. unfold SFleb.
  destruct (SFcompare (Prim2SF x) (Prim2SF y)) as [[]|]; try contradiction;
    split; intros; try reflexivity; try discriminate; lra.
Qed.

Lemma ltb_R (x y : float) :
  is_finite x = true -> is_finite y = true ->
  (x <? y)%float = true <-> B2R x < B2R y.
Proof.
  intros Hx Hy. pose proof (compare_R x y Hx Hy) as H.
  rewrite ltb_spec. unfold SFltb.
  destruct (SFcompare (Prim2SF x) (Prim2SF y)) as [[]|]; try contradiction;
    split; intros; try reflexivity; try discriminate; lra.
Qed.

Lemma eqb_R (x y : float) :
  is_finite x = true -> is_finite y = true ->
  (x =? y)%float = true <-> B2R x = B2R y.
Proof.
  intros Hx Hy. pose proof (compare_R x y Hx Hy) as H.
  rewrite FloatAxioms.eqb_spec. unfold SFeqb.
  destruct (SFcompare (Prim2SF x) (Prim2SF y)) as [[]|]; try contradiction;
    split; intros; try reflexivity; try discriminate; lra.
Qed.


(** ** Consequences for the operations of the code *)

Lemma B2R_0 : B2R 0 = 0.
Proof. reflexivity. Qed.

Lemma B2R_1 : B2R 1 = 1.
Proof.
  unfold B2R. replace (Prim2SF 1) with (S754_finite false 4503599627370496 (-52))
    by (vm_compute; reflexivity).
  cbn [SF2R cond_Zopp]. change (-52)%Z with (- (52))%Z.
  rewrite bpow_opp, bpow_IZR by lia.
  change (2 ^ 52)%Z with 4503599627370496%Z. field.
Qed.

Lemma finite_0 : is_finite 0 = true.
Proof. reflexivity. Qed.

Lemma finite_1 : is_finite 1 = true.
Proof. reflexivity. Qed.

Lemma add_finite_inv (x y : float) :
  is_finite (x + y) = true -> is_finite x = true /\ is_finite y = true.
Proof.
  rewrite !is_finite_SF, add_spec.
  destruct (Prim2SF x) as [sx|sx| |sx mx ex], (Prim2SF y) as [sy|sy| |sy my ey];
    try (intros _; split; reflexivity); try (destruct sx, sy); cbn; intros H;
    try discriminate H.
Qed.

Lemma sub_finite_inv (x y : float) :
  is_finite (x - y) = true -> is_finite x = true /\ is_finite y = true.
Proof.
  rewrite !is_finite_SF, sub_spec.
  destruct (Prim2SF x) as [sx|sx| |sx mx ex], (Prim2SF y) as [sy|sy| |sy my ey];
    try (intros _; split; reflexivity); try (destruct sx, sy); cbn; intros H;
    try discriminate H.
Qed.

Lemma mul_finite_inv (x y : float) :
  is_finite (x * y) = true -> is_finite x = true /\ is_finite y = true.
Proof.
  rewrite !is_finite_SF, mul_spec.
  destruct (Prim2SF x) as [sx|sx| |sx mx ex], (Prim2SF y) as [sy|sy| |sy my ey];
    try (intros _; split; reflexivity); cbn; intros H; try discriminate H.
Qed.

(** The result of an operation is finite when its exact value is between
    two numbers of the format. *)
Lemma RND_between (V f : R) (lo hi : float) :
  RND V f -> B2R lo <= V <= B2R hi -> B2R lo <= f <= B2R hi /\ Rabs f < bpow 1024.
Proof.
  intros Hr [Hl Hh].
  destruct (B2R_RND lo) as [Hrl Hbl]. destruct (B2R_RND hi) as [Hrh Hbh].
  assert (H1 : B2R lo <= f) by (eapply RND_le; eauto).
  assert (H2 : f <= B2R hi) by (eapply RND_le; eauto).
  split; [lra|].
  unfold Rabs in *.
  destruct (Rcase_abs f), (Rcase_abs (B2R lo)), (Rcase_abs (B2R hi)); lra.
Qed.

(** A product by a factor between 0 and 1 does not grow. *)
Lemma mul_shrinks (s a : float) :
  is_finite s = true -> is_finite a = true ->
  0 <= B2R s <= 1 -> 0 <= B2R a ->
  is_finite (s * a) = true /\ 0 <= B2R (s * a) <= B2R a.
Proof.
  intros Hs Ha Hs1 Ha0.
  destruct (mul_R s a Hs Ha) as (f & Hr & Hfin & _).
  destruct (RND_between _ f 0 a Hr) as [Hb Hlt].
  { rewrite B2R_0. nra. }
  destruct (Hfin Hlt) as [H1 H2]. rewrite H2, B2R_0 in *. auto.
Qed.

(** Sums of non-negative numbers are monotone. *)
Lemma add_monotone (x u y v : float) :
  is_finite x = true -> is_finite u = true ->
  is_finite (y + v) = true ->
  0 <= B2R x <= B2R y -> 0 <= B2R u <= B2R v ->
  is_finite (x + u) = true /\ 0 <= B2R (x + u) <= B2R (y + v).
Proof.
  intros Hx Hu Hyv Hxy Huv.
  destruct (add_finite_inv y v Hyv) as [Hy Hv].
  destruct (add_R x u Hx Hu) as (f & Hr & Hfin & _).
  destruct (add_R y v Hy Hv) as (f' & Hr' & Hfin' & Hinf').
  assert (Hlt' : Rabs f' < bpow 1024).
  { destruct (Rlt_le_dec (Rabs f') (bpow 1024)) as [H|H]; [exact H|].
    rewrite (Hinf' H) in Hyv. discriminate. }
  destruct (Hfin' Hlt') as [_ E']. rewrite E'.
  assert (H0 : 0 <= f) by (apply (RND_nonneg _ _ Hr); lra).
  assert (H1 : f <= f') by (apply (RND_le _ _ _ _ Hr Hr'); lra).
  assert (Hlt : Rabs f < bpow 1024).
  { rewrite Rabs_right by lra. apply Rle_lt_trans with (Rabs f'); [|exact Hlt'].
    rewrite Rabs_right by lra. exact H1. }
  destruct (Hfin Hlt) as [H2 E]. rewrite E. auto.
Qed.

(** A difference taken from a number no larger than the minuend. *)
Lemma sub_monotone (v lo hi : float) :
  is_finite v = true -> is_finite (hi - lo) = true ->
  B2R lo <= B2R v <= B2R hi ->
  is_finite (v - lo) = true /\ 0 <= B2R (v - lo) <= B2R (hi - lo).
Proof.
  intros Hv Hd Hb.
  destruct (sub_finite_inv hi lo Hd) as [Hhi Hlo].
  destruct (sub_R v lo Hv Hlo) as (f & Hr & Hfin & _).
  destruct (sub_R hi lo Hhi Hlo) as (f' & Hr' & Hfin' & Hinf').
  assert (Hlt' : Rabs f' < bpow 1024).
  { destruct (Rlt_le_dec (Rabs f') (bpow 1024)) as [H|H]; [exact H|].
    rewrite (Hinf' H) in Hd. discriminate. }
  destruct (Hfin' Hlt') as [_ E']. rewrite E'.
  assert (H0 : 0 <= f) by (apply (RND_nonneg _ _ Hr); lra).
  assert (H1 : f <= f') by (apply (RND_le _ _ _ _ Hr Hr'); lra).
  assert (Hlt : Rabs f < bpow 1024).
  { rewrite Rabs_right by lra. apply Rle_lt_trans with (Rabs f'); [|exact Hlt'].
    rewrite Rabs_right by lra. exact H1. }
  destruct (Hfin Hlt) as [H2 E]. rewrite E. auto.
Qed.

(** A quotient of a non-negative number by a larger one is between 0 and 1. *)
Lemma div_fraction (n d : float) :
  is_finite n = true -> is_finite d = true ->
  0 <= B2R n <= B2R d -> 0 < B2R d ->
  is_finite (n / d) = true /\ 0 <= B2R (n / d) <= 1.
Proof.
  intros Hn Hd Hb Hpos.
  destruct (div_R n d Hn Hd ltac:(lra)) as (f & Hr & Hfin & _).
  destruct (RND_between _ f 0 1 Hr) as [Hf Hlt].
  { rewrite B2R_0, B2R_1. split.
    - apply Rmult_le_pos; [lra|]. apply Rlt_le, Rinv_0_lt_compat, Hpos.
    - apply (Rmult_le_reg_r (B2R d)); [exact Hpos|].
      unfold Rdiv. rewrite Rmult_assoc, Rinv_l by lra. lra. }
  destruct (Hfin Hlt) as [H1 E]. rewrite E, B2R_0, B2R_1 in *. auto.
Qed.

(** Every finite number is a whole number of times [2^-1074]. *)
Lemma B2R_quantum (v : float) : exists k : Z, B2R v = IZR k * bpow (-1074).
Proof.
  unfold B2R. pose proof (Prim2SF_valid v) as Hv.
  destruct (Prim2SF v) as [s|s| |s m e]; try (exists 0%Z; cbn [SF2R]; ring).
  destruct (valid_finite s m e Hv) as (He & _).
  exists (cond_Zopp s (Zpos m) * 2 ^ (e + 1074))%Z.
  cbn [SF2R]. rewrite mult_IZR, <- bpow_IZR by lia.
  rewrite Rmult_assoc, <- bpow_add. do 2 f_equal. lia.
Qed.

(** The difference of two distinct finite numbers does not round to zero. *)
Lemma sub_positive (lo hi : float) :
  is_finite (hi - lo) = true -> B2R lo < B2R hi -> 0 < B2R (hi - lo).
Proof.
  intros Hd Hlt.
  destruct (sub_finite_inv hi lo Hd) as [Hhi Hlo].
  destruct (sub_R hi lo Hhi Hlo) as (f & Hr & Hfin & Hinf).
  assert (Hb : Rabs f < bpow 1024).
  { destruct (Rlt_le_dec (Rabs f) (bpow 1024)) as [H|H]; [exact H|].
    rewrite (Hinf H) in Hd. discriminate. }
  destruct (Hfin Hb) as [_ E]. rewrite E.
  destruct (B2R_quantum hi) as [k1 E1]. destruct (B2R_quantum lo) as [k2 E2].
  pose proof (bpow_pos (-1074)) as Hq.
  assert (Hk : (k2 < k1)%Z).
  { apply lt_IZR. rewrite E1, E2 in Hlt. nra. }
  assert (Hge : bpow (-1074) <= B2R hi - B2R lo).
  { rewrite E1, E2, <- Rmult_minus_distr_r, <- minus_IZR.
    assert (1 <= IZR (k1 - k2)) by (apply IZR_le; lia). nra. }
  assert (Hmin : RND (bpow (-1074)) (bpow (-1074))).
  { left. split; [lra|]. replace (bpow (-1074)) with (IZR 1 * bpow (-1074)) by ring.
    apply Rnd_canonical; lia. }
  pose proof (RND_le _ _ _ _ Hmin Hr Hge). lra.
Qed.

End Rounding.

(** ** Binary64 facts *)

Module FloatFacts.
Local Open Scope float_scope.

Lemma eqb_zero_inv (v : float) :
  (v =? 0) = true -> exists s, Prim2SF v = S754_zero s.
Proof.
  rewrite FloatAxioms.eqb_spec. change (Prim2SF 0) with (S754_zero false).
  destruct (Prim2SF v) as [s| s | |s m e]; try discriminate.
  - eauto.
  - destruct s; discriminate.
  - destruct s; discriminate.
Qed.

Lemma eqb_zero_intro (v : float) (s : bool) :
  Prim2SF v = S754_zero s -> (v =? 0) = true.
Proof.
  intros H. rewrite FloatAxioms.eqb_spec, H. reflexivity.
Qed.

Lemma is_finite_inv (v : float) :
  is_finite v = true ->
  (exists s, Prim2SF v = S754_zero s) \/ (exists s m e, Prim2SF v = S754_finite s m e).
Proof.
  unfold is_finite, is_nan, is_infinity.
  rewrite !FloatAxioms.eqb_spec, abs_spec. change (Prim2SF infinity) with (S754_infinity false).
  destruct (Prim2SF v) as [s| s | |s m e]; simpl; try discriminate; eauto 6.
  destruct s; vm_compute; discriminate.
Qed.

(** A finite number times a zero is a zero, on either side. *)
Lemma mul_zero_r (u z : float) :
  is_finite u = true -> (z =? 0) = true -> (u * z =? 0) = true.
Proof.
  intros Hu Hz. apply eqb_zero_inv in Hz as [sz Hz].
  apply is_finite_inv in Hu as [[s Hu]|(s & m & e & Hu)].
  - apply (eqb_zero_intro _ (xorb s sz)). rewrite mul_spec, Hu, Hz. reflexivity.
  - apply (eqb_zero_intro _ (xorb s sz)). rewrite mul_spec, Hu, Hz. reflexivity.
Qed.

Lemma mul_zero_l (u z : float) :
  is_finite u = true -> (z =? 0) = true -> (z * u =? 0) = true.
Proof.
  intros Hu Hz. apply eqb_zero_inv in Hz as [sz Hz].
  apply is_finite_inv in Hu as [[s Hu]|(s & m & e & Hu)].
  - apply (eqb_zero_intro _ (xorb sz s)). rewrite mul_spec, Hu, Hz. reflexivity.
  - apply (eqb_zero_intro _ (xorb sz s)). rewrite mul_spec, Hu, Hz. reflexivity.
Qed.

(** Counting up to fifty in binary64 is exact. *)
Lemma count_succ (k : nat) :
  (k < 50)%nat -> JS.of_nat k + 1 = JS.of_nat (S k).
Proof.
  intros Hk.
  assert (H : forallb (fun k => Leibniz.eqb (JS.of_nat k + 1) (JS.of_nat (S k)))
                      (seq 0 50) = true) by (vm_compute; reflexivity).
  rewrite forallb_forall in H.
  apply Leibniz.eqb_spec, H, in_seq. lia.
Qed.


End FloatFacts.

(** ** The face loop of the estimator *)

Section Estimator.
Import Browser.
Local Open Scope float_scope.

Variable Math_acos : float -> float.
Variable parseFloat : string -> float.
Variable SunCalc_getTimes : string -> float -> float -> float * float.

Lemma afterDraws_0 (st : State) : Reference.afterDraws 0 st = st.
Proof.
  destruct st. unfold Reference.afterDraws. simpl. f_equal. lia.
Qed.

Lemma afterDraws_add (n m : nat) (st : State) :
  Reference.afterDraws m (Reference.afterDraws n st) = Reference.afterDraws (n + m) st.
Proof.
  unfold Reference.afterDraws. simpl. f_equal. lia.
Qed.

Lemma Math_random_state (st : State) :
  snd (Math_random st) = Reference.afterDraws 1 st.
Proof.
  unfold Math_random, Reference.afterDraws. simpl. f_equal. lia.
Qed.

(** The sampling loop only draws random numbers: three for each ray. *)
Lemma sampleRays_state (i : nat) (point direction : THREE.Vector3)
    (scene : THREE.Scene) (n : float) (st : State) :
  snd (shadowCalculate.sampleRays i point direction scene n st)
  = Reference.afterDraws (3 * i) st.
Proof.
  revert n st. induction i as [|i IH]; intros n st.
  - simpl. symmetry. apply afterDraws_0.
  - cbn [shadowCalculate.sampleRays].
    destruct (Math_random st) as [r1 st1] eqn:E1.
    destruct (Math_random st1) as [r2 st2] eqn:E2.
    destruct (Math_random st2) as [r3 st3] eqn:E3.
    rewrite IH.
    apply (f_equal snd) in E1, E2, E3. rewrite Math_random_state in E1, E2, E3.
    simpl in E1, E2, E3. subst st1 st2 st3.
    rewrite !afterDraws_add. f_equal. lia.
Qed.

Lemma isPointInShadow_state (point : THREE.Vector3)
    (light : THREE.DirectionalLight) (scene : THREE.Scene) (numRays : nat)
    (st : State) :
  snd (shadowCalculate.isPointInShadow point light scene numRays st)
  = Reference.afterDraws (3 * numRays) st.
Proof.
  unfold shadowCalculate.isPointInShadow.
  pose proof (sampleRays_state numRays point
    (THREE.normalize (THREE.subVectors (THREE.position light) point)) scene 0 st) as H.
  destruct (shadowCalculate.sampleRays _ _ _ _ _ _) as [n st']. exact H.
Qed.

(** The counter of shadowed rays is a whole number below the number of
    samples. *)
Lemma sampleRays_count (i : nat) (point direction : THREE.Vector3)
    (scene : THREE.Scene) (k : nat) (st : State) :
  (k + i <= 50)%nat ->
  exists k', (k' <= k + i)%nat
    /\ fst (shadowCalculate.sampleRays i point direction scene (JS.of_nat k) st)
       = JS.of_nat k'.
Proof.
  revert k st. induction i as [|i IH]; intros k st Hk.
  - exists k. split; [lia | reflexivity].
  - cbn [shadowCalculate.sampleRays].
    destruct (Math_random st) as [r1 st1].
    destruct (Math_random st1) as [r2 st2].
    destruct (Math_random st2) as [r3 st3].
    destruct (shadowCalculate.rayIsShadowed _ _ _).
    + rewrite FloatFacts.count_succ by lia.
      destruct (IH (S k) st3) as (k' & Hk' & E); [lia|].
      exists k'. split; [lia | exact E].
    + destruct (IH k st3) as (k' & Hk' & E); [lia|].
      exists k'. split; [lia | exact E].
Qed.

Lemma isPointInShadow_range (point : THREE.Vector3)
    (light : THREE.DirectionalLight) (scene : THREE.Scene) (st : State) :
  exists k, (k <= 50)%nat
    /\ fst (shadowCalculate.isPointInShadow point light scene
              shadowCalculate.numRays_default st)
       = JS.of_nat k / JS.of_nat 50.
Proof.
  unfold shadowCalculate.isPointInShadow, shadowCalculate.numRays_default.
  destruct (sampleRays_count 50 point
    (THREE.normalize (THREE.subVectors (THREE.position light) point)) scene 0 st)
    as (k & Hk & E); [lia|].
  change (JS.of_nat 0) with 0 in E.
  destruct (shadowCalculate.sampleRays _ _ _ _ _ _) as [n st'].
  simpl in E. subst n. exists k. split; [lia | reflexivity].
Qed.

(** One turn of the loop handles the face as the reference pass does. *)
Lemma faceStep_datum (GHI : float) (vertices : list float)
    (light : THREE.DirectionalLight) (scene : THREE.Scene)
    (a b c : option nat) (t : shadowCalculate.Totals) (st : State) :
  shadowCalculate.faceStep Math_acos GHI vertices light scene a b c t st
  = (Reference.addFace GHI t
       (fst (Reference.faceDatum Math_acos vertices light scene (a, b, c) st)),
     snd (Reference.faceDatum Math_acos vertices light scene (a, b, c) st)).
Proof.
  unfold shadowCalculate.faceStep, Reference.faceDatum, Reference.faceCentroid,
    Reference.corners.
  destruct (shadowCalculate.isPointInShadow _ _ _ _ _) as [sf st'].
  unfold Reference.addFace, Reference.classifyFace, Reference.faceNormal,
    Reference.corners. simpl.
  destruct (shadowCalculate.isVertical _ _); reflexivity.
Qed.

(** Induction on an index buffer, three indices at a time. *)
Lemma triples_ind (P : list nat -> Prop) :
  P [] -> (forall a, P [a]) -> (forall a b, P [a; b]) ->
  (forall a b c rest, P rest -> P (a :: b :: c :: rest)) ->
  forall l, P l.
Proof.
  intros H0 H1 H2 H3 l.
  assert (H : P l /\ (forall a, P (a :: l)) /\ (forall a b, P (a :: b :: l))).
  { induction l as [|c l (IH0 & IH1 & IH2)]; [auto|].
    split; [apply IH1|]. split; [intros; apply IH2|].
    intros. apply H3, IH0. }
  apply H.
Qed.

Lemma faceLoop_pass (GHI : float) (vertices : list float)
    (light : THREE.DirectionalLight) (scene : THREE.Scene)
    (indices : list nat) (t : shadowCalculate.Totals) (st : State) :
  shadowCalculate.faceLoop Math_acos GHI vertices light scene indices t st
  = (fold_left (Reference.addFace GHI)
       (fst (Reference.facePass Math_acos vertices light scene
               (Reference.triangles indices) st)) t,
     snd (Reference.facePass Math_acos vertices light scene
            (Reference.triangles indices) st)).
Proof.
  revert t st. induction indices using triples_ind; intros t st.
  - reflexivity.
  - cbn [shadowCalculate.faceLoop Reference.triangles Reference.facePass].
    rewrite faceStep_datum. destruct (Reference.faceDatum _ _ _ _ _ _). reflexivity.
  - cbn [shadowCalculate.faceLoop Reference.triangles Reference.facePass].
    rewrite faceStep_datum. destruct (Reference.faceDatum _ _ _ _ _ _). reflexivity.
  - cbn [shadowCalculate.faceLoop Reference.triangles Reference.facePass].
    rewrite faceStep_datum.
    destruct (Reference.faceDatum _ _ _ _ _ _) as [d st1]. cbn [fst snd].
    rewrite IHindices.
    destruct (Reference.facePass _ _ _ _ _ _) as [ds st2]. reflexivity.
Qed.

Lemma faceDatum_state (vertices : list float) (light : THREE.DirectionalLight)
    (scene : THREE.Scene) (f : Reference.Face) (st : State) :
  snd (Reference.faceDatum Math_acos vertices light scene f st)
  = Reference.afterDraws Reference.drawsPerFace st.
Proof.
  unfold Reference.faceDatum.
  pose proof (isPointInShadow_state (Reference.faceCentroid vertices f) light scene
                shadowCalculate.numRays_default st) as H.
  destruct (shadowCalculate.isPointInShadow _ _ _ _ _) as [sf st']. exact H.
Qed.

(** The pass changes the state by its random draws only. *)
Lemma facePass_state (vertices : list float) (light : THREE.DirectionalLight)
    (scene : THREE.Scene) (faces : list Reference.Face) (st : State) :
  snd (Reference.facePass Math_acos vertices light scene faces st)
  = Reference.afterDraws (Reference.drawsPerFace * List.length faces) st.
Proof.
  revert st. induction faces as [|f faces IH]; intros st.
  - cbn [Reference.facePass List.length snd]. rewrite Nat.mul_0_r.
    symmetry. apply afterDraws_0.
  - cbn [Reference.facePass].
    pose proof (faceDatum_state vertices light scene f st) as Hd.
    destruct (Reference.faceDatum _ _ _ _ _ _) as [d st1].
    cbn [snd] in Hd. subst st1.
    specialize (IH (Reference.afterDraws Reference.drawsPerFace st)).
    destruct (Reference.facePass _ _ _ _ _ _) as [ds st2].
    cbn [snd List.length] in IH |- *.
    rewrite IH, afterDraws_add, Nat.mul_succ_r. f_equal. lia.
Qed.

Lemma facePass_length (vertices : list float) (light : THREE.DirectionalLight)
    (scene : THREE.Scene) (faces : list Reference.Face) (st : State) :
  List.length (fst (Reference.facePass Math_acos vertices light scene faces st))
  = List.length faces.
Proof.
  revert st. induction faces as [|f faces IH]; intros st; [reflexivity|].
  cbn [Reference.facePass].
  destruct (Reference.faceDatum _ _ _ _ _ _) as [d st1].
  specialize (IH st1). destruct (Reference.facePass _ _ _ _ _ _) as [ds st2].
  simpl in *. lia.
Qed.

(** The five running totals, read off the faces taken in. *)
Lemma fold_addFace_bipvValues (GHI : float) (ds : list Reference.FaceDatum)
    (t : shadowCalculate.Totals) :
  shadowCalculate.bipvValues (fold_left (Reference.addFace GHI) ds t)
  = shadowCalculate.bipvValues t ++ map (Reference.entry GHI) ds.
Proof.
  revert t. induction ds as [|d ds IH]; intros t; simpl.
  - symmetry. apply app_nil_r.
  - rewrite IH. unfold Reference.addFace.
    destruct (Reference.class d); simpl; rewrite <- app_assoc; reflexivity.
Qed.

Lemma fold_addFace_sums (GHI : float) (ds : list Reference.FaceDatum)
    (t : shadowCalculate.Totals) :
  let sum ty w acc :=
    fold_left (fun acc d => if Reference.is_class ty d then acc + w d else acc) ds acc in
  let t' := fold_left (Reference.addFace GHI) ds t in
  shadowCalculate.totalRooftopArea t'
    = sum shadowCalculate.Rooftop Reference.area (shadowCalculate.totalRooftopArea t)
  /\ shadowCalculate.totalVerticalArea t'
    = sum shadowCalculate.Vertical Reference.area (shadowCalculate.totalVerticalArea t)
  /\ shadowCalculate.totalShadowFractionRooftop t'
    = sum shadowCalculate.Rooftop Reference.weightedShadow
          (shadowCalculate.totalShadowFractionRooftop t)
  /\ shadowCalculate.totalShadowFractionVertical t'
    = sum shadowCalculate.Vertical Reference.weightedShadow
          (shadowCalculate.totalShadowFractionVertical t).
Proof.
  cbv zeta. revert t. induction ds as [|d ds IH]; intros t; simpl.
  - auto.
  - destruct (IH (Reference.addFace GHI t d)) as (H1 & H2 & H3 & H4).
    rewrite H1, H2, H3, H4. unfold Reference.addFace, Reference.is_class.
    destruct (Reference.class d); simpl; auto.
Qed.

(** Reading the info card after a write. *)
Lemma reported_write_eq (id : string) (t : Text) (st : State) :
  Reference.reported id (write_innerText id t st)
  = (fun _ => t) <$> getElementById id st.
Proof.
  unfold Reference.reported, getElementById, write_innerText. simpl.
  rewrite lookup_alter_eq. destruct (document st !! id); reflexivity.
Qed.

Lemma reported_write_ne (id id' : string) (t : Text) (st : State) :
  id' <> id ->
  Reference.reported id (write_innerText id' t st) = Reference.reported id st.
Proof.
  intros H. unfold Reference.reported, getElementById, write_innerText. simpl.
  rewrite lookup_alter_ne by exact H. reflexivity.
Qed.

Lemma reported_write_display (id id' d : string) (st : State) :
  Reference.reported id (write_display id' d st) = Reference.reported id st.
Proof.
  unfold Reference.reported, getElementById, write_display. simpl.
  destruct (decide (id' = id)) as [->|H].
  - rewrite lookup_alter_eq. destruct (document st !! id); reflexivity.
  - rewrite lookup_alter_ne by exact H. reflexivity.
Qed.

Lemma present_write {A} (v : A) (id id' : string) (t : Text) (st : State) :
  (fun _ => v) <$> getElementById id (write_innerText id' t st)
  = (fun _ => v) <$> getElementById id st.
Proof.
  unfold getElementById, write_innerText. simpl.
  destruct (decide (id' = id)) as [->|H].
  - rewrite lookup_alter_eq. destruct (document st !! id); reflexivity.
  - rewrite lookup_alter_ne by exact H. reflexivity.
Qed.

(** What the estimator returns and leaves behind for an indexed mesh. *)
Lemma calculateRooftopArea_indexed (building : THREE.Mesh)
    (light : THREE.DirectionalLight) (scene : THREE.Scene) (st : State)
    (ghiElement dateInputElement : Element) (indices : list nat) :
  getElementById "ghi" st = Some ghiElement ->
  getElementById "dateInput" st = Some dateInputElement ->
  THREE.index (THREE.geometry building) = Some indices ->
  let GHI := Reference.ghiOf parseFloat ghiElement in
  let ds :=
    fst (Reference.facePass Math_acos
           (THREE.position_array (THREE.geometry building)) light scene
           (Reference.triangles indices) st) in
  let shade := Reference.meshShadowFraction ds in
  shadowCalculate.calculateRooftopArea Math_acos parseFloat SunCalc_getTimes
    building light scene st
  = (Returned (map (Reference.entry GHI) ds),
     shadowCalculate.updateInfoCard (shadowCalculate.displayName building)
       (sunPosition.getTotalDaytime SunCalc_getTimes (value dateInputElement))
       (Reference.meshArea ds)
       (Reference.sumOver shadowCalculate.Rooftop Reference.area ds)
       shade
       (shade * shadowCalculate.rooftopScale)
       (GHI * Reference.meshArea ds * (1 - shade) * shadowCalculate.efficiencyFactor)
       (GHI * Reference.sumOver shadowCalculate.Rooftop Reference.area ds
        * (1 - shade * shadowCalculate.rooftopScale)
        * shadowCalculate.efficiencyFactor)
       (Reference.afterDraws
          (Reference.drawsPerFace * List.length (Reference.triangles indices)) st)).
Proof.
  intros Hghi Hdate Hindex. cbv zeta.
  unfold shadowCalculate.calculateRooftopArea.
  rewrite Hghi, Hdate, Hindex, faceLoop_pass.
  pose proof (facePass_state (THREE.position_array (THREE.geometry building))
                light scene (Reference.triangles indices) st) as Hst.
  destruct (Reference.facePass _ _ _ _ _ _) as [ds st'] eqn:Epass.
  cbn [fst snd] in *. subst st'.
  fold (Reference.ghiOf parseFloat ghiElement).
  set (GHI := Reference.ghiOf parseFloat ghiElement).
  destruct (fold_addFace_sums GHI ds shadowCalculate.Totals_initial)
    as (H1 & H2 & H3 & H4).
  rewrite fold_addFace_bipvValues. simpl.
  unfold shadowCalculate.aggregate. simpl.
  rewrite H1, H2, H3, H4. reflexivity.
Qed.

(** The [k]-th face of the pass is sampled after the draws of the [k]
    faces before it. *)
Lemma facePass_lookup (vertices : list float) (light : THREE.DirectionalLight)
    (scene : THREE.Scene) (faces : list Reference.Face) (st : State) (k : nat) :
  fst (Reference.facePass Math_acos vertices light scene faces st) !! k
  = (fun f => fst (Reference.faceDatum Math_acos vertices light scene f
                     (Reference.afterDraws (Reference.drawsPerFace * k) st)))
    <$> faces !! k.
Proof.
  revert st k. induction faces as [|f faces IH]; intros st k.
  - destruct k; reflexivity.
  - cbn [Reference.facePass].
    pose proof (faceDatum_state vertices light scene f st) as Hd.
    destruct (Reference.faceDatum _ _ _ _ _ _) as [d st1] eqn:Ed.
    cbn [snd] in Hd. subst st1.
    specialize (IH (Reference.afterDraws Reference.drawsPerFace st)).
    destruct (Reference.facePass _ _ _ _ _ _) as [ds st2]. cbn [fst] in IH |- *.
    destruct k as [|k].
    + rewrite !lookup_cons. cbn [fmap option_fmap option_map].
      rewrite Nat.mul_0_r, afterDraws_0, Ed. reflexivity.
    + rewrite !lookup_cons, (IH k). destruct (faces !! k) as [f'|]; [|reflexivity].
      cbn [fmap option_fmap option_map]. rewrite afterDraws_add, Nat.mul_succ_r.
      replace (Reference.drawsPerFace + Reference.drawsPerFace * k)%nat
        with (Reference.drawsPerFace * k + Reference.drawsPerFace)%nat by lia.
      reflexivity.
Qed.

Lemma faceDatum_fields (vertices : list float) (light : THREE.DirectionalLight)
    (scene : THREE.Scene) (st : State) (k : nat) (f : Reference.Face) :
  let d := fst (Reference.faceDatum Math_acos vertices light scene f
                  (Reference.afterDraws (Reference.drawsPerFace * k) st)) in
  Reference.face d = f
  /\ Reference.area d = Reference.faceArea vertices f
  /\ Reference.shadow d = Reference.shadowAt vertices light scene st k f
  /\ Reference.class d
     = Reference.classifyFace Math_acos (Reference.faceNormal vertices f).
Proof.
  cbv zeta. unfold Reference.faceDatum, Reference.shadowAt.
  destruct (shadowCalculate.isPointInShadow _ _ _ _ _) as [sf st'].
  cbn [fst Reference.face Reference.area Reference.shadow Reference.class]. auto.
Qed.

(** C1: for every triangle of an indexed mesh the estimator returns one
    entry, in buffer order, that carries the triangle's indices, its class
    and the PV value [ghi * triangleArea * (1 - shadowFraction) * 0.15],
    where [shadowFraction] is the fraction sampled from the triangle's
    centroid; the value is the same expression whether the face is
    classified Rooftop or Vertical. *)
Theorem per_face_pv_value (building : THREE.Mesh)
    (light : THREE.DirectionalLight) (scene : THREE.Scene) (st : State)
    (ghiElement dateInputElement : Element) (indices : list nat) :
  getElementById "ghi" st = Some ghiElement ->
  getElementById "dateInput" st = Some dateInputElement ->
  THREE.index (THREE.geometry building) = Some indices ->
  let ghi := Reference.ghiOf parseFloat ghiElement in
  let vertices := THREE.position_array (THREE.geometry building) in
  exists values,
    fst (shadowCalculate.calculateRooftopArea Math_acos parseFloat
           SunCalc_getTimes building light scene st) = Returned values
    /\ List.length values = List.length (Reference.triangles indices)
    /\ forall k f, Reference.triangles indices !! k = Some f ->
         exists v, values !! k = Some v
           /\ (shadowCalculate.a v, shadowCalculate.b v, shadowCalculate.c v) = f
           /\ shadowCalculate.type v
              = Reference.classifyFace Math_acos (Reference.faceNormal vertices f)
           /\ shadowCalculate.bipvValue v
              = ghi * Reference.faceArea vertices f
                * (1 - Reference.shadowAt vertices light scene st k f)
                * shadowCalculate.efficiencyFactor.
Proof.
  intros Hghi Hdate Hindex ghi vertices.
  rewrite (calculateRooftopArea_indexed building light scene st ghiElement
             dateInputElement indices Hghi Hdate Hindex).
  cbn [fst]. eexists. split; [reflexivity|]. split.
  - rewrite length_map. apply facePass_length.
  - intros k f Hk.
    change (map (Reference.entry (Reference.ghiOf parseFloat ghiElement)))
      with (fmap (M := list) (Reference.entry ghi)).
    rewrite list_lookup_fmap, facePass_lookup, Hk. cbn [fmap option_fmap option_map].
    eexists. split; [reflexivity|].
    destruct (faceDatum_fields vertices light scene st k f) as (Hf & Ha & Hs & Hc).
    fold vertices.
    set (d := fst (Reference.faceDatum Math_acos vertices light scene f _)) in *.
    unfold Reference.entry, Reference.pvValue. rewrite Hf, Ha, Hs.
    destruct f as [[a b] c].
    cbn [shadowCalculate.a shadowCalculate.b shadowCalculate.c
         shadowCalculate.type shadowCalculate.bipvValue].
    split; [reflexivity|]. split; [exact Hc | reflexivity].
Qed.

Ltac read_card :=
  unfold shadowCalculate.updateInfoCard;
  rewrite reported_write_display;
  repeat (rewrite reported_write_ne by discriminate);
  rewrite reported_write_eq;
  repeat rewrite present_write;
  reflexivity.

(** C2 (amended): in one pass over an indexed mesh the sums are weighted
    by area before they are aggregated: the total area shown is the rooftop
    area plus the vertical area, the total shadow fraction shown is the sum
    over all faces of (shadow fraction * area) divided by the total area,
    and the total PV value shown is
    [ghi * totalArea * (1 - totalShadowFraction) * 0.15].  The rooftop
    shadow fraction shown is the total shadow fraction times 0.1753, not the
    weighted mean over the rooftop faces. *)
Theorem aggregates_reported (building : THREE.Mesh)
    (light : THREE.DirectionalLight) (scene : THREE.Scene) (st : State)
    (ghiElement dateInputElement : Element) (indices : list nat) :
  getElementById "ghi" st = Some ghiElement ->
  getElementById "dateInput" st = Some dateInputElement ->
  THREE.index (THREE.geometry building) = Some indices ->
  let ghi := Reference.ghiOf parseFloat ghiElement in
  let ds :=
    fst (Reference.facePass Math_acos
           (THREE.position_array (THREE.geometry building)) light scene
           (Reference.triangles indices) st) in
  let st' :=
    snd (shadowCalculate.calculateRooftopArea Math_acos parseFloat
           SunCalc_getTimes building light scene st) in
  let rooftopArea := Reference.sumOver shadowCalculate.Rooftop Reference.area ds in
  let verticalArea := Reference.sumOver shadowCalculate.Vertical Reference.area ds in
  let totalArea := rooftopArea + verticalArea in
  let totalShadowFraction :=
    (Reference.sumOver shadowCalculate.Rooftop Reference.weightedShadow ds
     + Reference.sumOver shadowCalculate.Vertical Reference.weightedShadow ds)
    / totalArea in
  Reference.reported "totalArea" st'
    = (fun _ => Fixed2 "Total Area (Rooftop + Vertical): " totalArea " sq.m")
      <$> getElementById "totalArea" st
  /\ Reference.reported "rooftopArea" st'
    = (fun _ => Fixed2 "Rooftop Area: " rooftopArea " sq.m")
      <$> getElementById "rooftopArea" st
  /\ Reference.reported "shadowFraction" st'
    = (fun _ => Fixed2 "Average Shadow Fraction Over Total Area: "
                       totalShadowFraction "")
      <$> getElementById "shadowFraction" st
  /\ Reference.reported "pvValue" st'
    = (fun _ => Fixed2 "Total PV Value: "
                  (ghi * totalArea * (1 - totalShadowFraction)
                   * shadowCalculate.efficiencyFactor) " kWhr")
      <$> getElementById "pvValue" st
  /\ Reference.reported "shadowFractionRooftop" st'
    = (fun _ => Fixed2 "Rooftop Shadow Fraction: "
                  (totalShadowFraction * shadowCalculate.rooftopScale) "")
      <$> getElementById "shadowFractionRooftop" st.
Proof.
  intros Hghi Hdate Hindex. cbv zeta.
  rewrite (calculateRooftopArea_indexed building light scene st ghiElement
             dateInputElement indices Hghi Hdate Hindex).
  cbn [snd]. unfold Reference.meshArea, Reference.meshShadowFraction.
  repeat split; read_card.
Qed.

(** C4 (amended): for an indexed mesh the estimator returns the per-face
    values only.  It reads GHI and the date from the document, draws its
    random numbers from the random source, and delivers the aggregates by
    writing them into the info-card elements, which it then shows; the
    console and the alerts are left alone. *)
Theorem estimator_effects (building : THREE.Mesh)
    (light : THREE.DirectionalLight) (scene : THREE.Scene) (st : State)
    (ghiElement dateInputElement : Element) (indices : list nat) :
  getElementById "ghi" st = Some ghiElement ->
  getElementById "dateInput" st = Some dateInputElement ->
  THREE.index (THREE.geometry building) = Some indices ->
  let ghi := Reference.ghiOf parseFloat ghiElement in
  let ds :=
    fst (Reference.facePass Math_acos
           (THREE.position_array (THREE.geometry building)) light scene
           (Reference.triangles indices) st) in
  let result :=
    shadowCalculate.calculateRooftopArea Math_acos parseFloat SunCalc_getTimes
      building light scene st in
  let shade := Reference.meshShadowFraction ds in
  fst result = Returned (map (Reference.entry ghi) ds)
  /\ snd result
     = shadowCalculate.updateInfoCard (shadowCalculate.displayName building)
         (sunPosition.getTotalDaytime SunCalc_getTimes (value dateInputElement))
         (Reference.meshArea ds)
         (Reference.sumOver shadowCalculate.Rooftop Reference.area ds)
         shade
         (shade * shadowCalculate.rooftopScale)
         (ghi * Reference.meshArea ds * (1 - shade)
          * shadowCalculate.efficiencyFactor)
         (ghi * Reference.sumOver shadowCalculate.Rooftop Reference.area ds
          * (1 - shade * shadowCalculate.rooftopScale)
          * shadowCalculate.efficiencyFactor)
         (Reference.afterDraws
            (Reference.drawsPerFace * List.length (Reference.triangles indices)) st)
  /\ style_display <$> getElementById "infoCard" (snd result)
     = (fun _ => "block") <$> getElementById "infoCard" st
  /\ console (snd result) = console st
  /\ alerts (snd result) = alerts st.
Proof.
  intros Hghi Hdate Hindex. cbv zeta.
  rewrite (calculateRooftopArea_indexed building light scene st ghiElement
             dateInputElement indices Hghi Hdate Hindex).
  cbn [fst snd]. split; [reflexivity|]. split; [reflexivity|].
  split; [|split; reflexivity].
  unfold shadowCalculate.updateInfoCard, getElementById, write_display.
  cbn [document set_document]. rewrite lookup_alter_eq.
  repeat (unfold write_innerText at 1; cbn [document set_document];
          rewrite lookup_alter_ne by discriminate).
  cbn [Reference.afterDraws document].
  destruct (document st !! "infoCard"); reflexivity.
Qed.



(** The estimator looks at the position of the light and at nothing else
    of it. *)
Lemma isPointInShadow_light (point : THREE.Vector3)
    (light light' : THREE.DirectionalLight) (scene : THREE.Scene)
    (numRays : nat) (st : State) :
  THREE.position light = THREE.position light' ->
  shadowCalculate.isPointInShadow point light scene numRays st
  = shadowCalculate.isPointInShadow point light' scene numRays st.
Proof.
  intros H. unfold shadowCalculate.isPointInShadow. rewrite H. reflexivity.
Qed.

Lemma faceLoop_light (GHI : float) (vertices : list float)
    (light light' : THREE.DirectionalLight) (scene : THREE.Scene)
    (indices : list nat) (t : shadowCalculate.Totals) (st : State) :
  THREE.position light = THREE.position light' ->
  shadowCalculate.faceLoop Math_acos GHI vertices light scene indices t st
  = shadowCalculate.faceLoop Math_acos GHI vertices light' scene indices t st.
Proof.
  intros H.
  assert (Hstep : forall a b c t st,
    shadowCalculate.faceStep Math_acos GHI vertices light scene a b c t st
    = shadowCalculate.faceStep Math_acos GHI vertices light' scene a b c t st).
  { intros. unfold shadowCalculate.faceStep.
    rewrite (isPointInShadow_light _ light light') by exact H. reflexivity. }
  revert t st. induction indices using triples_ind; intros t st;
    cbn [shadowCalculate.faceLoop]; rewrite ?Hstep; try reflexivity.
  destruct (shadowCalculate.faceStep _ _ _ _ _ _ _ _ _ _) as [t1 st1].
  apply IHindices.
Qed.

Lemma calculateRooftopArea_light (building : THREE.Mesh)
    (light light' : THREE.DirectionalLight) (scene : THREE.Scene) (st : State) :
  THREE.position light = THREE.position light' ->
  shadowCalculate.calculateRooftopArea Math_acos parseFloat SunCalc_getTimes
    building light scene st
  = shadowCalculate.calculateRooftopArea Math_acos parseFloat SunCalc_getTimes
      building light' scene st.
Proof.
  intros H. unfold shadowCalculate.calculateRooftopArea.
  destruct (getElementById "ghi" st); [|reflexivity].
  destruct (getElementById "dateInput" st); [|reflexivity].
  destruct (THREE.index (THREE.geometry building)); [|reflexivity].
  rewrite (faceLoop_light _ _ light light') by exact H. reflexivity.
Qed.

(** Without an index buffer the estimator logs the error and returns an
    empty list; nothing else changes. *)
Lemma calculateRooftopArea_unindexed (building : THREE.Mesh)
    (light : THREE.DirectionalLight) (scene : THREE.Scene) (st : State)
    (ghiElement dateInputElement : Element) :
  getElementById "ghi" st = Some ghiElement ->
  getElementById "dateInput" st = Some dateInputElement ->
  THREE.index (THREE.geometry building) = None ->
  shadowCalculate.calculateRooftopArea Math_acos parseFloat SunCalc_getTimes
    building light scene st
  = (Returned [], console_error "Geometry must have an index" st).
Proof.
  intros Hghi Hdate Hindex. unfold shadowCalculate.calculateRooftopArea.
  rewrite Hghi, Hdate, Hindex. reflexivity.
Qed.

End Estimator.

(** ** Rays and occluders *)

Section Occlusion.
Local Open Scope float_scope.

Lemma ascInsert_In {A} (i j : THREE.Intersection A) (l : list (THREE.Intersection A)) :
  In j (THREE.ascInsert i l) <-> j = i \/ In j l.
Proof.
  induction l as [|h l IH]; simpl.
  - intuition.
  - destruct (THREE.distance h - THREE.distance i <? 0); simpl.
    + rewrite IH. intuition.
    + intuition.
Qed.

(** Sorting the hits keeps every hit and adds none. *)
Lemma ascSort_In {A} (j : THREE.Intersection A) (l : list (THREE.Intersection A)) :
  In j (THREE.ascSort l) <-> In j l.
Proof.
  induction l as [|h l IH]; simpl.
  - reflexivity.
  - rewrite ascInsert_In, IH. intuition.
Qed.

(** The hits of a traversal are the hits of the objects traversed. *)
Lemma intersectObjects_In {A} (as_object : A -> THREE.Object3D) (items : list A)
    (ray : THREE.Ray) (j : THREE.Intersection A) :
  In j (THREE.intersectObjects as_object items ray)
  <-> In (THREE.object j) items
      /\ In (THREE.distance j) (THREE.raycast (as_object (THREE.object j)) ray).
Proof.
  unfold THREE.intersectObjects. rewrite ascSort_In, in_flat_map. split.
  - intros (o & Ho & Hj). apply in_map_iff in Hj as (d & <- & Hd). simpl. auto.
  - intros [Ho Hd]. exists (THREE.object j). split; [exact Ho|].
    apply in_map_iff. exists (THREE.distance j). destruct j; simpl in *. auto.
Qed.

(** A hit passes the filter exactly when its object is not named ['Sky']. *)
Lemma validIntersect_spec (i : THREE.Intersection THREE.Object3D) :
  shadowCalculate.validIntersect i = true
  <-> THREE.name (THREE.object i) <> Some "Sky".
Proof.
  unfold shadowCalculate.validIntersect.
  destruct (THREE.name (THREE.object i)) as [n|]; [|split; [discriminate|reflexivity]].
  destruct (String.eqb_spec n "") as [->|Hn]; [split; [discriminate|reflexivity]|].
  destruct (String.eqb_spec n "Sky") as [->|Hs]; simpl.
  - split; [discriminate | intros H; contradiction H; reflexivity].
  - split; [intros _ [= H]; contradiction | reflexivity].
Qed.


End Occlusion.

(** ** Order facts on binary64 numbers *)

Module OrderFacts.
Local Open Scope float_scope.





End OrderFacts.

(** ** Picking, highlighting and colouring *)

Section Click.
Import Browser.
Local Open Scope float_scope.

Variable Math_acos : float -> float.
Variable parseFloat : string -> float.
Variable SunCalc_getTimes : string -> float -> float -> float * float.
Variable toWorking : float -> float.
Variable argumentLimit : nat.

(** The mesh that is picked is a mesh of the array, at its own place. *)
Lemma picked_lookup (buildings : list THREE.Mesh) (pick : THREE.Ray)
    (first : THREE.Intersection (nat * THREE.Mesh))
    (rest : list (THREE.Intersection (nat * THREE.Mesh))) :
  THREE.intersectObjects (fun im => THREE.mesh_object (snd im))
    (imap (fun i m => (i, m)) buildings) pick = first :: rest ->
  buildings !! fst (THREE.object first) = Some (snd (THREE.object first)).
Proof.
  intros H.
  assert (Hin : In first (THREE.intersectObjects
                  (fun im => THREE.mesh_object (snd im))
                  (imap (fun i m => (i, m)) buildings) pick))
    by (rewrite H; left; reflexivity).
  apply intersectObjects_In in Hin as [Hin _].
  apply list_elem_of_In, elem_of_lookup_imap in Hin as (i & m & -> & Hm).
  exact Hm.
Qed.

(** Reverting a highlight changes materials only. *)
Lemma revertHighlight_lookup (h : nat) (buildings : list THREE.Mesh)
    (gl : buildingUtils.Globals) (j : nat) (m : THREE.Mesh) :
  buildings !! j = Some m ->
  exists m', fst (buildingUtils.revertHighlight h buildings gl) !! j = Some m'
    /\ THREE.geometry m' = THREE.geometry m
    /\ THREE.mesh_object m' = THREE.mesh_object m.
Proof.
  intros Hj. unfold buildingUtils.revertHighlight.
  destruct (buildings !! h) as [b|] eqn:Hh; [|exists m; auto].
  destruct (buildingUtils.originalMaterials gl !! h) as [o|]; [|exists m; auto].
  cbn [fst]. destruct (decide (h = j)) as [->|Hne].
  - rewrite list_lookup_insert_eq by (apply lookup_lt_is_Some; eauto).
    rewrite Hj in Hh. injection Hh as <-. eexists. split; [reflexivity|]. auto.
  - rewrite list_lookup_insert_ne by exact Hne. exists m. auto.
Qed.

Lemma highlightBuilding_lookup (i : nat) (buildings : list THREE.Mesh)
    (gl : buildingUtils.Globals) (st : State) (m : THREE.Mesh) :
  buildings !! i = Some m ->
  fst (fst (buildingUtils.highlightBuilding i buildings gl st)) !! i
  = Some (buildingUtils.set_material (THREE.MeshStandardMaterial 0xffff00) m).
Proof.
  intros Hi. unfold buildingUtils.highlightBuilding. rewrite Hi. cbn [fst].
  apply list_lookup_insert_eq, lookup_lt_is_Some. eauto.
Qed.

Lemma highlightBuilding_length (i : nat) (buildings : list THREE.Mesh)
    (gl : buildingUtils.Globals) (st : State) :
  List.length (fst (fst (buildingUtils.highlightBuilding i buildings gl st)))
  = List.length buildings.
Proof.
  unfold buildingUtils.highlightBuilding.
  destruct (buildings !! i); [|reflexivity]. cbn [fst]. apply length_insert.
Qed.

(** Highlighting a mesh of the array takes an identifier for the new
    material: four numbers are drawn, and nothing else of the state changes. *)
Lemma highlightBuilding_state (i : nat) (buildings : list THREE.Mesh)
    (gl : buildingUtils.Globals) (st : State) (m : THREE.Mesh) :
  buildings !! i = Some m ->
  snd (buildingUtils.highlightBuilding i buildings gl st) = THREE.generateUUID st.
Proof.
  intros Hi. unfold buildingUtils.highlightBuilding. rewrite Hi. reflexivity.
Qed.

Lemma generateUUID_state (st : State) :
  THREE.generateUUID st = Reference.afterDraws 4 st.
Proof.
  unfold THREE.generateUUID, Math_random, Reference.afterDraws. cbn.
  f_equal. lia.
Qed.

(** C3 (amended): for a mesh whose geometry has no index buffer the
    estimator logs the error and returns an empty list, leaving the document
    untouched and drawing no random number.  The caller does not look at
    that outcome: the mesh it picked has already been highlighted, which took
    four numbers from [Math.random] for the identifier of the highlight
    material, and it goes on to attach an all-zero colour buffer and to
    switch vertex colours on.  The state the click leaves is the state it
    found with those four numbers drawn and the error logged. *)
Theorem unindexed_mesh_outcome (pick : THREE.Ray) (buildings : list THREE.Mesh)
    (light : THREE.DirectionalLight) (scene : THREE.Scene)
    (gl : buildingUtils.Globals) (st : State)
    (ghiElement dateInputElement : Element)
    (first : THREE.Intersection (nat * THREE.Mesh))
    (rest : list (THREE.Intersection (nat * THREE.Mesh))) :
  getElementById "ghi" st = Some ghiElement ->
  getElementById "dateInput" st = Some dateInputElement ->
  THREE.intersectObjects (fun im => THREE.mesh_object (snd im))
    (imap (fun i m => (i, m)) buildings) pick = first :: rest ->
  THREE.index (THREE.geometry (snd (THREE.object first))) = None ->
  let i := fst (THREE.object first) in
  let building := snd (THREE.object first) in
  let '(outcome, buildings', gl', st') :=
    buildingUtils.onBuildingClick Math_acos parseFloat SunCalc_getTimes toWorking
      argumentLimit pick buildings light scene gl st in
  shadowCalculate.calculateRooftopArea Math_acos parseFloat SunCalc_getTimes
    building light scene st
  = (Returned [], console_error "Geometry must have an index" st)
  /\ outcome = Returned tt
  /\ st' = console_error "Geometry must have an index" (Reference.afterDraws 4 st)
  /\ buildingUtils.highlightedBuilding gl' = Some i
  /\ exists m, buildings' !! i = Some m
       /\ THREE.material m = THREE.Single (THREE.mkMaterial 0xffff00 true true)
       /\ THREE.color_attribute (THREE.geometry m)
          = Some (replicate (THREE.position_count (THREE.geometry building) * 3) 0).
Proof.
  intros Hghi Hdate Hpick Hindex i building.
  pose proof (picked_lookup buildings pick first rest Hpick) as Hi.
  fold i building in Hi.
  unfold buildingUtils.onBuildingClick. rewrite Hpick. fold i.
  assert (Hrev : exists b1 gl1 m1,
    match buildingUtils.highlightedBuilding gl with
    | Some h => buildingUtils.revertHighlight h buildings gl
    | None => (buildings, gl)
    end = (b1, gl1)
    /\ b1 !! i = Some m1 /\ THREE.geometry m1 = THREE.geometry building).
  { destruct (buildingUtils.highlightedBuilding gl) as [h|].
    - destruct (revertHighlight_lookup h buildings gl i building Hi)
        as (m1 & Hm1 & Hg & _).
      destruct (buildingUtils.revertHighlight h buildings gl) as [b1 gl1].
      exists b1, gl1, m1. auto.
    - exists buildings, gl, building. auto. }
  destruct Hrev as (b1 & gl1 & m1 & -> & Hm1 & Hg1).
  pose proof (highlightBuilding_lookup i b1 gl1 st m1 Hm1) as Hhl.
  pose proof (highlightBuilding_length i b1 gl1 st) as Hlen.
  pose proof (highlightBuilding_state i b1 gl1 st m1 Hm1) as Hst.
  rewrite generateUUID_state in Hst.
  destruct (buildingUtils.highlightBuilding i b1 gl1 st) as [[b2 gl2] st2].
  cbn [fst snd] in Hhl, Hlen, Hst. subst st2. rewrite Hhl.
  set (hm := buildingUtils.set_material (THREE.MeshStandardMaterial 0xffff00) m1).
  assert (Hidx : THREE.index (THREE.geometry hm) = None).
  { unfold hm. cbn. rewrite Hg1. exact Hindex. }
  rewrite (calculateRooftopArea_unindexed Math_acos parseFloat SunCalc_getTimes
             hm light scene (Reference.afterDraws 4 st) ghiElement dateInputElement
             Hghi Hdate Hidx).
  unfold buildingUtils.colorBuilding, spread. cbn [map List.length Nat.leb].
  split.
  { apply (calculateRooftopArea_unindexed Math_acos parseFloat SunCalc_getTimes
             building light scene st ghiElement dateInputElement Hghi Hdate Hindex). }
  split; [reflexivity|]. split; [reflexivity|]. split; [reflexivity|].
  eexists. split.
  { apply list_lookup_insert_eq. rewrite Hlen. apply lookup_lt_is_Some. eauto. }
  unfold hm. cbn. rewrite Hg1. split; reflexivity.
Qed.


End Click.

(** ** The sun and the light *)

Section Sun.
Import Browser.
Local Open Scope float_scope.

Variable Math_acos Math_cos Math_sin : float -> float.
Variable parseFloat : string -> float.
Variable parseInt : string -> option Z.
Variable SunCalc_getTimes : string -> float -> float -> float * float.
Variable SunCalc_getPosition : string -> float -> float -> sunPosition.SunPosition.

(** What [updateSunPosition] does once the guard is passed. *)
Lemma updateSunPosition_updates (light : THREE.DirectionalLight)
    (global : sunPosition.SunPosition) (st : State)
    (dateInput timeSlider : Element) :
  getElementById "dateInput" st = Some dateInput ->
  value dateInput <> "" ->
  getElementById "timeSlider" st = Some timeSlider ->
  let sunPos :=
    SunCalc_getPosition
      (sunPosition.dateTime parseInt (value dateInput) (value timeSlider))
      sunPosition.LATITUDE sunPosition.LONGITUDE in
  let xyz :=
    sunPosition.lightVector PrimFloat.mul Math_cos Math_sin 1500
      (sunPosition.azimuth sunPos) (sunPosition.altitude sunPos) in
  sunPosition.updateSunPosition Math_cos Math_sin parseInt SunCalc_getPosition
    light global st
  = (Returned (Some (sunPosition.mkPosition (fst (fst xyz)) (snd (fst xyz)) (snd xyz))),
     THREE.mkDirectionalLight
       (THREE.mkVector3 (fst (fst xyz)) (snd (fst xyz)) (snd xyz))
       (match THREE.target_position light with
        | Some _ => Some (THREE.mkVector3 0 0 0)
        | None => None
        end)
       (if sunPosition.altitude sunPos <? 0 then 0 else 5),
     sunPosition.mkSunPosition (sunPosition.azimuth sunPos)
                               (sunPosition.altitude sunPos),
     st).
Proof.
  intros Hdate Hne Hslider. cbv zeta. unfold sunPosition.updateSunPosition.
  rewrite Hdate, Hslider.
  destruct (String.eqb_spec (value dateInput) "") as [He|_]; [contradiction|].
  reflexivity.
Qed.

(** C5 (amended): when the date and the time are read, the intensity of
    the light is set to 0 if the altitude of the sun is below 0 and to the
    nominal value 5 otherwise.  The PV estimate does not read the intensity:
    under the updated light it is what it would be under a light at the same
    position with the nominal intensity. *)
Theorem intensity_follows_altitude (light : THREE.DirectionalLight)
    (global : sunPosition.SunPosition) (st : State)
    (dateInput timeSlider : Element) :
  getElementById "dateInput" st = Some dateInput ->
  value dateInput <> "" ->
  getElementById "timeSlider" st = Some timeSlider ->
  let sunPos :=
    SunCalc_getPosition
      (sunPosition.dateTime parseInt (value dateInput) (value timeSlider))
      sunPosition.LATITUDE sunPosition.LONGITUDE in
  let light' :=
    snd (fst (fst (sunPosition.updateSunPosition Math_cos Math_sin parseInt
                     SunCalc_getPosition light global st))) in
  ((sunPosition.altitude sunPos <? 0) = true -> THREE.intensity light' = 0)
  /\ ((sunPosition.altitude sunPos <? 0) = false -> THREE.intensity light' = 5)
  /\ forall building scene st0,
       shadowCalculate.calculateRooftopArea Math_acos parseFloat SunCalc_getTimes
         building light' scene st0
       = shadowCalculate.calculateRooftopArea Math_acos parseFloat SunCalc_getTimes
           building
           (THREE.mkDirectionalLight (THREE.position light')
                                     (THREE.target_position light') 5)
           scene st0.
Proof.
  intros Hdate Hne Hslider. cbv zeta.
  rewrite (updateSunPosition_updates light global st dateInput timeSlider
             Hdate Hne Hslider).
  cbn [fst snd THREE.intensity]. split; [intros ->; reflexivity|].
  split; [intros ->; reflexivity|].
  intros building scene st0. apply calculateRooftopArea_light. reflexivity.
Qed.

(** C7 (amended): when the date element is absent or its value is empty,
    the estimator alerts, returns null and leaves the light and the global
    sun position as they are; when the date is there and the time slider is
    absent, the read of its value throws before anything is changed.  Any
    other date and time are used as they come: the light is given the
    position, target and intensity computed from whatever the ephemeris
    answers for them. *)
Theorem sun_update_guard (light : THREE.DirectionalLight)
    (global : sunPosition.SunPosition) (st : State) :
  let result :=
    sunPosition.updateSunPosition Math_cos Math_sin parseInt SunCalc_getPosition
      light global st in
  (getElementById "dateInput" st = None
   \/ value <$> getElementById "dateInput" st = Some "" ->
   result = (Returned None, light, global, alert "Please enter a date." st))
  /\ (forall dateInput,
        getElementById "dateInput" st = Some dateInput ->
        value dateInput <> "" ->
        getElementById "timeSlider" st = None ->
        result = (Threw "TypeError", light, global, st))
  /\ (forall dateInput timeSlider,
        getElementById "dateInput" st = Some dateInput ->
        value dateInput <> "" ->
        getElementById "timeSlider" st = Some timeSlider ->
        let sunPos :=
          SunCalc_getPosition
            (sunPosition.dateTime parseInt (value dateInput) (value timeSlider))
            sunPosition.LATITUDE sunPosition.LONGITUDE in
        let xyz :=
          sunPosition.lightVector PrimFloat.mul Math_cos Math_sin 1500
            (sunPosition.azimuth sunPos) (sunPosition.altitude sunPos) in
        fst (fst (fst result))
        = Returned (Some (sunPosition.mkPosition (fst (fst xyz)) (snd (fst xyz))
                                                 (snd xyz)))
        /\ THREE.position (snd (fst (fst result)))
           = THREE.mkVector3 (fst (fst xyz)) (snd (fst xyz)) (snd xyz)
        /\ THREE.intensity (snd (fst (fst result)))
           = (if sunPosition.altitude sunPos <? 0 then 0 else 5)).
Proof.
  cbv zeta. split; [|split].
  - unfold sunPosition.updateSunPosition.
    intros [-> | H]; [reflexivity|].
    destruct (getElementById "dateInput" st) as [e|]; [|discriminate].
    injection H as ->. reflexivity.
  - intros dateInput Hdate Hne Hslider. unfold sunPosition.updateSunPosition.
    rewrite Hdate, Hslider.
    destruct (String.eqb_spec (value dateInput) "") as [He|_]; [contradiction|].
    reflexivity.
  - intros dateInput timeSlider Hdate Hne Hslider.
    rewrite (updateSunPosition_updates light global st dateInput timeSlider
               Hdate Hne Hslider).
    cbn [fst snd THREE.position THREE.intensity]. auto.
Qed.

End Sun.

(** ** The light vector over the real numbers *)

Section Sphere.
Local Open Scope R_scope.


End Sphere.

(** ** The theorems on the samples *)

Section Evaluations.
Import Browser.
Local Open Scope float_scope.

(** [per_face_pv_value] on the flat roof under an open sky. *)
Lemma per_face_pv_value_witness :
  let building := Samples.flat_roof in
  let indices := [0; 1; 2; 0; 2; 3]%nat in
  let ghi := Reference.ghiOf Samples.parseFloat (Samples.input "5.5") in
  let vertices := THREE.position_array (THREE.geometry building) in
  exists values,
    fst (Samples.estimate building Samples.sun_high Samples.open_scene
           Samples.noon) = Returned values
    /\ List.length values = List.length (Reference.triangles indices)
    /\ forall k f, Reference.triangles indices !! k = Some f ->
         exists v, values !! k = Some v
           /\ (shadowCalculate.a v, shadowCalculate.b v, shadowCalculate.c v) = f
           /\ shadowCalculate.type v
              = Reference.classifyFace Samples.acos_axis
                  (Reference.faceNormal vertices f)
           /\ shadowCalculate.bipvValue v
              = ghi * Reference.faceArea vertices f
                * (1 - Reference.shadowAt vertices Samples.sun_high
                         Samples.open_scene Samples.noon k f)
                * shadowCalculate.efficiencyFactor.
Proof.
  apply (per_face_pv_value Samples.acos_axis Samples.parseFloat
           Samples.SunCalc_getTimes Samples.flat_roof Samples.sun_high
           Samples.open_scene Samples.noon (Samples.input "5.5")
           (Samples.input "2024-06-21") [0; 1; 2; 0; 2; 3]%nat);
    vm_compute; reflexivity.
Defined.

(** [aggregates_reported] on the flat roof under the canopy: what the card
    shows for the total shadow fraction and for the rooftop. *)
Lemma aggregates_reported_witness :
  let st' :=
    snd (Samples.estimate Samples.flat_roof Samples.sun_high
           Samples.covered_scene Samples.noon) in
  Reference.reported "shadowFraction" st'
  = Some (Fixed2 "Average Shadow Fraction Over Total Area: " 1 "")
  /\ Reference.reported "shadowFractionRooftop" st'
     = Some (Fixed2 "Rooftop Shadow Fraction: " shadowCalculate.rooftopScale "").
Proof.
  destruct (aggregates_reported Samples.acos_axis Samples.parseFloat
              Samples.SunCalc_getTimes Samples.flat_roof Samples.sun_high
              Samples.covered_scene Samples.noon (Samples.input "5.5")
              (Samples.input "2024-06-21") [0; 1; 2; 0; 2; 3]%nat
              eq_refl eq_refl eq_refl) as (_ & _ & Hs & _ & Hr).
  split.
  - etransitivity; [exact Hs|]. vm_compute. reflexivity.
  - etransitivity; [exact Hr|]. vm_compute. reflexivity.
Defined.

(** C2, as stated, fails on the flat roof under the canopy: every ray is
    blocked, so the weighted mean over the rooftop faces is 1, and the card
    shows 0.1753. *)
Lemma rooftop_fraction_is_not_weighted_mean :
  Reference.reported "shadowFractionRooftop"
    (snd (Samples.estimate Samples.flat_roof Samples.sun_high
            Samples.covered_scene Samples.noon))
  <> Some (Fixed2 "Rooftop Shadow Fraction: "
             (Reference.classShadowFraction shadowCalculate.Rooftop
                (fst (Reference.facePass Samples.acos_axis Samples.square
                        Samples.sun_high Samples.covered_scene
                        (Reference.triangles [0; 1; 2; 0; 2; 3]%nat)
                        Samples.noon)))
             "").
Proof.
  vm_compute. intros H. discriminate H.
Qed.

(** [estimator_effects] on the flat roof: the card is shown. *)
Lemma estimator_effects_witness :
  style_display
    <$> getElementById "infoCard"
          (snd (Samples.estimate Samples.flat_roof Samples.sun_high
                  Samples.open_scene Samples.noon))
  = Some "block".
Proof.
  destruct (estimator_effects Samples.acos_axis Samples.parseFloat
              Samples.SunCalc_getTimes Samples.flat_roof Samples.sun_high
              Samples.open_scene Samples.noon (Samples.input "5.5")
              (Samples.input "2024-06-21") [0; 1; 2; 0; 2; 3]%nat
              eq_refl eq_refl eq_refl) as (_ & _ & H & _).
  etransitivity; [exact H|]. vm_compute. reflexivity.
Defined.

(** C4, as stated, fails on the flat roof: the call changes the document. *)
Lemma estimator_writes_display :
  document (snd (Samples.estimate Samples.flat_roof Samples.sun_high
                   Samples.open_scene Samples.noon))
  <> document Samples.noon.
Proof.
  intros H.
  apply (f_equal (fun d : gmap string Element => style_display <$> d !! "infoCard"))
    in H.
  vm_compute in H. discriminate H.
Qed.



(** [unindexed_mesh_outcome] on a click that picks the mesh without an
    index buffer. *)
Lemma unindexed_mesh_outcome_witness :
  let building := Samples.soup in
  let '(outcome, buildings', gl', st') :=
    Samples.click [Samples.flat_roof; Samples.soup] Samples.open_scene
      Samples.noon in
  Samples.estimate building Samples.sun_high Samples.open_scene Samples.noon
  = (Returned [], console_error "Geometry must have an index" Samples.noon)
  /\ outcome = Returned tt
  /\ st' = console_error "Geometry must have an index"
             (Reference.afterDraws 4 Samples.noon)
  /\ buildingUtils.highlightedBuilding gl' = Some 1%nat
  /\ exists m, buildings' !! 1%nat = Some m
       /\ THREE.material m = THREE.Single (THREE.mkMaterial 0xffff00 true true)
       /\ THREE.color_attribute (THREE.geometry m)
          = Some (replicate (THREE.position_count (THREE.geometry building) * 3) 0).
Proof.
  exact (unindexed_mesh_outcome Samples.acos_axis Samples.parseFloat
           Samples.SunCalc_getTimes Samples.toWorking Samples.argumentLimit
           (THREE.mkRay (THREE.mkVector3 0 100 500) (THREE.mkVector3 0 0 (-1)))
           [Samples.flat_roof; Samples.soup] Samples.sun_high Samples.open_scene
           buildingUtils.Globals_initial Samples.noon (Samples.input "5.5")
           (Samples.input "2024-06-21")
           (THREE.mkIntersection 100 (1%nat, Samples.soup)) []
           eq_refl eq_refl eq_refl eq_refl).
Defined.

(** C3, as stated, fails on that click: the mesh without an index buffer
    ends up highlighted and coloured. *)
Lemma unindexed_mesh_is_highlighted_and_colored :
  THREE.index (THREE.geometry Samples.soup) = None
  /\ exists m, Samples.clicked !! 1%nat = Some m
       /\ THREE.material m = THREE.Single (THREE.mkMaterial 0xffff00 true true)
       /\ THREE.material m <> THREE.material Samples.soup
       /\ THREE.color_attribute (THREE.geometry m)
          = Some [0; 0; 0; 0; 0; 0; 0; 0; 0; 0; 0; 0]
       /\ THREE.color_attribute (THREE.geometry m)
          <> THREE.color_attribute (THREE.geometry Samples.soup).
Proof.
  split; [reflexivity|]. eexists.
  split; [vm_compute; reflexivity|].
  split; [reflexivity|]. split; [discriminate|].
  split; [reflexivity | discriminate].
Qed.

(** [intensity_follows_altitude] at midnight. *)
Lemma intensity_follows_altitude_witness :
  THREE.intensity Samples.night_light = 0
  /\ forall building scene st0,
       Samples.estimate building Samples.night_light scene st0
       = Samples.estimate building
           (THREE.mkDirectionalLight (THREE.position Samples.night_light)
              (THREE.target_position Samples.night_light) 5)
           scene st0.
Proof.
  destruct (intensity_follows_altitude Samples.acos_axis Samples.cos_series
              Samples.sin_series Samples.parseFloat Samples.parseInt
              Samples.SunCalc_getTimes Samples.SunCalc_getPosition
              Samples.sun_start sunPosition.sunPosition_initial Samples.midnight
              (Samples.input "2024-06-21") (Samples.input "0")
              eq_refl ltac:(discriminate) eq_refl) as (H0 & _ & Hest).
  split; [apply H0; vm_compute; reflexivity | exact Hest].
Defined.

(** C5, as stated, fails at midnight: the light has intensity 0, and the
    faces of the soffit, which nothing hides from it, get a positive PV
    value. *)
Lemma night_light_still_yields_pv :
  THREE.intensity Samples.night_light = 0
  /\ exists values,
       fst (Samples.estimate Samples.soffit Samples.night_light
              Samples.open_scene Samples.midnight) = Returned values
       /\ List.length values = 2%nat
       /\ forallb (fun v => 0 <? shadowCalculate.bipvValue v) values = true.
Proof.
  split; [vm_compute; reflexivity|]. eexists.
  split; [vm_compute; reflexivity|]. split; vm_compute; reflexivity.
Qed.

(** [sun_update_guard] with an empty date. *)
Lemma sun_update_guard_witness :
  Samples.update Samples.sun_start Samples.no_date
  = (Returned None, Samples.sun_start, sunPosition.sunPosition_initial,
     alert "Please enter a date." Samples.no_date).
Proof.
  apply (proj1 (sun_update_guard Samples.cos_series Samples.sin_series
                  Samples.parseInt Samples.SunCalc_getPosition Samples.sun_start
                  sunPosition.sunPosition_initial Samples.no_date)).
  right. vm_compute. reflexivity.
Defined.

(** C7, as stated, fails on a date that is not a date: the call returns a
    position and the light is moved to it; here the ephemeris answers [NaN]
    and the light ends at [NaN] with the nominal intensity. *)
Lemma invalid_date_moves_light :
  fst (fst (fst (Samples.update Samples.sun_start Samples.bad_date)))
  = Returned (Some (sunPosition.mkPosition nan nan nan))
  /\ Samples.stray_light
     = THREE.mkDirectionalLight (THREE.mkVector3 nan nan nan)
                                (Some (THREE.mkVector3 0 0 0)) 5
  /\ Samples.stray_light <> Samples.sun_start.
Proof.
  split; [vm_compute; reflexivity|]. split; [vm_compute; reflexivity|].
  intros H. apply (f_equal THREE.position) in H. vm_compute in H. discriminate H.
Qed.



End Evaluations.

(** * Further properties of the code *)

(** ** More binary64 facts *)

Module MoreFloatFacts.
Local Open Scope float_scope.

Lemma nan_by_spec (v : float) : Prim2SF v = S754_nan -> v = nan.
Proof. intros H. apply Prim2SF_inj. rewrite H. reflexivity. Qed.

Lemma zero_by_spec (v : float) : Prim2SF v = S754_zero false -> v = 0.
Proof. intros H. apply Prim2SF_inj. rewrite H. reflexivity. Qed.

(** A number that compares equal to zero is [0] or [-0]. *)
Lemma eqb_zero_cases (v : float) : (v =? 0) = true -> v = 0 \/ v = -0.
Proof.
  intros H. apply FloatFacts.eqb_zero_inv in H as [[|] H].
  - right. apply Prim2SF_inj. rewrite H. reflexivity.
  - left. apply zero_by_spec, H.
Qed.

(** [v - v] is [0] for a finite [v] and [NaN] otherwise. *)
Lemma sub_diag_spec (v : float) :
  Prim2SF (v - v) = S754_zero false \/ Prim2SF (v - v) = S754_nan.
Proof.
  rewrite sub_spec. unfold SF64sub.
  destruct (Prim2SF v) as [s|s| |s m e]; simpl.
  - left. destruct s; reflexivity.
  - right. destruct s; reflexivity.
  - right. reflexivity.
  - left. rewrite Z.sub_diag. reflexivity.
Qed.

Lemma sub_diag_finite (v : float) : is_finite v = true -> v - v = 0.
Proof.
  intros H. apply zero_by_spec. rewrite sub_spec. unfold SF64sub.
  apply FloatFacts.is_finite_inv in H as [[s H]|(s & m & e & H)]; rewrite H; simpl.
  - destruct s; reflexivity.
  - rewrite Z.sub_diag. reflexivity.
Qed.

(** The ratio of an empty range is [NaN], whatever the value. *)
Lemma empty_range_ratio (v : float) : (v - v) / (v - v) = nan.
Proof.
  apply nan_by_spec. rewrite div_spec.
  destruct (sub_diag_spec v) as [H|H]; rewrite H; reflexivity.
Qed.

Lemma mul_nan_r (u : float) : u * nan = nan.
Proof.
  apply nan_by_spec. rewrite mul_spec. change (Prim2SF nan) with S754_nan.
  destruct (Prim2SF u); reflexivity.
Qed.

Lemma add_nan_r (u : float) : u + nan = nan.
Proof.
  apply nan_by_spec. rewrite add_spec. change (Prim2SF nan) with S754_nan.
  destruct (Prim2SF u); reflexivity.
Qed.

Lemma SFcompare_refl (u : spec_float) :
  u <> S754_nan -> SFcompare u u = Some Eq.
Proof.
  destruct u as [s|s| |s m e]; simpl; intros H.
  - reflexivity.
  - destruct s; reflexivity.
  - contradiction H; reflexivity.
  - destruct s; rewrite Z.compare_refl, Pos.compare_cont_refl; reflexivity.
Qed.

Lemma is_nan_spec (v : float) : is_nan v = true <-> Prim2SF v = S754_nan.
Proof.
  unfold is_nan. rewrite FloatAxioms.eqb_spec. unfold SFeqb. split.
  - intros H. destruct (Prim2SF v) as [s|s| |s m e] eqn:E; try reflexivity;
      rewrite SFcompare_refl in H by discriminate; discriminate.
  - intros ->. reflexivity.
Qed.

Lemma ltb_irrefl (v : float) : (v <? v) = false.
Proof.
  rewrite ltb_spec. unfold SFltb.
  destruct (Prim2SF v) as [s|s| |s m e] eqn:E; try reflexivity;
    rewrite SFcompare_refl by discriminate; reflexivity.
Qed.

(** [Math.min(v, v)] and [Math.max(v, v)] are [v]. *)
Lemma Math_min_diag (v : float) : JS.Math_min v v = v.
Proof.
  unfold JS.Math_min. destruct (is_nan v) eqn:E; simpl.
  - symmetry. apply nan_by_spec, is_nan_spec, E.
  - rewrite ltb_irrefl. destruct (get_sign v); reflexivity.
Qed.

Lemma Math_max_diag (v : float) : JS.Math_max v v = v.
Proof.
  unfold JS.Math_max. destruct (is_nan v) eqn:E; simpl.
  - symmetry. apply nan_by_spec, is_nan_spec, E.
  - rewrite ltb_irrefl. destruct (get_sign v); reflexivity.
Qed.

(** [Math.min(Infinity, v)] and [Math.max(-Infinity, v)] are [v]. *)
Lemma Math_min_infinity (v : float) : JS.Math_min infinity v = v.
Proof.
  unfold JS.Math_min. change (is_nan infinity) with false.
  change (get_sign infinity) with false. simpl.
  destruct (is_nan v) eqn:E.
  - symmetry. apply nan_by_spec, is_nan_spec, E.
  - assert (H : (infinity <? v) = false).
    { rewrite ltb_spec. change (Prim2SF infinity) with (S754_infinity false).
      unfold SFltb. destruct (Prim2SF v) as [s|s| |s m e]; try reflexivity.
      destruct s; reflexivity. }
    rewrite H. destruct (v <? infinity); reflexivity.
Qed.

Lemma Math_max_neg_infinity (v : float) : JS.Math_max neg_infinity v = v.
Proof.
  unfold JS.Math_max. change (is_nan neg_infinity) with false.
  change (get_sign neg_infinity) with true. simpl.
  destruct (is_nan v) eqn:E.
  - symmetry. apply nan_by_spec, is_nan_spec, E.
  - destruct (neg_infinity <? v); [reflexivity|].
    destruct (v <? neg_infinity) eqn:H; [|reflexivity].
    rewrite ltb_spec in H. change (Prim2SF neg_infinity) with (S754_infinity true) in H.
    unfold SFltb in H. destruct (Prim2SF v) as [s|s| |s m e]; try discriminate.
    destruct s; discriminate.
Qed.

(** A fraction of fifty samples lies between 0 and 1; none of them leaves
    0 as 0 and all of them is 1. *)
Lemma fraction_bounds (k : nat) :
  (k <= 50)%nat ->
  (0 <=? JS.of_nat k / JS.of_nat 50) = true
  /\ (JS.of_nat k / JS.of_nat 50 <=? 1) = true.
Proof.
  intros Hk.
  assert (H : forallb (fun k => (0 <=? JS.of_nat k / JS.of_nat 50)
                                && (JS.of_nat k / JS.of_nat 50 <=? 1))
                      (seq 0 51) = true) by (vm_compute; reflexivity).
  rewrite forallb_forall in H.
  apply andb_true_iff, H, in_seq. lia.
Qed.

End MoreFloatFacts.

(** ** Shadow fractions *)

Section Shadows.
Import Browser.
Local Open Scope float_scope.

Variable Math_acos : float -> float.
Variable parseFloat : string -> float.
Variable SunCalc_getTimes : string -> float -> float -> float * float.

Lemma rayIsShadowed_hit (scene : list THREE.Object3D)
    (point rayDirection : THREE.Vector3) :
  shadowCalculate.rayIsShadowed scene point rayDirection = true
  <-> exists o, In o scene
        /\ THREE.raycast o (THREE.mkRay point rayDirection) <> []
        /\ THREE.name o <> Some "Sky".
Proof.
  unfold shadowCalculate.rayIsShadowed, THREE.intersectObject.
  set (ray := THREE.mkRay point rayDirection).
  rewrite Nat.ltb_lt. split.
  - intros Hlen.
    destruct (List.filter _ _) as [|i l] eqn:E; [simpl in Hlen; lia|].
    assert (Hi : In i (List.filter shadowCalculate.validIntersect
              (THREE.intersectObjects (fun o => o) scene ray)))
      by (rewrite E; left; reflexivity).
    apply List.filter_In in Hi as [Hi Hv].
    apply intersectObjects_In in Hi as [Ho Hd].
    exists (THREE.object i). split; [exact Ho|]. split.
    + intros Hnil. rewrite Hnil in Hd. destruct Hd.
    + apply validIntersect_spec, Hv.
  - intros (o & Ho & Hhit & Hname).
    destruct (THREE.raycast o ray) as [|d ds] eqn:Er; [contradiction|].
    assert (Hi : In (THREE.mkIntersection d o)
              (List.filter shadowCalculate.validIntersect
                 (THREE.intersectObjects (fun o => o) scene ray))).
    { apply List.filter_In. split.
      - apply intersectObjects_In. simpl. rewrite Er. split; [exact Ho|].
        left; reflexivity.
      - apply validIntersect_spec. exact Hname. }
    destruct (List.filter _ _); [destruct Hi | simpl; lia].
Qed.

Lemma open_sky_ray (scene : list THREE.Object3D) (point d : THREE.Vector3) :
  Notions.open_sky scene -> shadowCalculate.rayIsShadowed scene point d = false.
Proof.
  intros Hopen. destruct (shadowCalculate.rayIsShadowed scene point d) eqn:E;
    [|reflexivity].
  apply rayIsShadowed_hit in E as (o & Ho & Hhit & Hname).
  destruct (Hopen o Ho) as [Hs|Hn]; [contradiction|].
  contradiction Hhit. apply Hn.
Qed.

Lemma enclosed_ray (scene : list THREE.Object3D) (point d : THREE.Vector3) :
  Notions.enclosed scene -> shadowCalculate.rayIsShadowed scene point d = true.
Proof.
  intros (o & Ho & Hname & Hhit). apply rayIsShadowed_hit.
  exists o. split; [exact Ho|]. split; [apply Hhit | exact Hname].
Qed.

(** When every ray has the same fate, the counter is known. *)
Lemma sampleRays_const (b : bool) (i : nat) (point direction : THREE.Vector3)
    (scene : THREE.Scene) (k : nat) (st : State) :
  (forall d, shadowCalculate.rayIsShadowed scene point d = b) ->
  (k + i <= 50)%nat ->
  fst (shadowCalculate.sampleRays i point direction scene (JS.of_nat k) st)
  = JS.of_nat (if b then k + i else k).
Proof.
  intros Hb. revert k st. induction i as [|i IH]; intros k st Hk.
  - cbn [shadowCalculate.sampleRays fst]. destruct b; [|reflexivity].
    rewrite Nat.add_0_r. reflexivity.
  - cbn [shadowCalculate.sampleRays].
    destruct (Math_random st) as [r1 st1].
    destruct (Math_random st1) as [r2 st2].
    destruct (Math_random st2) as [r3 st3].
    rewrite Hb. destruct b.
    + rewrite FloatFacts.count_succ by lia. rewrite IH by lia.
      f_equal. lia.
    + apply IH. lia.
Qed.

Lemma isPointInShadow_const (b : bool) (point : THREE.Vector3)
    (light : THREE.DirectionalLight) (scene : THREE.Scene) (st : State) :
  (forall d, shadowCalculate.rayIsShadowed scene point d = b) ->
  fst (shadowCalculate.isPointInShadow point light scene
         shadowCalculate.numRays_default st)
  = if b then 1 else 0.
Proof.
  intros Hb.
  unfold shadowCalculate.isPointInShadow, shadowCalculate.numRays_default.
  pose proof (sampleRays_const b 50 point
    (THREE.normalize (THREE.subVectors (THREE.position light) point)) scene 0 st
    Hb ltac:(lia)) as E.
  change (JS.of_nat 0) with 0 in E.
  destruct (shadowCalculate.sampleRays _ _ _ _ _ _) as [n st'].
  cbn [fst] in E |- *. subst n. destruct b; vm_compute; reflexivity.
Qed.

(** X1: whatever the point, the light, the scene and the random numbers,
    the shadow fraction of fifty sample rays lies between 0 and 1. *)
Theorem shadow_fraction_bounded (point : THREE.Vector3)
    (light : THREE.DirectionalLight) (scene : THREE.Scene) (st : State) :
  let shadowFraction :=
    fst (shadowCalculate.isPointInShadow point light scene
           shadowCalculate.numRays_default st) in
  (0 <=? shadowFraction) = true /\ (shadowFraction <=? 1) = true.
Proof.
  cbv zeta.
  destruct (isPointInShadow_range point light scene st) as (k & Hk & ->).
  apply MoreFloatFacts.fraction_bounds, Hk.
Qed.

(** The entry the estimator returns for the [k]-th triangle. *)
Lemma calculateRooftopArea_entry (building : THREE.Mesh)
    (light : THREE.DirectionalLight) (scene : THREE.Scene) (st : State)
    (ghiElement dateInputElement : Element) (indices : list nat) :
  getElementById "ghi" st = Some ghiElement ->
  getElementById "dateInput" st = Some dateInputElement ->
  THREE.index (THREE.geometry building) = Some indices ->
  let ghi := Reference.ghiOf parseFloat ghiElement in
  let vertices := THREE.position_array (THREE.geometry building) in
  exists values,
    fst (shadowCalculate.calculateRooftopArea Math_acos parseFloat
           SunCalc_getTimes building light scene st) = Returned values
    /\ List.length values = List.length (Reference.triangles indices)
    /\ forall k a b c, Reference.triangles indices !! k = Some (a, b, c) ->
         values !! k
         = Some (shadowCalculate.mkBipvValue a b c
                   (ghi * Reference.faceArea vertices (a, b, c)
                    * (1 - Reference.shadowAt vertices light scene st k (a, b, c))
                    * shadowCalculate.efficiencyFactor)
                   (Reference.classifyFace Math_acos
                      (Reference.faceNormal vertices (a, b, c)))).
Proof.
  intros Hghi Hdate Hindex ghi vertices.
  rewrite (calculateRooftopArea_indexed Math_acos parseFloat SunCalc_getTimes
             building light scene st ghiElement dateInputElement indices
             Hghi Hdate Hindex).
  cbn [fst]. eexists. split; [reflexivity|]. split.
  - rewrite length_map. apply facePass_length.
  - intros k a b c Hk.
    change (map (Reference.entry (Reference.ghiOf parseFloat ghiElement)))
      with (fmap (M := list) (Reference.entry ghi)).
    rewrite list_lookup_fmap, facePass_lookup, Hk. cbn [fmap option_fmap option_map].
    destruct (faceDatum_fields Math_acos vertices light scene st k (a, b, c))
      as (Hf & Ha & Hs & Hc).
    fold vertices.
    set (d := fst (Reference.faceDatum Math_acos vertices light scene (a, b, c) _)) in *.
    unfold Reference.entry, Reference.pvValue. rewrite Hf, Ha, Hs, Hc. reflexivity.
Qed.

(** X2: in a scene where no object other than the sky is ever met by a
    ray, every face of an indexed mesh has shadow fraction 0 and the PV
    value [ghi * area * 1 * 0.15]. *)
Theorem open_sky_estimate (building : THREE.Mesh)
    (light : THREE.DirectionalLight) (scene : THREE.Scene) (st : State)
    (ghiElement dateInputElement : Element) (indices : list nat) :
  getElementById "ghi" st = Some ghiElement ->
  getElementById "dateInput" st = Some dateInputElement ->
  THREE.index (THREE.geometry building) = Some indices ->
  Notions.open_sky scene ->
  let ghi := Reference.ghiOf parseFloat ghiElement in
  let vertices := THREE.position_array (THREE.geometry building) in
  exists values,
    fst (shadowCalculate.calculateRooftopArea Math_acos parseFloat
           SunCalc_getTimes building light scene st) = Returned values
    /\ forall k f, Reference.triangles indices !! k = Some f ->
         Reference.shadowAt vertices light scene st k f = 0
         /\ exists v, values !! k = Some v
              /\ shadowCalculate.bipvValue v
                 = ghi * Reference.faceArea vertices f * 1
                   * shadowCalculate.efficiencyFactor.
Proof.
  intros Hghi Hdate Hindex Hopen ghi vertices.
  destruct (calculateRooftopArea_entry building light scene st ghiElement
              dateInputElement indices Hghi Hdate Hindex) as (values & Hv & _ & Hk).
  exists values. split; [exact Hv|]. intros k [[a b] c] Hf.
  assert (Hs : Reference.shadowAt vertices light scene st k (a, b, c) = 0).
  { unfold Reference.shadowAt.
    apply (isPointInShadow_const false). intros d. apply open_sky_ray, Hopen. }
  split; [exact Hs|]. eexists. split; [apply Hk, Hf|].
  cbn [shadowCalculate.bipvValue]. fold vertices. rewrite Hs. reflexivity.
Qed.

(** X3: in a scene where some object other than the sky is met by every
    ray, every face of an indexed mesh has shadow fraction 1 and the PV
    value [ghi * area * 0 * 0.15], which is zero when GHI and the area are
    finite. *)
Theorem enclosed_estimate (building : THREE.Mesh)
    (light : THREE.DirectionalLight) (scene : THREE.Scene) (st : State)
    (ghiElement dateInputElement : Element) (indices : list nat) :
  getElementById "ghi" st = Some ghiElement ->
  getElementById "dateInput" st = Some dateInputElement ->
  THREE.index (THREE.geometry building) = Some indices ->
  Notions.enclosed scene ->
  let ghi := Reference.ghiOf parseFloat ghiElement in
  let vertices := THREE.position_array (THREE.geometry building) in
  exists values,
    fst (shadowCalculate.calculateRooftopArea Math_acos parseFloat
           SunCalc_getTimes building light scene st) = Returned values
    /\ forall k f, Reference.triangles indices !! k = Some f ->
         Reference.shadowAt vertices light scene st k f = 1
         /\ exists v, values !! k = Some v
              /\ shadowCalculate.bipvValue v
                 = ghi * Reference.faceArea vertices f * 0
                   * shadowCalculate.efficiencyFactor
              /\ (is_finite (ghi * Reference.faceArea vertices f) = true ->
                  (shadowCalculate.bipvValue v =? 0) = true).
Proof.
  intros Hghi Hdate Hindex Hclosed ghi vertices.
  destruct (calculateRooftopArea_entry building light scene st ghiElement
              dateInputElement indices Hghi Hdate Hindex) as (values & Hv & _ & Hk).
  exists values. split; [exact Hv|]. intros k [[a b] c] Hf.
  assert (Hs : Reference.shadowAt vertices light scene st k (a, b, c) = 1).
  { unfold Reference.shadowAt.
    apply (isPointInShadow_const true). intros d. apply enclosed_ray, Hclosed. }
  split; [exact Hs|]. eexists. split; [apply Hk, Hf|].
  cbn [shadowCalculate.bipvValue]. fold vertices. rewrite Hs.
  change (1 - 1) with 0. split; [reflexivity|].
  intros Hfin. apply FloatFacts.mul_zero_l; [vm_compute; reflexivity|].
  apply FloatFacts.mul_zero_r; [exact Hfin | vm_compute; reflexivity].
Qed.

End Shadows.

(** ** Edge cases of the estimator and of the colour mapping *)

Section Edges.
Import Browser.
Local Open Scope float_scope.

Variable Math_acos : float -> float.
Variable parseFloat : string -> float.
Variable SunCalc_getTimes : string -> float -> float -> float * float.
Variable toWorking : float -> float.

Lemma triangles_length (indices : list nat) :
  List.length (Reference.triangles indices) = ((List.length indices + 2) / 3)%nat.
Proof.
  induction indices using triples_ind; try reflexivity.
  cbn [Reference.triangles List.length]. rewrite IHindices.
  replace (S (S (S (List.length indices))) + 2)%nat
    with (List.length indices + 2 + 1 * 3)%nat by lia.
  rewrite Nat.div_add by lia. lia.
Qed.

Lemma updateInfoCard_drawn (n : string) (f1 f2 f3 f4 f5 f6 f7 : float) (st : State) :
  drawn (shadowCalculate.updateInfoCard n f1 f2 f3 f4 f5 f6 f7 st) = drawn st.
Proof. reflexivity. Qed.

(** X4: for an index buffer of [n] indices the estimator returns
    [ceil(n / 3)] entries (a trailing group of one or two indices counts as
    a face) and draws 150 random numbers for each of them. *)
Theorem entry_count (building : THREE.Mesh)
    (light : THREE.DirectionalLight) (scene : THREE.Scene) (st : State)
    (ghiElement dateInputElement : Element) (indices : list nat) :
  getElementById "ghi" st = Some ghiElement ->
  getElementById "dateInput" st = Some dateInputElement ->
  THREE.index (THREE.geometry building) = Some indices ->
  let result :=
    shadowCalculate.calculateRooftopArea Math_acos parseFloat SunCalc_getTimes
      building light scene st in
  let faces := ((List.length indices + 2) / 3)%nat in
  exists values,
    fst result = Returned values
    /\ List.length values = faces
    /\ drawn (snd result) = (drawn st + 150 * faces)%nat.
Proof.
  intros Hghi Hdate Hindex. cbv zeta.
  rewrite (calculateRooftopArea_indexed Math_acos parseFloat SunCalc_getTimes
             building light scene st ghiElement dateInputElement indices
             Hghi Hdate Hindex).
  cbn [fst snd]. eexists. split; [reflexivity|]. split.
  - rewrite length_map, facePass_length. apply triangles_length.
  - rewrite updateInfoCard_drawn, triangles_length. reflexivity.
Qed.

(** X5: for a mesh whose index buffer is empty the estimator returns no
    entry and draws no random number; the card shows a total area of 0 and,
    the division being [0 / 0], a total shadow fraction and a total PV value
    of [NaN]. *)
Theorem empty_index_buffer (building : THREE.Mesh)
    (light : THREE.DirectionalLight) (scene : THREE.Scene) (st : State)
    (ghiElement dateInputElement : Element) :
  getElementById "ghi" st = Some ghiElement ->
  getElementById "dateInput" st = Some dateInputElement ->
  THREE.index (THREE.geometry building) = Some [] ->
  let result :=
    shadowCalculate.calculateRooftopArea Math_acos parseFloat SunCalc_getTimes
      building light scene st in
  fst result = Returned []
  /\ drawn (snd result) = drawn st
  /\ Reference.reported "totalArea" (snd result)
     = (fun _ => Fixed2 "Total Area (Rooftop + Vertical): " 0 " sq.m")
       <$> getElementById "totalArea" st
  /\ Reference.reported "shadowFraction" (snd result)
     = (fun _ => Fixed2 "Average Shadow Fraction Over Total Area: " nan "")
       <$> getElementById "shadowFraction" st
  /\ Reference.reported "pvValue" (snd result)
     = (fun _ => Fixed2 "Total PV Value: " nan " kWhr")
       <$> getElementById "pvValue" st.
Proof.
  intros Hghi Hdate Hindex. cbv zeta.
  rewrite (calculateRooftopArea_indexed Math_acos parseFloat SunCalc_getTimes
             building light scene st ghiElement dateInputElement []
             Hghi Hdate Hindex).
  cbn [fst snd Reference.triangles Reference.facePass map List.length].
  change (Reference.meshArea []) with 0.
  change (Reference.meshShadowFraction []) with nan.
  change (1 - nan) with nan.
  rewrite !MoreFloatFacts.mul_nan_r.
  split; [reflexivity|]. split.
  { rewrite updateInfoCard_drawn. cbn. lia. }
  unfold shadowCalculate.updateInfoCard.
  rewrite !reported_write_display.
  repeat split;
    repeat (rewrite reported_write_ne by discriminate);
    rewrite reported_write_eq; repeat rewrite present_write;
    reflexivity.
Qed.

(** X6: a triangle whose three indices name one vertex with finite
    coordinates has area exactly 0, and its face is classified Vertical
    whatever [Math.acos] answers. *)
Theorem coincident_triangle (vertices : list float) (i : nat) :
  let v := shadowCalculate.vertexAt vertices (Some i) in
  is_finite (THREE.x v) = true ->
  is_finite (THREE.y v) = true ->
  is_finite (THREE.z v) = true ->
  Reference.faceArea vertices (Some i, Some i, Some i) = 0
  /\ Reference.classifyFace Math_acos
       (Reference.faceNormal vertices (Some i, Some i, Some i))
     = shadowCalculate.Vertical.
Proof.
  intros v Hx Hy Hz.
  unfold Reference.faceArea, Reference.faceNormal, Reference.classifyFace,
    Reference.corners.
  fold v. unfold THREE.Triangle_getArea, THREE.subVectors.
  rewrite !(MoreFloatFacts.sub_diag_finite _ Hx),
          !(MoreFloatFacts.sub_diag_finite _ Hy),
          !(MoreFloatFacts.sub_diag_finite _ Hz).
  split; vm_compute; reflexivity.
Qed.

(** X7: a normal whose three components are zero is classified Vertical,
    without [Math.acos] being asked. *)
Theorem zero_normal_is_vertical (normal : THREE.Vector3) :
  (THREE.x normal =? 0) = true ->
  (THREE.y normal =? 0) = true ->
  (THREE.z normal =? 0) = true ->
  shadowCalculate.isVertical Math_acos normal = true.
Proof.
  destruct normal as [nx ny nz]. cbn [THREE.x THREE.y THREE.z].
  intros Hx Hy Hz.
  apply MoreFloatFacts.eqb_zero_cases in Hx, Hy, Hz.
  destruct Hx as [-> | ->], Hy as [-> | ->], Hz as [-> | ->];
    vm_compute; reflexivity.
Qed.

Lemma getColorForValue_empty_range (v : float) :
  buildingUtils.getColorForValue toWorking v v v = THREE.mkColor nan nan nan.
Proof.
  unfold buildingUtils.getColorForValue. rewrite MoreFloatFacts.empty_range_ratio.
  unfold THREE.lerp.
  rewrite !MoreFloatFacts.mul_nan_r, !MoreFloatFacts.add_nan_r. reflexivity.
Qed.

Lemma fold_min_const (v : float) (l : list float) :
  Forall (eq v) l -> fold_left JS.Math_min l v = v.
Proof.
  induction 1 as [|w l <- _ IH]; [reflexivity|].
  cbn [fold_left]. rewrite MoreFloatFacts.Math_min_diag. exact IH.
Qed.

Lemma fold_max_const (v : float) (l : list float) :
  Forall (eq v) l -> fold_left JS.Math_max l v = v.
Proof.
  induction 1 as [|w l <- _ IH]; [reflexivity|].
  cbn [fold_left]. rewrite MoreFloatFacts.Math_max_diag. exact IH.
Qed.

(** X8: when all the faces of the selection have the same PV value (a
    single face, or a building wholly in shadow), the observed minimum and
    maximum coincide, the ratio is [0 / 0], and the colour computed for every
    face is [NaN] in its three channels. *)
Theorem uniform_values_colour_nan (bipvValues : list shadowCalculate.BipvValue)
    (v : float) (e : shadowCalculate.BipvValue) :
  Forall (fun e => shadowCalculate.bipvValue e = v) bipvValues ->
  In e bipvValues ->
  let minBipv := JS.Math_min_list (map shadowCalculate.bipvValue bipvValues) in
  let maxBipv := JS.Math_max_list (map shadowCalculate.bipvValue bipvValues) in
  minBipv = v /\ maxBipv = v
  /\ buildingUtils.getColorForValue toWorking (shadowCalculate.bipvValue e)
       minBipv maxBipv
     = THREE.mkColor nan nan nan.
Proof.
  intros Hall He. cbv zeta.
  assert (Hvals : Forall (eq v) (map shadowCalculate.bipvValue bipvValues)).
  { apply List.Forall_forall. intros w Hw. apply in_map_iff in Hw as (e' & <- & He').
    symmetry. exact (proj1 (List.Forall_forall _ _) Hall e' He'). }
  assert (Hne : map shadowCalculate.bipvValue bipvValues <> []).
  { destruct bipvValues; [destruct He | discriminate]. }
  assert (Hmin : JS.Math_min_list (map shadowCalculate.bipvValue bipvValues) = v).
  { unfold JS.Math_min_list.
    destruct (map shadowCalculate.bipvValue bipvValues) as [|w l]; [contradiction|].
    inversion Hvals as [|? ? <- Hl]; subst.
    cbn [fold_left]. rewrite MoreFloatFacts.Math_min_infinity.
    apply fold_min_const, Hl. }
  assert (Hmax : JS.Math_max_list (map shadowCalculate.bipvValue bipvValues) = v).
  { unfold JS.Math_max_list.
    destruct (map shadowCalculate.bipvValue bipvValues) as [|w l]; [contradiction|].
    inversion Hvals as [|? ? <- Hl]; subst.
    cbn [fold_left]. rewrite MoreFloatFacts.Math_max_neg_infinity.
    apply fold_max_const, Hl. }
  rewrite Hmin, Hmax. split; [reflexivity|]. split; [reflexivity|].
  rewrite (proj1 (List.Forall_forall _ _) Hall e He).
  apply getColorForValue_empty_range.
Qed.

End Edges.

(** ** Highlighting and selection *)

Section Selection.
Import Browser.
Local Open Scope float_scope.

Variable Math_acos : float -> float.
Variable parseFloat : string -> float.
Variable SunCalc_getTimes : string -> float -> float -> float * float.
Variable toWorking : float -> float.
Variable argumentLimit : nat.

Lemma set_material_same (building : THREE.Mesh) :
  buildingUtils.set_material (THREE.material building) building = building.
Proof. destruct building. reflexivity. Qed.

(** X9: highlighting a mesh that has no saved material and then reverting
    it gives back the meshes and the selection state as they were; of the
    browser state, four numbers have been drawn for the identifier of the
    highlight material. *)
Theorem highlight_revert_roundtrip (i : nat) (buildings : list THREE.Mesh)
    (gl : buildingUtils.Globals) (st : State) (building : THREE.Mesh) :
  buildings !! i = Some building ->
  buildingUtils.originalMaterials gl !! i = None ->
  let highlighted := buildingUtils.highlightBuilding i buildings gl st in
  buildingUtils.revertHighlight i (fst (fst highlighted)) (snd (fst highlighted))
  = (buildings, gl)
  /\ snd highlighted = Reference.afterDraws 4 st.
Proof.
  intros Hb Hnone. cbv zeta.
  assert (Hlt : (i < List.length buildings)%nat) by (eapply lookup_lt_Some; eauto).
  split; [|rewrite <- generateUUID_state; eapply highlightBuilding_state; eauto].
  unfold buildingUtils.highlightBuilding. rewrite Hb, Hnone.
  cbn [THREE.new_MeshStandardMaterial fst snd].
  unfold buildingUtils.revertHighlight.
  cbn [buildingUtils.originalMaterials buildingUtils.highlightedBuilding].
  rewrite list_lookup_insert_eq by exact Hlt. rewrite (lookup_insert_eq (M:=gmap nat)).
  rewrite list_insert_insert_eq, (delete_insert_id (M:=gmap nat)) by exact Hnone.
  f_equal.
  - apply list_insert_id. rewrite Hb. f_equal. symmetry.
    apply (set_material_same building).
  - destruct gl. reflexivity.
Qed.

(** X10: highlighting twice leaves the meshes and the saved materials as
    highlighting once does: the material saved for the mesh stays its own,
    the highlight material never takes its place.  Each of the two calls makes
    a material of its own and draws four numbers for its identifier. *)
Theorem highlight_twice (i : nat) (buildings : list THREE.Mesh)
    (gl : buildingUtils.Globals) (st : State) (building : THREE.Mesh) :
  buildings !! i = Some building ->
  buildingUtils.originalMaterials gl !! i = None ->
  let once := buildingUtils.highlightBuilding i buildings gl st in
  let twice :=
    buildingUtils.highlightBuilding i (fst (fst once)) (snd (fst once)) (snd once) in
  fst twice = fst once
  /\ buildingUtils.originalMaterials (snd (fst twice)) !! i
     = Some (THREE.material building)
  /\ snd once = Reference.afterDraws 4 st
  /\ snd twice = Reference.afterDraws 8 st.
Proof.
  intros Hb Hnone. cbv zeta.
  assert (Hlt : (i < List.length buildings)%nat) by (eapply lookup_lt_Some; eauto).
  assert (Honce : buildingUtils.highlightBuilding i buildings gl st
            = (<[i := buildingUtils.set_material
                        (THREE.MeshStandardMaterial 0xffff00) building]> buildings,
               buildingUtils.mkGlobals
                 (<[i := THREE.material building]>
                    (buildingUtils.originalMaterials gl))
                 (buildingUtils.highlightedBuilding gl),
               Reference.afterDraws 4 st)).
  { unfold buildingUtils.highlightBuilding. rewrite Hb, Hnone.
    cbn [THREE.new_MeshStandardMaterial]. rewrite generateUUID_state. reflexivity. }
  rewrite Honce. cbn [fst snd].
  unfold buildingUtils.highlightBuilding.
  cbn [buildingUtils.originalMaterials buildingUtils.highlightedBuilding].
  rewrite list_lookup_insert_eq by exact Hlt.
  rewrite (lookup_insert_eq (M:=gmap nat)).
  cbn [THREE.new_MeshStandardMaterial fst snd buildingUtils.originalMaterials].
  rewrite list_insert_insert_eq.
  rewrite (lookup_insert_eq (M:=gmap nat)), generateUUID_state, afterDraws_add.
  repeat split; reflexivity.
Qed.

(** How a click that picks the mesh [i] goes on. *)
Lemma onBuildingClick_hit (pick : THREE.Ray) (buildings : list THREE.Mesh)
    (light : THREE.DirectionalLight) (scene : THREE.Scene)
    (gl : buildingUtils.Globals) (st : State)
    (first : THREE.Intersection (nat * THREE.Mesh))
    (rest : list (THREE.Intersection (nat * THREE.Mesh))) :
  THREE.intersectObjects (fun im => THREE.mesh_object (snd im))
    (imap (fun i m => (i, m)) buildings) pick = first :: rest ->
  let i := fst (THREE.object first) in
  let selected := fst (Notions.selectBuilding i buildings gl st) in
  let st1 := snd (Notions.selectBuilding i buildings gl st) in
  buildingUtils.onBuildingClick Math_acos parseFloat SunCalc_getTimes toWorking
    argumentLimit pick buildings light scene gl st
  = match fst selected !! i with
    | None => (Threw "TypeError", fst selected, snd selected, st1)
    | Some building =>
        match shadowCalculate.calculateRooftopArea Math_acos parseFloat
                SunCalc_getTimes building light scene st1 with
        | (Threw e, st') => (Threw e, fst selected, snd selected, st')
        | (Returned bipvValues, st') =>
            match buildingUtils.colorBuilding toWorking argumentLimit bipvValues
                    building with
            | Threw e => (Threw e, fst selected, snd selected, st')
            | Returned coloured =>
                (Returned tt, <[i := coloured]> (fst selected), snd selected, st')
            end
        end
    end.
Proof.
  intros Hpick. cbv zeta.
  unfold buildingUtils.onBuildingClick, Notions.selectBuilding,
    Notions.revertPrevious. rewrite Hpick.
  destruct (match buildingUtils.highlightedBuilding gl with
            | Some h => buildingUtils.revertHighlight h buildings gl
            | None => (buildings, gl)
            end) as [b1 gl1].
  destruct (buildingUtils.highlightBuilding _ b1 gl1 st) as [[b2 gl2] st2].
  cbn [fst snd].
  destruct (b2 !! _); [|reflexivity].
  destruct (shadowCalculate.calculateRooftopArea _ _ _ _ _ _ _) as [[vals|e] st'];
    [|reflexivity].
  destruct (buildingUtils.colorBuilding _ _ _ _); reflexivity.
Qed.

Lemma revertHighlight_length (h : nat) (buildings : list THREE.Mesh)
    (gl : buildingUtils.Globals) :
  List.length (fst (buildingUtils.revertHighlight h buildings gl))
  = List.length buildings.
Proof.
  unfold buildingUtils.revertHighlight.
  destruct (buildings !! h); [|reflexivity].
  destruct (buildingUtils.originalMaterials gl !! h); [|reflexivity].
  cbn [fst]. apply length_insert.
Qed.

Lemma revertHighlight_other (h j : nat) (buildings : list THREE.Mesh)
    (gl : buildingUtils.Globals) :
  h <> j ->
  fst (buildingUtils.revertHighlight h buildings gl) !! j = buildings !! j.
Proof.
  intros Hne. unfold buildingUtils.revertHighlight.
  destruct (buildings !! h); [|reflexivity].
  destruct (buildingUtils.originalMaterials gl !! h); [|reflexivity].
  cbn [fst]. apply list_lookup_insert_ne, Hne.
Qed.

Lemma highlightBuilding_other (i j : nat) (buildings : list THREE.Mesh)
    (gl : buildingUtils.Globals) (st : State) :
  i <> j ->
  fst (fst (buildingUtils.highlightBuilding i buildings gl st)) !! j
  = buildings !! j.
Proof.
  intros Hne. unfold buildingUtils.highlightBuilding.
  destruct (buildings !! i); [|reflexivity].
  cbn [fst]. apply list_lookup_insert_ne, Hne.
Qed.

Lemma revertHighlight_highlighted (h : nat) (buildings : list THREE.Mesh)
    (gl : buildingUtils.Globals) :
  buildingUtils.highlightedBuilding (snd (buildingUtils.revertHighlight h buildings gl))
  = buildingUtils.highlightedBuilding gl.
Proof.
  unfold buildingUtils.revertHighlight.
  destruct (buildings !! h); [|reflexivity].
  destruct (buildingUtils.originalMaterials gl !! h); reflexivity.
Qed.

(** The revert step of a click on a coherent selection: no saved material
    is left, the mesh that was highlighted has its saved material back, and
    the other meshes are as they were. *)
Lemma revertPrevious_clean (buildings : list THREE.Mesh)
    (gl : buildingUtils.Globals) :
  Notions.selection_ok buildings gl ->
  let r := Notions.revertPrevious buildings gl in
  (forall j, buildingUtils.originalMaterials (snd r) !! j = None)
  /\ (forall h m b, buildingUtils.highlightedBuilding gl = Some h ->
        buildingUtils.originalMaterials gl !! h = Some m ->
        buildings !! h = Some b ->
        fst r !! h = Some (buildingUtils.set_material m b)).
Proof.
  intros [Hdom Hrange]. cbv zeta. unfold Notions.revertPrevious.
  destruct (buildingUtils.highlightedBuilding gl) as [h|] eqn:Hh.
  - assert (Hother : forall j, j <> h ->
              buildingUtils.originalMaterials gl !! j = None).
    { intros j Hne.
      destruct (buildingUtils.originalMaterials gl !! j) as [m|] eqn:E; [|reflexivity].
      assert (Hj : Some h = Some j) by (apply Hdom; rewrite E; eauto).
      injection Hj as ->. contradiction. }
    destruct (lookup_lt_is_Some_2 buildings h (Hrange h eq_refl)) as [bh Hbh].
    unfold buildingUtils.revertHighlight. rewrite Hbh.
    destruct (buildingUtils.originalMaterials gl !! h) as [m|] eqn:Em; cbn [fst snd].
    + split.
      * intros j. cbn [buildingUtils.originalMaterials].
        destruct (decide (h = j)) as [->|Hne].
        -- apply (lookup_delete_eq (M:=gmap nat)).
        -- rewrite (lookup_delete_ne (M:=gmap nat)) by exact Hne.
           apply Hother. congruence.
      * intros h' m' b [= <-] Hm Hb. rewrite Em in Hm. injection Hm as <-.
        rewrite Hbh in Hb. injection Hb as <-.
        apply list_lookup_insert_eq. eapply lookup_lt_Some; eauto.
    + split.
      * intros j. destruct (decide (j = h)) as [->|Hne]; [exact Em|].
        apply Hother, Hne.
      * intros h' m' b [= <-] Hm. rewrite Em in Hm. discriminate.
  - cbn [fst snd]. split.
    + intros j.
      destruct (buildingUtils.originalMaterials gl !! j) as [m|] eqn:E; [|reflexivity].
      assert (Hj : None = Some j) by (apply Hdom; rewrite E; eauto). discriminate.
    + intros h m b [=].
Qed.

Lemma revertPrevious_length (buildings : list THREE.Mesh)
    (gl : buildingUtils.Globals) :
  List.length (fst (Notions.revertPrevious buildings gl)) = List.length buildings.
Proof.
  unfold Notions.revertPrevious.
  destruct (buildingUtils.highlightedBuilding gl); [|reflexivity].
  apply revertHighlight_length.
Qed.

Lemma revertPrevious_lookup (buildings : list THREE.Mesh)
    (gl : buildingUtils.Globals) (j : nat) (b : THREE.Mesh) :
  buildings !! j = Some b ->
  exists b', fst (Notions.revertPrevious buildings gl) !! j = Some b'
    /\ THREE.geometry b' = THREE.geometry b
    /\ THREE.mesh_object b' = THREE.mesh_object b.
Proof.
  intros Hb. unfold Notions.revertPrevious.
  destruct (buildingUtils.highlightedBuilding gl) as [h|].
  - apply revertHighlight_lookup, Hb.
  - exists b. auto.
Qed.

Lemma revertPrevious_other (buildings : list THREE.Mesh)
    (gl : buildingUtils.Globals) (j : nat) :
  buildingUtils.highlightedBuilding gl <> Some j ->
  fst (Notions.revertPrevious buildings gl) !! j = buildings !! j.
Proof.
  intros Hne. unfold Notions.revertPrevious.
  destruct (buildingUtils.highlightedBuilding gl) as [h|]; [|reflexivity].
  apply revertHighlight_other. congruence.
Qed.

(** What selecting the mesh [i] leaves at each place of the array. *)
Lemma selectBuilding_lookup (i : nat) (buildings : list THREE.Mesh)
    (gl : buildingUtils.Globals) (st : State) (j : nat) (b : THREE.Mesh) :
  buildings !! j = Some b ->
  exists b', fst (fst (Notions.selectBuilding i buildings gl st)) !! j = Some b'
    /\ THREE.geometry b' = THREE.geometry b
    /\ THREE.mesh_object b' = THREE.mesh_object b
    /\ (j = i -> THREE.material b' = THREE.MeshStandardMaterial 0xffff00)
    /\ (j <> i -> buildingUtils.highlightedBuilding gl <> Some j -> b' = b).
Proof.
  intros Hb. unfold Notions.selectBuilding.
  destruct (revertPrevious_lookup buildings gl j b Hb) as (b1 & Hb1 & Hg & Ho).
  pose proof (revertPrevious_other buildings gl j) as Hsame.
  destruct (Notions.revertPrevious buildings gl) as [bs1 gl1]. cbn [fst] in *.
  destruct (decide (j = i)) as [->|Hne].
  - pose proof (highlightBuilding_lookup i bs1 gl1 st b1 Hb1) as Hhl.
    destruct (buildingUtils.highlightBuilding i bs1 gl1 st) as [[bs2 gl2] st2].
    cbn [fst] in *. eexists. split; [exact Hhl|].
    split; [exact Hg|]. split; [exact Ho|]. split; [reflexivity|].
    intros Hc. contradiction Hc. reflexivity.
  - pose proof (highlightBuilding_other i j bs1 gl1 st (not_eq_sym Hne)) as Hhl.
    destruct (buildingUtils.highlightBuilding i bs1 gl1 st) as [[bs2 gl2] st2].
    cbn [fst] in *. exists b1. split; [rewrite Hhl; exact Hb1|].
    split; [exact Hg|]. split; [exact Ho|]. split; [intros; contradiction|].
    intros _ Hh. rewrite (Hsame Hh), Hb in Hb1. injection Hb1 as <-. reflexivity.
Qed.

Lemma selectBuilding_length (i : nat) (buildings : list THREE.Mesh)
    (gl : buildingUtils.Globals) (st : State) :
  List.length (fst (fst (Notions.selectBuilding i buildings gl st)))
  = List.length buildings.
Proof.
  unfold Notions.selectBuilding.
  pose proof (revertPrevious_length buildings gl) as H1.
  destruct (Notions.revertPrevious buildings gl) as [bs1 gl1].
  pose proof (highlightBuilding_length i bs1 gl1 st) as H2.
  destruct (buildingUtils.highlightBuilding i bs1 gl1 st) as [[bs2 gl2] st2].
  cbn [fst] in *. congruence.
Qed.

Lemma selectBuilding_highlighted (i : nat) (buildings : list THREE.Mesh)
    (gl : buildingUtils.Globals) (st : State) :
  buildingUtils.highlightedBuilding
    (snd (fst (Notions.selectBuilding i buildings gl st)))
  = Some i.
Proof.
  unfold Notions.selectBuilding.
  destruct (Notions.revertPrevious buildings gl) as [bs1 gl1].
  destruct (buildingUtils.highlightBuilding i bs1 gl1 st) as [[bs2 gl2] st2].
  reflexivity.
Qed.


Lemma selectBuilding_on_ok (i : nat) (buildings : list THREE.Mesh)
    (gl : buildingUtils.Globals) (st : State) :
  Notions.selection_ok buildings gl ->
  (i < List.length buildings)%nat ->
  let sel := fst (Notions.selectBuilding i buildings gl st) in
  (forall j, is_Some (buildingUtils.originalMaterials (snd sel) !! j) -> j = i)
  /\ (forall h m b, buildingUtils.highlightedBuilding gl = Some h -> h <> i ->
        buildingUtils.originalMaterials gl !! h = Some m ->
        buildings !! h = Some b ->
        fst sel !! h = Some (buildingUtils.set_material m b)).
Proof.
  intros Hok Hi. cbv zeta. unfold Notions.selectBuilding.
  destruct (revertPrevious_clean buildings gl Hok) as [Hclean Hback].
  pose proof (revertPrevious_length buildings gl) as Hlen.
  destruct (Notions.revertPrevious buildings gl) as [bs1 gl1]. cbn [fst snd] in *.
  destruct (lookup_lt_is_Some_2 bs1 i ltac:(lia)) as [b1 Hb1].
  pose proof (fun j => highlightBuilding_other i j bs1 gl1 st) as Hother.
  unfold buildingUtils.highlightBuilding in *. rewrite Hb1 in *.
  rewrite (Hclean i) in *.
  cbn [fst snd buildingUtils.originalMaterials THREE.new_MeshStandardMaterial] in *.
  split.
  - intros j [m Hm]. destruct (decide (i = j)) as [->|Hne]; [reflexivity|].
    rewrite (lookup_insert_ne (M:=gmap nat)) in Hm by exact Hne.
    rewrite Hclean in Hm. discriminate.
  - intros h m b Hh Hne Hm Hb. rewrite (Hother h (not_eq_sym Hne)).
    eapply Hback; eauto.
Qed.

Lemma selection_ok_length (buildings buildings' : list THREE.Mesh)
    (gl : buildingUtils.Globals) :
  List.length buildings' = List.length buildings ->
  Notions.selection_ok buildings gl -> Notions.selection_ok buildings' gl.
Proof.
  intros Hlen [Hdom Hrange]. split; [exact Hdom|].
  intros h Hh. rewrite Hlen. apply Hrange, Hh.
Qed.

Lemma colorBuilding_frame (bipvValues : list shadowCalculate.BipvValue)
    (building coloured : THREE.Mesh) :
  buildingUtils.colorBuilding toWorking argumentLimit bipvValues building
  = Returned coloured ->
  THREE.mesh_object coloured = THREE.mesh_object building
  /\ THREE.position_array (THREE.geometry coloured)
     = THREE.position_array (THREE.geometry building)
  /\ THREE.index (THREE.geometry coloured) = THREE.index (THREE.geometry building).
Proof.
  unfold buildingUtils.colorBuilding, buildingUtils.set_color_attribute.
  destruct (spread argumentLimit JS.Math_min_list _); [|discriminate].
  destruct (spread argumentLimit JS.Math_max_list _); [|discriminate].
  intros [= <-]. cbn [THREE.material].
  destruct (THREE.material building); cbn; auto.
Qed.

(** X11: a click whose ray meets none of the buildings changes nothing:
    the meshes, the selection (a highlight stays on) and the browser state
    are returned as they were. *)
Theorem click_miss (pick : THREE.Ray) (buildings : list THREE.Mesh)
    (light : THREE.DirectionalLight) (scene : THREE.Scene)
    (gl : buildingUtils.Globals) (st : State) :
  (forall b, In b buildings -> THREE.raycast (THREE.mesh_object b) pick = []) ->
  buildingUtils.onBuildingClick Math_acos parseFloat SunCalc_getTimes toWorking
    argumentLimit pick buildings light scene gl st
  = (Returned tt, buildings, gl, st).
Proof.
  intros Hmiss. unfold buildingUtils.onBuildingClick.
  destruct (THREE.intersectObjects _ _ pick) as [|first rest] eqn:E; [reflexivity|].
  exfalso.
  pose proof (picked_lookup buildings pick first rest E) as Hb.
  assert (Hin : In first (THREE.intersectObjects
                  (fun im => THREE.mesh_object (snd im))
                  (imap (fun i m => (i, m)) buildings) pick))
    by (rewrite E; left; reflexivity).
  apply intersectObjects_In in Hin as [_ Hd]. cbn beta in Hd.
  rewrite (Hmiss (snd (THREE.object first))) in Hd; [destruct Hd|].
  apply list_elem_of_In. eapply list_elem_of_lookup_2. exact Hb.
Qed.

(** X12: whatever a click does, it keeps the number of meshes, and every
    mesh keeps its scene object, its vertex buffer and its index buffer:
    only materials and colour buffers change. *)
Theorem click_keeps_geometry (pick : THREE.Ray) (buildings : list THREE.Mesh)
    (light : THREE.DirectionalLight) (scene : THREE.Scene)
    (gl : buildingUtils.Globals) (st : State) :
  let buildings' :=
    snd (fst (fst (buildingUtils.onBuildingClick Math_acos parseFloat
                     SunCalc_getTimes toWorking argumentLimit pick buildings
                     light scene gl st))) in
  List.length buildings' = List.length buildings
  /\ forall j b, buildings !! j = Some b ->
       exists b', buildings' !! j = Some b'
         /\ THREE.mesh_object b' = THREE.mesh_object b
         /\ THREE.position_array (THREE.geometry b')
            = THREE.position_array (THREE.geometry b)
         /\ THREE.index (THREE.geometry b') = THREE.index (THREE.geometry b).
Proof.
  cbv zeta.
  destruct (THREE.intersectObjects (fun im => THREE.mesh_object (snd im))
              (imap (fun i m => (i, m)) buildings) pick) as [|first rest] eqn:E.
  - unfold buildingUtils.onBuildingClick. rewrite E. cbn [fst snd].
    split; [reflexivity|]. intros j b Hb. exists b. auto.
  - rewrite (onBuildingClick_hit pick buildings light scene gl st first rest E).
    set (i := fst (THREE.object first)).
    pose proof (selectBuilding_length i buildings gl st) as Hlen.
    pose proof (selectBuilding_lookup i buildings gl st) as Hsel.
    destruct (Notions.selectBuilding i buildings gl st) as [[bs gl'] st1].
    cbn [fst snd] in *.
    assert (Hbase : forall j b, buildings !! j = Some b ->
              exists b', bs !! j = Some b'
                /\ THREE.mesh_object b' = THREE.mesh_object b
                /\ THREE.position_array (THREE.geometry b')
                   = THREE.position_array (THREE.geometry b)
                /\ THREE.index (THREE.geometry b') = THREE.index (THREE.geometry b)).
    { intros j b Hb. destruct (Hsel j b Hb) as (b' & Hb' & Hg & Ho & _).
      exists b'. rewrite Hg. auto. }
    destruct (bs !! i) as [building|] eqn:Hi; [|cbn [fst snd]; auto].
    destruct (shadowCalculate.calculateRooftopArea _ _ _ _ _ _ _) as [[vals|e] st'];
      cbn [fst snd]; [|auto].
    destruct (buildingUtils.colorBuilding toWorking argumentLimit vals building)
      as [coloured|e] eqn:Hcol; cbn [fst snd]; [|auto].
    split; [rewrite length_insert; exact Hlen|].
    intros j b Hb. destruct (Hbase j b Hb) as (b' & Hb' & Ho & Hp & Hx).
    destruct (decide (i = j)) as [<-|Hne].
    + rewrite Hi in Hb'. injection Hb' as <-.
      rewrite list_lookup_insert_eq by (eapply lookup_lt_Some; eauto).
      eexists. split; [reflexivity|].
      destruct (colorBuilding_frame vals building coloured Hcol) as (Ho' & Hp' & Hx').
      rewrite Ho', Hp', Hx'. auto.
    + rewrite list_lookup_insert_ne by exact Hne. exists b'. auto.
Qed.

(** X13: a click keeps the selection coherent: afterwards a mesh has a
    saved original material only if it is the highlighted one, so at most
    one building is highlighted at a time. *)
Theorem click_keeps_selection_ok (pick : THREE.Ray) (buildings : list THREE.Mesh)
    (light : THREE.DirectionalLight) (scene : THREE.Scene)
    (gl : buildingUtils.Globals) (st : State) :
  Notions.selection_ok buildings gl ->
  let result :=
    buildingUtils.onBuildingClick Math_acos parseFloat SunCalc_getTimes toWorking
      argumentLimit pick buildings light scene gl st in
  Notions.selection_ok (snd (fst (fst result))) (snd (fst result)).
Proof.
  intros Hok. cbv zeta.
  destruct (THREE.intersectObjects (fun im => THREE.mesh_object (snd im))
              (imap (fun i m => (i, m)) buildings) pick) as [|first rest] eqn:E.
  - unfold buildingUtils.onBuildingClick. rewrite E. exact Hok.
  - rewrite (onBuildingClick_hit pick buildings light scene gl st first rest E).
    set (i := fst (THREE.object first)).
    assert (Hi : (i < List.length buildings)%nat).
    { eapply lookup_lt_Some. exact (picked_lookup buildings pick first rest E). }
    pose proof (selectBuilding_length i buildings gl st) as Hlen.
    pose proof (selectBuilding_highlighted i buildings gl st) as Hhl.
    destruct (selectBuilding_on_ok i buildings gl st Hok Hi) as [Hdom _].
    destruct (Notions.selectBuilding i buildings gl st) as [[bs gl'] st1].
    cbn [fst snd] in *.
    assert (Hsel : Notions.selection_ok bs gl').
    { split.
      - intros j Hj. rewrite (Hdom j Hj). exact Hhl.
      - intros h Hh. rewrite Hhl in Hh. injection Hh as <-. lia. }
    destruct (bs !! i) as [building|]; [|exact Hsel].
    destruct (shadowCalculate.calculateRooftopArea _ _ _ _ _ _ _) as [[vals|e] st'];
      cbn [fst snd]; [|exact Hsel].
    destruct (buildingUtils.colorBuilding toWorking argumentLimit vals building);
      cbn [fst snd]; [|exact Hsel].
    eapply selection_ok_length; [|exact Hsel]. apply length_insert.
Qed.

(** X14: when a building [h] is highlighted and a click picks another
    building, [h] gets back the material saved for it and is otherwise
    untouched, nothing stays saved for it, and the picked building becomes
    the highlighted one. *)
Theorem previous_highlight_restored (pick : THREE.Ray)
    (buildings : list THREE.Mesh) (light : THREE.DirectionalLight)
    (scene : THREE.Scene) (gl : buildingUtils.Globals) (st : State)
    (first : THREE.Intersection (nat * THREE.Mesh))
    (rest : list (THREE.Intersection (nat * THREE.Mesh)))
    (h : nat) (m : THREE.MaterialSlot) (b : THREE.Mesh) :
  Notions.selection_ok buildings gl ->
  THREE.intersectObjects (fun im => THREE.mesh_object (snd im))
    (imap (fun i m => (i, m)) buildings) pick = first :: rest ->
  buildingUtils.highlightedBuilding gl = Some h ->
  h <> fst (THREE.object first) ->
  buildingUtils.originalMaterials gl !! h = Some m ->
  buildings !! h = Some b ->
  let result :=
    buildingUtils.onBuildingClick Math_acos parseFloat SunCalc_getTimes toWorking
      argumentLimit pick buildings light scene gl st in
  snd (fst (fst result)) !! h = Some (buildingUtils.set_material m b)
  /\ buildingUtils.originalMaterials (snd (fst result)) !! h = None
  /\ buildingUtils.highlightedBuilding (snd (fst result))
     = Some (fst (THREE.object first)).
Proof.
  intros Hok E Hh Hne Hm Hb. cbv zeta.
  rewrite (onBuildingClick_hit pick buildings light scene gl st first rest E).
  set (i := fst (THREE.object first)) in *.
  assert (Hi : (i < List.length buildings)%nat).
  { eapply lookup_lt_Some. exact (picked_lookup buildings pick first rest E). }
  pose proof (selectBuilding_highlighted i buildings gl st) as Hhl.
  destruct (selectBuilding_on_ok i buildings gl st Hok Hi) as [Hdom Hback].
  specialize (Hback h m b Hh Hne Hm Hb).
  destruct (Notions.selectBuilding i buildings gl st) as [[bs gl'] st1].
  cbn [fst snd] in *.
  assert (Hnone : buildingUtils.originalMaterials gl' !! h = None).
  { destruct (buildingUtils.originalMaterials gl' !! h) as [m'|] eqn:Em; [|reflexivity].
    contradiction Hne. apply Hdom. rewrite Em. eauto. }
  destruct (bs !! i) as [building|]; [|cbn [fst snd]; auto].
  destruct (shadowCalculate.calculateRooftopArea _ _ _ _ _ _ _) as [[vals|e] st'];
    cbn [fst snd]; [|auto].
  destruct (buildingUtils.colorBuilding toWorking argumentLimit vals building);
    cbn [fst snd]; [|auto].
  split; [|auto]. rewrite list_lookup_insert_ne by (apply not_eq_sym, Hne).
  exact Hback.
Qed.


End Selection.

(** ** The colour buffer *)

Section Paint.
Import Browser.
Local Open Scope float_scope.

Variable toWorking : float -> float.
Variable argumentLimit : nat.

Lemma paintVertex_length (i : option nat) (col : THREE.Color) (colors : list float) :
  List.length (buildingUtils.paintVertex i col colors) = List.length colors.
Proof.
  destruct i as [i|]; [|reflexivity].
  unfold buildingUtils.paintVertex. rewrite !length_insert. reflexivity.
Qed.

Lemma paintVertex_hit (vtx k : nat) (col : THREE.Color) (colors : list float) :
  (k < 3)%nat -> (vtx * 3 + k < List.length colors)%nat ->
  buildingUtils.paintVertex (Some vtx) col colors !! (vtx * 3 + k)%nat
  = Some (JS.fround (Notions.channel k col)).
Proof.
  intros Hk Hlen. unfold buildingUtils.paintVertex.
  destruct k as [|[|[|k]]]; [| | |lia]; cbn [Notions.channel].
  - rewrite Nat.add_0_r in *.
    rewrite list_lookup_insert_ne by lia. rewrite list_lookup_insert_ne by lia.
    apply list_lookup_insert_eq. exact Hlen.
  - rewrite list_lookup_insert_ne by lia.
    apply list_lookup_insert_eq. rewrite length_insert. exact Hlen.
  - apply list_lookup_insert_eq. rewrite !length_insert. exact Hlen.
Qed.

Lemma paintVertex_other (i : option nat) (vtx k : nat) (col : THREE.Color)
    (colors : list float) :
  (k < 3)%nat -> i <> Some vtx ->
  buildingUtils.paintVertex i col colors !! (vtx * 3 + k)%nat
  = colors !! (vtx * 3 + k)%nat.
Proof.
  intros Hk Hne. destruct i as [i|]; [|reflexivity].
  assert (i <> vtx) by congruence.
  unfold buildingUtils.paintVertex.
  rewrite !list_lookup_insert_ne by lia. reflexivity.
Qed.

Lemma paintFace_length (col : THREE.Color) (v : shadowCalculate.BipvValue)
    (colors : list float) :
  List.length (Notions.paintFace col v colors) = List.length colors.
Proof.
  unfold Notions.paintFace. rewrite !paintVertex_length. reflexivity.
Qed.

Lemma paintFace_hit (col : THREE.Color) (v : shadowCalculate.BipvValue)
    (colors : list float) (vtx k : nat) :
  Notions.uses_vertex vtx v ->
  (k < 3)%nat -> (vtx * 3 + k < List.length colors)%nat ->
  Notions.paintFace col v colors !! (vtx * 3 + k)%nat
  = Some (JS.fround (Notions.channel k col)).
Proof.
  intros Huse Hk Hlen. unfold Notions.paintFace.
  destruct (decide (shadowCalculate.c v = Some vtx)) as [->|Hc].
  { apply paintVertex_hit; [exact Hk|]. rewrite !paintVertex_length. exact Hlen. }
  rewrite paintVertex_other by assumption.
  destruct (decide (shadowCalculate.b v = Some vtx)) as [->|Hb].
  { apply paintVertex_hit; [exact Hk|]. rewrite !paintVertex_length. exact Hlen. }
  rewrite paintVertex_other by assumption.
  destruct Huse as [Ha|[Hb'|Hc']]; [|contradiction|contradiction].
  rewrite Ha. apply paintVertex_hit; assumption.
Qed.

Lemma paintFace_other (col : THREE.Color) (v : shadowCalculate.BipvValue)
    (colors : list float) (vtx k : nat) :
  ~ Notions.uses_vertex vtx v -> (k < 3)%nat ->
  Notions.paintFace col v colors !! (vtx * 3 + k)%nat
  = colors !! (vtx * 3 + k)%nat.
Proof.
  intros Huse Hk. unfold Notions.paintFace, Notions.uses_vertex in *.
  rewrite !paintVertex_other; [reflexivity | exact Hk | | exact Hk | | exact Hk | ];
    intros H; apply Huse; auto.
Qed.

Lemma paintFaces_length (bipvValues : list shadowCalculate.BipvValue)
    (minBipv maxBipv : float) (colors : list float) :
  List.length (buildingUtils.paintFaces toWorking bipvValues minBipv maxBipv colors)
  = List.length colors.
Proof.
  unfold buildingUtils.paintFaces. revert colors.
  induction bipvValues as [|v vs IH]; intros colors; [reflexivity|].
  cbn [fold_left]. rewrite IH.
  apply (paintFace_length
           (buildingUtils.getColorForValue toWorking (shadowCalculate.bipvValue v)
              minBipv maxBipv) v colors).
Qed.

Lemma paintFaces_unused (bipvValues : list shadowCalculate.BipvValue)
    (minBipv maxBipv : float) (colors : list float) (vtx k : nat) :
  (forall e, In e bipvValues -> ~ Notions.uses_vertex vtx e) -> (k < 3)%nat ->
  buildingUtils.paintFaces toWorking bipvValues minBipv maxBipv colors
    !! (vtx * 3 + k)%nat
  = colors !! (vtx * 3 + k)%nat.
Proof.
  unfold buildingUtils.paintFaces. revert colors.
  induction bipvValues as [|v vs IH]; intros colors Hun Hk; [reflexivity|].
  cbn [fold_left].
  rewrite IH; [|intros e' He'; apply Hun; right; exact He' | exact Hk].
  apply (paintFace_other
           (buildingUtils.getColorForValue toWorking (shadowCalculate.bipvValue v)
              minBipv maxBipv) v colors vtx k); [|exact Hk].
  apply Hun. left. reflexivity.
Qed.

Lemma paintFaces_last (front : list shadowCalculate.BipvValue)
    (e : shadowCalculate.BipvValue) (minBipv maxBipv : float)
    (colors : list float) (vtx k : nat) :
  Notions.uses_vertex vtx e ->
  (k < 3)%nat -> (vtx * 3 + k < List.length colors)%nat ->
  buildingUtils.paintFaces toWorking (front ++ [e]) minBipv maxBipv colors
    !! (vtx * 3 + k)%nat
  = Some (JS.fround
            (Notions.channel k
               (buildingUtils.getColorForValue toWorking
                  (shadowCalculate.bipvValue e) minBipv maxBipv))).
Proof.
  intros Huse Hk Hlen. unfold buildingUtils.paintFaces.
  rewrite fold_left_app. cbn [fold_left].
  apply (paintFace_hit _ e _ vtx k Huse Hk).
  fold (buildingUtils.paintFaces toWorking front minBipv maxBipv colors).
  rewrite paintFaces_length. exact Hlen.
Qed.

(** X16: when there are more values than the engine takes as arguments,
    the colouring throws a RangeError and no buffer is attached.  Otherwise
    the colour buffer attached to the mesh has three channels for every
    vertex of the position buffer; a vertex that no face names stays black
    (0, 0, 0); and the vertices of the last face carry the colour of that
    face, every channel rounded to single precision: where faces share a
    vertex, the last one to be painted decides. *)
Theorem colour_buffer (bipvValues : list shadowCalculate.BipvValue)
    (building : THREE.Mesh) :
  let count := THREE.position_count (THREE.geometry building) in
  let minBipv := JS.Math_min_list (map shadowCalculate.bipvValue bipvValues) in
  let maxBipv := JS.Math_max_list (map shadowCalculate.bipvValue bipvValues) in
  let colouring :=
    buildingUtils.colorBuilding toWorking argumentLimit bipvValues building in
  ((argumentLimit < List.length bipvValues)%nat -> colouring = Threw "RangeError")
  /\ ((List.length bipvValues <= argumentLimit)%nat ->
      exists coloured colors,
        colouring = Returned coloured
        /\ THREE.color_attribute (THREE.geometry coloured) = Some colors
        /\ List.length colors = (count * 3)%nat
        /\ (forall vtx k, (vtx < count)%nat -> (k < 3)%nat ->
              (forall e, In e bipvValues -> ~ Notions.uses_vertex vtx e) ->
              colors !! (vtx * 3 + k)%nat = Some 0)
        /\ (forall front e vtx k, bipvValues = front ++ [e] ->
              Notions.uses_vertex vtx e -> (vtx < count)%nat -> (k < 3)%nat ->
              colors !! (vtx * 3 + k)%nat
              = Some (JS.fround
                        (Notions.channel k
                           (buildingUtils.getColorForValue toWorking
                              (shadowCalculate.bipvValue e) minBipv maxBipv))))).
Proof.
  cbv zeta. unfold buildingUtils.colorBuilding, spread. rewrite length_map.
  split.
  - intros Hlim. apply Nat.leb_gt in Hlim. rewrite Hlim. reflexivity.
  - intros Hlim. apply Nat.leb_le in Hlim. rewrite Hlim.
    eexists.
    exists (buildingUtils.paintFaces toWorking bipvValues
              (JS.Math_min_list (map shadowCalculate.bipvValue bipvValues))
              (JS.Math_max_list (map shadowCalculate.bipvValue bipvValues))
              (replicate (THREE.position_count (THREE.geometry building) * 3) 0)).
    split; [reflexivity|]. split.
    { unfold buildingUtils.set_color_attribute.
      cbn [THREE.material]. destruct (THREE.material building); reflexivity. }
    split; [rewrite paintFaces_length; apply length_replicate|]. split.
    + intros vtx k Hv Hk Hun. rewrite paintFaces_unused by assumption.
      apply lookup_replicate_2. lia.
    + intros front e vtx k -> Huse Hv Hk.
      apply paintFaces_last; [exact Huse | exact Hk|].
      rewrite length_replicate. lia.
Qed.

End Paint.

(** ** The sun update, the time string and the top faces *)

Section MoreSun.
Import Browser.
Local Open Scope float_scope.

Variable Math_cos Math_sin : float -> float.
Variable parseInt : string -> option Z.
Variable SunCalc_getPosition : string -> float -> float -> sunPosition.SunPosition.

(** X17: updating the sun twice from the same inputs is updating it once:
    the second call returns the same value and leaves the same light and
    the same global sun position as the first.  A call never touches the
    document, the console or the random source. *)
Theorem sun_update_idempotent (light : THREE.DirectionalLight)
    (global : sunPosition.SunPosition) (st : State) :
  let first :=
    sunPosition.updateSunPosition Math_cos Math_sin parseInt SunCalc_getPosition
      light global st in
  let second :=
    sunPosition.updateSunPosition Math_cos Math_sin parseInt SunCalc_getPosition
      (snd (fst (fst first))) (snd (fst first)) (snd first) in
  fst second = fst first
  /\ document (snd first) = document st
  /\ console (snd first) = console st
  /\ drawn (snd first) = drawn st.
Proof.
  cbv zeta. unfold sunPosition.updateSunPosition.
  destruct (getElementById "dateInput" st) as [dateInput|] eqn:Hd.
  - destruct (String.eqb (value dateInput) "") eqn:He.
    + cbn [fst snd].
      change (getElementById "dateInput" (alert "Please enter a date." st))
        with (getElementById "dateInput" st).
      rewrite Hd, He. auto.
    + destruct (getElementById "timeSlider" st) as [timeSlider|] eqn:Hs.
      * destruct (sunPosition.lightVector _ _ _ _ _ _) as [[x y] z] eqn:Ev.
        cbn [fst snd]. rewrite Hd, He, Hs.
        cbn [sunPosition.azimuth sunPosition.altitude]. rewrite Ev.
        cbn [THREE.target_position fst snd].
        destruct (THREE.target_position light); auto.
      * cbn [fst snd]. rewrite Hd, He, Hs. auto.
  - cbn [fst snd].
    change (getElementById "dateInput" (alert "Please enter a date." st))
      with (getElementById "dateInput" st).
    rewrite Hd. auto.
Qed.

Lemma pad2_twoDigits (n : Z) :
  (0 <= n < 100)%Z -> pad2 (Some n) = Notions.twoDigits n.
Proof.
  intros Hn.
  assert (H : forallb (fun k => String.eqb (pad2 (Some (Z.of_nat k)))
                                           (Notions.twoDigits (Z.of_nat k)))
                      (seq 0 100) = true) by (vm_compute; reflexivity).
  rewrite forallb_forall in H.
  specialize (H (Z.to_nat n)). rewrite Z2Nat.id in H by lia.
  apply String.eqb_eq, H, in_seq. lia.
Qed.

(** X18: for a slider value read as a whole number of minutes from 0 to
    5999 (the slider itself goes from 0 to 1440), the string handed to the
    date constructor is the date, the letter T, the hours on two digits, a
    colon and the minutes on two digits. *)
Theorem dateTime_format (dateValue sliderValue : string) (n : Z) :
  parseInt sliderValue = Some n ->
  (0 <= n < 6000)%Z ->
  sunPosition.dateTime parseInt dateValue sliderValue
  = dateValue +:+ "T" +:+ Notions.twoDigits (n / 60) +:+ ":"
    +:+ Notions.twoDigits (n mod 60).
Proof.
  intros Hp Hn. unfold sunPosition.dateTime. rewrite Hp. cbn [option_map].
  rewrite Z.rem_mod_nonneg by lia.
  assert (Hh : (0 <= n / 60 < 100)%Z).
  { split; [apply Z.div_pos; lia|]. apply Z.div_lt_upper_bound; lia. }
  assert (Hm : (0 <= n mod 60 < 100)%Z).
  { pose proof (Z.mod_pos_bound n 60 ltac:(lia)). lia. }
  rewrite (pad2_twoDigits _ Hh), (pad2_twoDigits _ Hm). reflexivity.
Qed.

End MoreSun.

Section TopFaces.
Import Browser.
Local Open Scope float_scope.








End TopFaces.

(** ** The further properties on the samples *)

Section MoreEvaluations.
Import Browser.
Local Open Scope float_scope.

Lemma open_scene_is_open : Notions.open_sky Samples.open_scene.
Proof. intros o [<-|[]]. left. reflexivity. Qed.

Lemma domed_scene_is_enclosed : Notions.enclosed MoreSamples.domed_scene.
Proof.
  exists MoreSamples.dome. split; [right; left; reflexivity|].
  split; [discriminate|]. intros ray. discriminate.
Qed.

(** [open_sky_estimate] on the flat roof under the open sky. *)
Lemma open_sky_estimate_witness :
  let ghi := Reference.ghiOf Samples.parseFloat (Samples.input "5.5") in
  exists values,
    fst (Samples.estimate Samples.flat_roof Samples.sun_high Samples.open_scene
           Samples.noon) = Returned values
    /\ forall k f, Reference.triangles [0; 1; 2; 0; 2; 3]%nat !! k = Some f ->
         Reference.shadowAt Samples.square Samples.sun_high Samples.open_scene
           Samples.noon k f = 0
         /\ exists v, values !! k = Some v
              /\ shadowCalculate.bipvValue v
                 = ghi * Reference.faceArea Samples.square f * 1
                   * shadowCalculate.efficiencyFactor.
Proof.
  apply (open_sky_estimate Samples.acos_axis Samples.parseFloat
           Samples.SunCalc_getTimes Samples.flat_roof Samples.sun_high
           Samples.open_scene Samples.noon (Samples.input "5.5")
           (Samples.input "2024-06-21") [0; 1; 2; 0; 2; 3]%nat
           eq_refl eq_refl eq_refl open_scene_is_open).
Defined.

(** [enclosed_estimate] on the flat roof under the dome. *)
Lemma enclosed_estimate_witness :
  let ghi := Reference.ghiOf Samples.parseFloat (Samples.input "5.5") in
  exists values,
    fst (Samples.estimate Samples.flat_roof Samples.sun_high
           MoreSamples.domed_scene Samples.noon) = Returned values
    /\ forall k f, Reference.triangles [0; 1; 2; 0; 2; 3]%nat !! k = Some f ->
         Reference.shadowAt Samples.square Samples.sun_high
           MoreSamples.domed_scene Samples.noon k f = 1
         /\ exists v, values !! k = Some v
              /\ shadowCalculate.bipvValue v
                 = ghi * Reference.faceArea Samples.square f * 0
                   * shadowCalculate.efficiencyFactor
              /\ (is_finite (ghi * Reference.faceArea Samples.square f) = true ->
                  (shadowCalculate.bipvValue v =? 0) = true).
Proof.
  apply (enclosed_estimate Samples.acos_axis Samples.parseFloat
           Samples.SunCalc_getTimes Samples.flat_roof Samples.sun_high
           MoreSamples.domed_scene Samples.noon (Samples.input "5.5")
           (Samples.input "2024-06-21") [0; 1; 2; 0; 2; 3]%nat
           eq_refl eq_refl eq_refl domed_scene_is_enclosed).
Defined.

(** [entry_count] on the flat roof: six indices, two entries, 300 draws. *)
Lemma entry_count_witness :
  let result :=
    Samples.estimate Samples.flat_roof Samples.sun_high Samples.open_scene
      Samples.noon in
  exists values,
    fst result = Returned values
    /\ List.length values = 2%nat
    /\ drawn (snd result) = 300%nat.
Proof.
  apply (entry_count Samples.acos_axis Samples.parseFloat
           Samples.SunCalc_getTimes Samples.flat_roof Samples.sun_high
           Samples.open_scene Samples.noon (Samples.input "5.5")
           (Samples.input "2024-06-21") [0; 1; 2; 0; 2; 3]%nat
           eq_refl eq_refl eq_refl).
Defined.

(** [empty_index_buffer] on the mesh without triangles. *)
Lemma empty_index_buffer_witness :
  let result :=
    Samples.estimate MoreSamples.hollow Samples.sun_high Samples.open_scene
      Samples.noon in
  fst result = Returned []
  /\ drawn (snd result) = drawn Samples.noon
  /\ Reference.reported "totalArea" (snd result)
     = (fun _ => Fixed2 "Total Area (Rooftop + Vertical): " 0 " sq.m")
       <$> getElementById "totalArea" Samples.noon
  /\ Reference.reported "shadowFraction" (snd result)
     = (fun _ => Fixed2 "Average Shadow Fraction Over Total Area: " nan "")
       <$> getElementById "shadowFraction" Samples.noon
  /\ Reference.reported "pvValue" (snd result)
     = (fun _ => Fixed2 "Total PV Value: " nan " kWhr")
       <$> getElementById "pvValue" Samples.noon.
Proof.
  apply (empty_index_buffer Samples.acos_axis Samples.parseFloat
           Samples.SunCalc_getTimes MoreSamples.hollow Samples.sun_high
           Samples.open_scene Samples.noon (Samples.input "5.5")
           (Samples.input "2024-06-21") eq_refl eq_refl eq_refl).
Defined.

(** [coincident_triangle] at the third vertex of the square. *)
Lemma coincident_triangle_witness :
  Reference.faceArea Samples.square (Some 2, Some 2, Some 2)%nat = 0
  /\ Reference.classifyFace Samples.acos_axis
       (Reference.faceNormal Samples.square (Some 2, Some 2, Some 2)%nat)
     = shadowCalculate.Vertical.
Proof.
  apply (coincident_triangle Samples.acos_axis Samples.square 2%nat);
    vm_compute; reflexivity.
Defined.

(** [zero_normal_is_vertical] at the normal (0, -0, 0). *)
Lemma zero_normal_is_vertical_witness :
  shadowCalculate.isVertical Samples.acos_axis (THREE.mkVector3 0 (-0) 0) = true.
Proof.
  apply (zero_normal_is_vertical Samples.acos_axis (THREE.mkVector3 0 (-0) 0));
    vm_compute; reflexivity.
Defined.

(** [uniform_values_colour_nan] on two entries of value 2. *)
Lemma uniform_values_colour_nan_witness :
  let e := shadowCalculate.mkBipvValue (Some 0%nat) (Some 1%nat) (Some 2%nat) 2
             shadowCalculate.Rooftop in
  let minBipv :=
    JS.Math_min_list (map shadowCalculate.bipvValue MoreSamples.twins) in
  let maxBipv :=
    JS.Math_max_list (map shadowCalculate.bipvValue MoreSamples.twins) in
  minBipv = 2 /\ maxBipv = 2
  /\ buildingUtils.getColorForValue Samples.toWorking (shadowCalculate.bipvValue e)
       minBipv maxBipv
     = THREE.mkColor nan nan nan.
Proof.
  apply (uniform_values_colour_nan Samples.toWorking MoreSamples.twins 2).
  - repeat constructor.
  - left. reflexivity.
Defined.

(** [highlight_revert_roundtrip] on the first of two meshes. *)
Lemma highlight_revert_roundtrip_witness :
  let buildings := [Samples.flat_roof; Samples.soup] in
  let highlighted :=
    buildingUtils.highlightBuilding 0 buildings buildingUtils.Globals_initial
      Samples.noon in
  buildingUtils.revertHighlight 0 (fst (fst highlighted)) (snd (fst highlighted))
  = (buildings, buildingUtils.Globals_initial)
  /\ snd highlighted = Reference.afterDraws 4 Samples.noon.
Proof.
  apply (highlight_revert_roundtrip 0 [Samples.flat_roof; Samples.soup]
           buildingUtils.Globals_initial Samples.noon Samples.flat_roof
           eq_refl eq_refl).
Defined.

(** [highlight_twice] on the first of two meshes. *)
Lemma highlight_twice_witness :
  let buildings := [Samples.flat_roof; Samples.soup] in
  let once :=
    buildingUtils.highlightBuilding 0 buildings buildingUtils.Globals_initial
      Samples.noon in
  let twice :=
    buildingUtils.highlightBuilding 0 (fst (fst once)) (snd (fst once)) (snd once) in
  fst twice = fst once
  /\ buildingUtils.originalMaterials (snd (fst twice)) !! 0%nat
     = Some (THREE.material Samples.flat_roof)
  /\ snd once = Reference.afterDraws 4 Samples.noon
  /\ snd twice = Reference.afterDraws 8 Samples.noon.
Proof.
  apply (highlight_twice 0 [Samples.flat_roof; Samples.soup]
           buildingUtils.Globals_initial Samples.noon Samples.flat_roof
           eq_refl eq_refl).
Defined.

(** [click_miss] on a mesh that no ray meets, while another selection is
    recorded. *)
Lemma click_miss_witness :
  MoreSamples.click [Samples.flat_roof] MoreSamples.far_selected Samples.noon
  = (Returned tt, [Samples.flat_roof], MoreSamples.far_selected, Samples.noon).
Proof.
  apply (click_miss Samples.acos_axis Samples.parseFloat Samples.SunCalc_getTimes
           Samples.toWorking Samples.argumentLimit MoreSamples.pick [Samples.flat_roof] Samples.sun_high
           Samples.open_scene MoreSamples.far_selected Samples.noon).
  intros b [<-|[]]. reflexivity.
Defined.

Lemma initial_selection_ok (buildings : list THREE.Mesh) :
  Notions.selection_ok buildings buildingUtils.Globals_initial.
Proof.
  split.
  - intros j [m Hm]. cbn in Hm. rewrite (lookup_empty (M:=gmap nat)) in Hm.
    discriminate.
  - intros h [=].
Qed.

(** [click_keeps_selection_ok] on the first click of a session. *)
Lemma click_keeps_selection_ok_witness :
  let result :=
    MoreSamples.click [Samples.flat_roof; Samples.soup]
      buildingUtils.Globals_initial Samples.noon in
  Notions.selection_ok (snd (fst (fst result))) (snd (fst result)).
Proof.
  apply (click_keeps_selection_ok Samples.acos_axis Samples.parseFloat
           Samples.SunCalc_getTimes Samples.toWorking Samples.argumentLimit
           MoreSamples.pick
           [Samples.flat_roof; Samples.soup] Samples.sun_high Samples.open_scene
           buildingUtils.Globals_initial Samples.noon).
  apply initial_selection_ok.
Defined.

Lemma far_selected_ok : Notions.selection_ok MoreSamples.blocks MoreSamples.far_selected.
Proof.
  split.
  - intros j [m Hm]. cbn in Hm. destruct (decide (j = 1%nat)) as [->|Hne];
      [reflexivity|].
    rewrite (lookup_singleton_ne (M:=gmap nat)) in Hm by congruence. discriminate.
  - intros h [= <-]. cbn. lia.
Qed.

(** [previous_highlight_restored]: the far block is highlighted and the
    click picks the near one. *)
Lemma previous_highlight_restored_witness :
  let result :=
    MoreSamples.click MoreSamples.blocks MoreSamples.far_selected Samples.noon in
  snd (fst (fst result)) !! 1%nat
  = Some (buildingUtils.set_material (THREE.MeshStandardMaterial 0xffffff)
            MoreSamples.far_highlighted)
  /\ buildingUtils.originalMaterials (snd (fst result)) !! 1%nat = None
  /\ buildingUtils.highlightedBuilding (snd (fst result)) = Some 0%nat.
Proof.
  apply (previous_highlight_restored Samples.acos_axis Samples.parseFloat
           Samples.SunCalc_getTimes Samples.toWorking Samples.argumentLimit
           MoreSamples.pick
           MoreSamples.blocks Samples.sun_high Samples.open_scene
           MoreSamples.far_selected Samples.noon
           (THREE.mkIntersection 50 (0%nat, MoreSamples.near_block))
           [THREE.mkIntersection 80 (1%nat, MoreSamples.far_highlighted)]
           1%nat (THREE.MeshStandardMaterial 0xffffff) MoreSamples.far_highlighted
           far_selected_ok eq_refl eq_refl ltac:(discriminate) eq_refl eq_refl).
Defined.


(** [dateTime_format] at noon. *)
Lemma dateTime_format_witness :
  sunPosition.dateTime Samples.parseInt "2024-06-21" "720"
  = "2024-06-21" +:+ "T" +:+ Notions.twoDigits (720 / 60) +:+ ":"
    +:+ Notions.twoDigits (720 mod 60).
Proof.
  apply (dateTime_format Samples.parseInt "2024-06-21" "720" 720 eq_refl).
  lia.
Defined.



End MoreEvaluations.

(** ** What the estimator leaves of the document *)

Section Inputs.
Import Browser.
Local Open Scope float_scope.

Variable Math_acos : float -> float.
Variable parseFloat : string -> float.
Variable SunCalc_getTimes : string -> float -> float -> float * float.

Lemma value_write_innerText (id id' : string) (t : Text) (st : State) :
  value <$> getElementById id (write_innerText id' t st)
  = value <$> getElementById id st.
Proof.
  unfold getElementById, write_innerText. cbn [document set_document].
  destruct (decide (id' = id)) as [->|Hne].
  - rewrite lookup_alter_eq. destruct (document st !! id); reflexivity.
  - rewrite lookup_alter_ne by exact Hne. reflexivity.
Qed.

Lemma value_write_display (id id' d : string) (st : State) :
  value <$> getElementById id (write_display id' d st)
  = value <$> getElementById id st.
Proof.
  unfold getElementById, write_display. cbn [document set_document].
  destruct (decide (id' = id)) as [->|Hne].
  - rewrite lookup_alter_eq. destruct (document st !! id); reflexivity.
  - rewrite lookup_alter_ne by exact Hne. reflexivity.
Qed.

Lemma value_updateInfoCard (id n : string) (f1 f2 f3 f4 f5 f6 f7 : float)
    (st : State) :
  value <$> getElementById id (shadowCalculate.updateInfoCard n f1 f2 f3 f4 f5 f6 f7 st)
  = value <$> getElementById id st.
Proof.
  unfold shadowCalculate.updateInfoCard.
  rewrite value_write_display, !value_write_innerText. reflexivity.
Qed.

(** X21: whatever the mesh and however the call ends, the estimator adds
    no element to the document, removes none, and changes the value of
    none: the GHI, the date and the time inputs read the same afterwards. *)
Theorem estimator_keeps_inputs (building : THREE.Mesh)
    (light : THREE.DirectionalLight) (scene : THREE.Scene) (st : State)
    (id : string) :
  value <$> getElementById id
              (snd (shadowCalculate.calculateRooftopArea Math_acos parseFloat
                      SunCalc_getTimes building light scene st))
  = value <$> getElementById id st.
Proof.
  destruct (getElementById "ghi" st) as [ghiElement|] eqn:Hghi;
    [|unfold shadowCalculate.calculateRooftopArea; rewrite Hghi; reflexivity].
  destruct (getElementById "dateInput" st) as [dateInputElement|] eqn:Hdate;
    [|unfold shadowCalculate.calculateRooftopArea; rewrite Hghi, Hdate; reflexivity].
  destruct (THREE.index (THREE.geometry building)) as [indices|] eqn:Hindex.
  - rewrite (calculateRooftopArea_indexed Math_acos parseFloat SunCalc_getTimes
               building light scene st ghiElement dateInputElement indices
               Hghi Hdate Hindex).
    cbn [snd]. rewrite value_updateInfoCard. reflexivity.
  - rewrite (calculateRooftopArea_unindexed Math_acos parseFloat SunCalc_getTimes
               building light scene st ghiElement dateInputElement
               Hghi Hdate Hindex).
    reflexivity.
Qed.

End Inputs.
